(** * Volume-reduction pipeline: filtering and deduplication

    A shallow embedding of [app/volume_reduction_pipeline.py] (class
    [VolumeReducer] and [filter_articles_batch]) together with executable
    models of the Python library calls it makes ([re], [str] methods,
    [hashlib.md5], [difflib.SequenceMatcher], [datetime] arithmetic).

    Conventions.
    - A Python [str] is a [string]; inside the text algorithms it is the
      list of its characters.  A character is an [ascii], read as the code
      point U+0000..U+00FF; the character classes below are Python's for
      that range.  Text with code points above U+00FF is outside the model:
      every statement below about a text is a statement about the texts of
      this range.  The range matters for letter case.  On it [str.lower]
      maps a character to one character of the range, and [re.IGNORECASE]
      matches a pattern character with a text character exactly when their
      lower-case forms are equal.  Above it neither holds: U+0130 lower-cases
      to two characters, and [re.IGNORECASE] matches U+017F with [s], U+0130
      and U+0131 with [i], and U+212A with [k], which [str.lower] does not
      bring together.
    - Python [int]s are [Z]; lengths and positions are [nat].
    - The engine's mutable attributes are a record threaded through the
      calls that read or write them.
    - The wall clock is an argument: a call takes one clock reading [c], and
      every [datetime.now] inside the call returns it. *)

From Stdlib Require Import ZArith QArith Ascii String List Lia Bool.
From stdpp Require Import gmap strings list sorting.

Local Open Scope string_scope.
Local Open Scope list_scope.

(** ** Characters *)

Module Chars.

Local Open Scope N_scope.

(** [ord(c)] *)
Definition code (c : ascii) : N := N_of_ascii c.

Definition between (lo hi : N) (c : ascii) : bool :=
  (lo <=? code c) && (code c <=? hi).

(** [str.isspace] and the class [\s]. *)
Definition is_space (c : ascii) : bool :=
  between 9 13 c || between 28 32 c || (code c =? 133) || (code c =? 160).

(** the class [\w]: [str.isalnum] or the underscore. *)
Definition is_word (c : ascii) : bool :=
  between 48 57 c || between 65 90 c || (code c =? 95) || between 97 122 c
  || (code c =? 170) || between 178 179 c || (code c =? 181)
  || between 185 186 c || between 188 190 c
  || between 192 214 c || between 216 246 c || between 248 255 c.

Definition is_upper (c : ascii) : bool :=
  between 65 90 c || between 192 214 c || between 216 222 c.

(** [str.lower], one character. *)
Definition lower (c : ascii) : ascii :=
  if is_upper c then ascii_of_N (code c + 32) else c.

(** [str.upper], one character; the two letters whose capital lies above
    U+00FF and the sharp s are left as they are. *)
Definition upper (c : ascii) : ascii :=
  if between 97 122 c || between 224 246 c || between 248 254 c
  then ascii_of_N (code c - 32) else c.

Definition newline : ascii := ascii_of_N 10.

End Chars.

Arguments Chars.is_space : simpl never.
Arguments Chars.is_word : simpl never.
Arguments Chars.lower : simpl never.

(** ** Regular expressions: the fragment of [re] that the pipeline uses

    Repetition is only ever applied to a single-character class in the
    source patterns, so [Many] is greedy repetition of a class.  The
    matcher lists the possible continuations of a match in the order in
    which Python's backtracking matcher tries them, so the head of the list
    is the match Python reports. *)

Module Re.

Inductive cset : Type :=
| CLit (c : ascii)
| CRange (lo hi : ascii)
| CAny                        (* .  *)
| CWord                       (* \w *)
| CSpace                      (* \s *)
| CUnion (a b : cset)
| CNot (a : cset).

Inductive regex : Type :=
| Eps
| One (c : cset)
| Many (c : cset) (min : nat) (* c{min,} *)
| Seq (r1 r2 : regex)
| Alt (r1 r2 : regex)
| Bol                         (* ^  *)
| Eol                         (* $  *)
| Wb.                         (* \b *)

(** A literal string. *)
Fixpoint lit (s : string) : regex :=
  match s with
  | EmptyString => Eps
  | String c EmptyString => One (CLit c)
  | String c s' => Seq (One (CLit c)) (lit s')
  end.

Fixpoint seqs (rs : list regex) : regex :=
  match rs with
  | [] => Eps
  | [r] => r
  | r :: rs' => Seq r (seqs rs')
  end.

Fixpoint alts (rs : list regex) : regex :=
  match rs with
  | [] => Eps
  | [r] => r
  | r :: rs' => Alt r (alts rs')
  end.

(** [ic] is the flag [re.IGNORECASE], for a subject character of the range
    U+0000..U+00FF: a literal matches the characters with the same
    lower-case form, and these are all.  (The characters that [re] matches
    in addition, U+017F, U+0130, U+0131 and U+212A for the letters of the
    source patterns, lie above the range.) *)
Fixpoint cset_match (ic : bool) (cs : cset) (t : ascii) : bool :=
  match cs with
  | CLit c =>
      if ic then Ascii.eqb (Chars.lower t) (Chars.lower c) else Ascii.eqb t c
  | CRange lo hi =>
      let inr x := Chars.between (Chars.code lo) (Chars.code hi) x in
      if ic then inr t || inr (Chars.lower t) || inr (Chars.upper t) else inr t
  | CAny => negb (Ascii.eqb t Chars.newline)
  | CWord => Chars.is_word t
  | CSpace => Chars.is_space t
  | CUnion a b => cset_match ic a t || cset_match ic b t
  | CNot a => negb (cset_match ic a t)
  end.

(** A position in the subject: the character before it, if any, and the
    text after it. *)
Definition pos : Type := option ascii * list ascii.

Definition word_at (o : option ascii) : bool :=
  match o with Some c => Chars.is_word c | None => false end.

Definition at_boundary (prev : option ascii) (s : list ascii) : bool :=
  xorb (word_at prev) (word_at (head s)).

Definition at_end (s : list ascii) : bool :=
  match s with
  | [] => true
  | [c] => Ascii.eqb c Chars.newline
  | _ => false
  end.

Fixpoint many (ic : bool) (cs : cset) (min : nat) (prev : option ascii)
    (s : list ascii) : list pos :=
  let stop := if (min =? 0)%nat then [(prev, s)] else [] in
  match s with
  | t :: s' =>
      if cset_match ic cs t
      then many ic cs (Nat.pred min) (Some t) s' ++ stop
      else stop
  | [] => stop
  end.

Fixpoint run (ic : bool) (r : regex) (prev : option ascii) (s : list ascii)
    : list pos :=
  match r with
  | Eps => [(prev, s)]
  | One cs =>
      match s with
      | t :: s' => if cset_match ic cs t then [(Some t, s')] else []
      | [] => []
      end
  | Many cs min => many ic cs min prev s
  | Seq r1 r2 => flat_map (fun p => run ic r2 (fst p) (snd p)) (run ic r1 prev s)
  | Alt r1 r2 => run ic r1 prev s ++ run ic r2 prev s
  | Bol => match prev with None => [(prev, s)] | Some _ => [] end
  | Eol => if at_end s then [(prev, s)] else []
  | Wb => if at_boundary prev s then [(prev, s)] else []
  end.

(** The match Python finds at this position, as the number of characters
    it consumes. *)
Definition match_here (ic : bool) (r : regex) (prev : option ascii)
    (s : list ascii) : option nat :=
  match run ic r prev s with
  | p :: _ => Some (length s - length (snd p))%nat
  | [] => None
  end.

(** [re.search(r, s) is not None] *)
Fixpoint search_from (ic : bool) (r : regex) (prev : option ascii)
    (s : list ascii) : bool :=
  match match_here ic r prev s with
  | Some _ => true
  | None =>
      match s with
      | [] => false
      | t :: s' => search_from ic r (Some t) s'
      end
  end.

Definition search (ic : bool) (r : regex) (s : string) : bool :=
  search_from ic r None (list_ascii_of_string s).

(** The left-to-right scan shared by [re.findall] and [re.sub]: [skip]
    counts the characters still covered by the match found last. *)
Fixpoint findall_go (ic : bool) (r : regex) (skip : nat) (prev : option ascii)
    (s : list ascii) : list (list ascii) :=
  match s with
  | [] =>
      match skip, match_here ic r prev [] with
      | O, Some _ => [[]]
      | _, _ => []
      end
  | t :: s' =>
      match skip with
      | S k => findall_go ic r k (Some t) s'
      | O =>
          match match_here ic r prev s with
          | Some n => take n s :: findall_go ic r (Nat.pred n) (Some t) s'
          | None => findall_go ic r 0 (Some t) s'
          end
      end
  end.

(** [re.findall(r, s)] for a pattern without groups. *)
Definition findall (ic : bool) (r : regex) (s : string) : list string :=
  map string_of_list_ascii (findall_go ic r 0 None (list_ascii_of_string s)).

Fixpoint sub_go (ic : bool) (r : regex) (repl : list ascii) (skip : nat)
    (prev : option ascii) (s : list ascii) : list ascii :=
  match s with
  | [] =>
      match skip, match_here ic r prev [] with
      | O, Some _ => repl
      | _, _ => []
      end
  | t :: s' =>
      match skip with
      | S k => sub_go ic r repl k (Some t) s'
      | O =>
          match match_here ic r prev s with
          | Some O => repl ++ t :: sub_go ic r repl 0 (Some t) s'
          | Some (S k) => repl ++ sub_go ic r repl k (Some t) s'
          | None => t :: sub_go ic r repl 0 (Some t) s'
          end
      end
  end.

(** [re.sub(r, repl, s)] for a replacement without group references. *)
Definition sub (ic : bool) (r : regex) (repl : string) (s : string) : string :=
  string_of_list_ascii
    (sub_go ic r (list_ascii_of_string repl) 0 None (list_ascii_of_string s)).

End Re.

(** ** [str] methods *)

Module Str.

Definition chars : string -> list ascii := list_ascii_of_string.
Definition of_chars : list ascii -> string := string_of_list_ascii.

Definition len (s : string) : nat := length (chars s).

(** [s[:n]] *)
Definition prefix (n : nat) (s : string) : string := of_chars (take n (chars s)).

(** [s.lower()], for a text of the range U+0000..U+00FF: character by
    character, and the result is in the range again.  (Above the range
    [str.lower] is no such map: U+0130 becomes two characters.) *)
Definition lower_chars (s : list ascii) : list ascii := map Chars.lower s.
Definition lower (s : string) : string := of_chars (lower_chars (chars s)).

Fixpoint lstrip_chars (s : list ascii) : list ascii :=
  match s with
  | c :: s' => if Chars.is_space c then lstrip_chars s' else s
  | [] => []
  end.

Definition rstrip_chars (s : list ascii) : list ascii :=
  rev (lstrip_chars (rev s)).

Definition strip_chars (s : list ascii) : list ascii :=
  rstrip_chars (lstrip_chars s).

(** [s.strip()] *)
Definition strip (s : string) : string := of_chars (strip_chars (chars s)).

(** [s.split()]: the maximal runs of non-space characters. *)
Fixpoint split_chars (s : list ascii) : list (list ascii) :=
  match s with
  | [] => []
  | c :: s' =>
      if Chars.is_space c then split_chars s'
      else if Chars.is_space (default c (head s')) then [c] :: split_chars s'
      else match split_chars s' with
           | w :: ws => (c :: w) :: ws
           | [] => [[c]]
           end
  end.

Definition split (s : string) : list string := map of_chars (split_chars (chars s)).

(** [sep.join(xs)] *)
Fixpoint join (sep : string) (xs : list string) : string :=
  match xs with
  | [] => ""
  | [x] => x
  | x :: xs' => x +:+ sep +:+ join sep xs'
  end.

(** [s.encode()]: UTF-8, as byte values. *)
Definition encode_char (c : ascii) : list Z :=
  let n := Z.of_N (Chars.code c) in
  if (n <? 128)%Z then [n]
  else [Z.lor 192 (Z.shiftr n 6); Z.lor 128 (Z.land n 63)].

Definition encode (s : string) : list Z := flat_map encode_char (chars s).

End Str.

(** ** The pattern tables of [VolumeReducer.__init__] *)

Module Patterns.
Import Re.

Definition dot_star : regex := Many CAny 0.
Definition spaces0 : regex := Many CSpace 0.
Definition spaces1 : regex := Many CSpace 1.
Definition az : cset := CRange "a" "z".
Definition AZ : cset := CRange "A" "Z".

Definition wire_service_patterns : list regex :=
  [ lit "(Reuters)";
    lit "(AP)";
    lit "(AFP)";
    lit "(Bloomberg)";
    lit "Press Trust of India";
    seqs [lit "PTI"; spaces0; lit "-"];
    seqs [lit "ANI"; spaces0; lit "-"];
    seqs [lit "IANS"; spaces0; lit "-"];
    seqs [lit "UNI"; spaces0; lit "-"];
    lit "(IANS)";
    lit "(PTI)";
    lit "News agencies";
    lit "Wire services";
    seqs [lit "Courtesy:"; dot_star; lit "Reuters"];
    seqs [lit "Source:"; dot_star; lit "AP"; One CSpace] ].

Definition pr_patterns : list regex :=
  [ lit "press release";
    lit "FOR IMMEDIATE RELEASE";
    lit "Business Wire";
    lit "PR Newswire";
    lit "PRWeb";
    seqs [lit "Contact:"; dot_star; lit "@"; dot_star; lit "."];
    seqs [lit "About "; One AZ; Many (CUnion az (CUnion AZ CSpace)) 0; lit ":"];
    seqs [lit "For more information"; dot_star; lit "visit"];
    lit "Media Contact:";
    seqs [lit "Disclaimer:"; dot_star; lit "investment"];
    lit "This is a sponsored";
    lit "Paid advertisement" ].

Definition low_value_patterns : list regex :=
  [ seqs [Bol; lit "Live updates:"];
    seqs [Bol; lit "Breaking:"; dot_star; lit "."; Eol];
    lit "More details to follow";
    lit "This is a developing story";
    lit "Story will be updated";
    seqs [Bol; Many CWord 1; spaces1; Many CWord 1; spaces0; lit "-"; spaces0; Eol];
    lit "No additional details";
    lit "Developing..." ].

(** [\b(By|Reporter|Correspondent):] *)
Definition byline : regex :=
  seqs [Wb; alts [lit "By"; lit "Reporter"; lit "Correspondent"]; lit ":"].

(** [\b[A-Z][a-zA-Z]*\s+(?:Inc|Corp|Ltd|LLC|Co)\b] *)
Definition company : regex :=
  seqs [Wb; One AZ; Many (CUnion az AZ) 0; spaces1;
        alts [lit "Inc"; lit "Corp"; lit "Ltd"; lit "LLC"; lit "Co"]; Wb].

Definition filtered_patterns : list regex :=
  [ lit "/press-release/";
    lit "/pr/";
    lit "/advertisement/";
    lit "/sponsored/";
    lit "/jobs/";
    lit "/careers/";
    lit "/obituary/";
    lit "/weather/";
    lit "/sports-scores/";
    lit "/stock-prices/" ].

(** [\s+] *)
Definition whitespace_run : regex := spaces1.

(** [[^\w\s]] *)
Definition punctuation : regex := One (CNot (CUnion CWord CSpace)).

Definition stop_words : list string :=
  ["the"; "a"; "an"; "and"; "or"; "but"; "in"; "on"; "at"; "to"; "for";
   "of"; "with"; "by"].

(** [\b(the|a|an|and|or|but|in|on|at|to|for|of|with|by)\b] *)
Definition stop_word : regex := seqs [Wb; alts (map lit stop_words); Wb].

(** [\b[A-Za-z]{4,}\b] *)
Definition key_word : regex := seqs [Wb; Many (CUnion AZ az) 4; Wb].

End Patterns.

(** ** [hashlib.md5(data).hexdigest()]

    The MD5 algorithm on 32-bit words carried as [Z] with the wrap-around
    written out. *)

Module MD5.
Local Open Scope Z_scope.

Definition mask32 : Z := 4294967295.
Definition add32 (x y : Z) : Z := Z.land (x + y) mask32.
Definition not32 (x : Z) : Z := Z.lxor x mask32.
Definition rotl32 (x n : Z) : Z :=
  Z.land (Z.lor (Z.shiftl x n) (Z.shiftr x (32 - n))) mask32.

Definition shifts : list Z :=
  [7; 12; 17; 22; 7; 12; 17; 22; 7; 12; 17; 22; 7; 12; 17; 22;
   5; 9; 14; 20; 5; 9; 14; 20; 5; 9; 14; 20; 5; 9; 14; 20;
   4; 11; 16; 23; 4; 11; 16; 23; 4; 11; 16; 23; 4; 11; 16; 23;
   6; 10; 15; 21; 6; 10; 15; 21; 6; 10; 15; 21; 6; 10; 15; 21].

(** [floor(2^32 * abs(sin(i + 1)))] for [i = 0..63] *)
Definition sines : list Z :=
  [ 3614090360; 3905402710; 606105819; 3250441966; 4118548399; 1200080426;
    2821735955; 4249261313; 1770035416; 2336552879; 4294925233; 2304563134;
    1804603682; 4254626195; 2792965006; 1236535329; 4129170786; 3225465664;
    643717713; 3921069994; 3593408605; 38016083; 3634488961; 3889429448;
    568446438; 3275163606; 4107603335; 1163531501; 2850285829; 4243563512;
    1735328473; 2368359562; 4294588738; 2272392833; 1839030562; 4259657740;
    2763975236; 1272893353; 4139469664; 3200236656; 681279174; 3936430074;
    3572445317; 76029189; 3654602809; 3873151461; 530742520; 3299628645;
    4096336452; 1126891415; 2878612391; 4237533241; 1700485571; 2399980690;
    4293915773; 2240044497; 1873313359; 4264355552; 2734768916; 1309151649;
    4149444226; 3174756917; 718787259; 3951481745 ].

Record state : Type := State { sa : Z; sb : Z; sc : Z; sd : Z }.

Definition init : state :=
  State 1732584193 4023233417 2562383102 271733878.

Definition round_fun (i : nat) (b c d : Z) : Z :=
  if (i <? 16)%nat then Z.lor (Z.land b c) (Z.land (not32 b) d)
  else if (i <? 32)%nat then Z.lor (Z.land d b) (Z.land (not32 d) c)
  else if (i <? 48)%nat then Z.lxor b (Z.lxor c d)
  else Z.lxor c (Z.lor b (not32 d)).

Definition word_index (i : nat) : nat :=
  if (i <? 16)%nat then i
  else if (i <? 32)%nat then (5 * i + 1) mod 16
  else if (i <? 48)%nat then (3 * i + 5) mod 16
  else (7 * i) mod 16.

Definition step (m : list Z) (st : state) (i : nat) : state :=
  let f := round_fun i (sb st) (sc st) (sd st) in
  let f := add32 (add32 (add32 f (sa st)) (nth i sines 0)) (nth (word_index i) m 0) in
  State (sd st) (add32 (sb st) (rotl32 f (nth i shifts 0))) (sb st) (sc st).

(** Little-endian words of a block. *)
Fixpoint words (bs : list Z) : list Z :=
  match bs with
  | b0 :: b1 :: b2 :: b3 :: bs' =>
      (b0 + Z.shiftl b1 8 + Z.shiftl b2 16 + Z.shiftl b3 24) :: words bs'
  | _ => []
  end.

Definition block (st : state) (bs : list Z) : state :=
  let st' := fold_left (step (words bs)) (seq 0 64) st in
  State (add32 (sa st) (sa st')) (add32 (sb st) (sb st'))
        (add32 (sc st) (sc st')) (add32 (sd st) (sd st')).

Definition le_bytes (n : nat) (x : Z) : list Z :=
  map (fun k => Z.land (Z.shiftr x (8 * Z.of_nat k)) 255) (seq 0 n).

Definition pad (msg : list Z) : list Z :=
  let n := Z.of_nat (length msg) in
  msg ++ [128] ++ repeat 0 (Z.to_nat ((55 - n) mod 64)) ++ le_bytes 8 (8 * n).

Fixpoint blocks (fuel : nat) (st : state) (bs : list Z) : state :=
  match fuel, bs with
  | S fuel', _ :: _ => blocks fuel' (block st (take 64 bs)) (drop 64 bs)
  | _, _ => st
  end.

Definition hex_digit (x : Z) : ascii :=
  if x <? 10 then ascii_of_nat (48 + Z.to_nat x) else ascii_of_nat (87 + Z.to_nat x).

Definition hex_byte (x : Z) : list ascii :=
  [hex_digit (Z.shiftr x 4); hex_digit (Z.land x 15)].

Definition digest (msg : list Z) : list Z :=
  let p := pad msg in
  let st := blocks (length p) init p in
  flat_map (le_bytes 4) [sa st; sb st; sc st; sd st].

Definition hexdigest (msg : list Z) : string :=
  string_of_list_ascii (flat_map hex_byte (digest msg)).

End MD5.

(** ** [difflib.SequenceMatcher(None, a, b).ratio()]

    No junk function is given and [autojunk] keeps its default, so the only
    elements left out of the index [b2j] are the popular ones.
    [find_longest_match(alo, ahi, blo, bhi)] reads nothing of [a] and [b]
    outside the two ranges, so the model works on the slices [a[alo:ahi]]
    and [b[blo:bhi]] and returns positions relative to them. *)

Module Difflib.

Definition count (c : ascii) (b : list ascii) : nat :=
  length (filter (fun y => Ascii.eqb c y = true) b).

(** [__chain_b]: with [n = len(b) >= 200], an element occurring more than
    [n // 100 + 1] times is popular and is dropped from [b2j]. *)
Definition popular (b : list ascii) (c : ascii) : bool :=
  (200 <=? length b)%nat && (length b / 100 + 1 <? count c b)%nat.

(** A match [(i, j, k)]: [a[i:i+k] == b[j:j+k]]. *)
Definition block : Type := nat * nat * nat.

Definition size (m : block) : nat := snd m.

(** One pass of the inner loop, for the element [x = a[i]]: entry [j] of
    the row is [newj2len[j]], the length of the longest match ending with
    [a[i]] and [b[j]] (0 where the dictionary has no key); [diag] is
    [j2len.get(j - 1, 0)], and [indexed] says that [x] is a key of [b2j]. *)
Fixpoint row (indexed : bool) (x : ascii) (i j diag : nat)
    (b : list ascii) (old : list nat) (best : block) : list nat * block :=
  match b with
  | [] => ([], best)
  | y :: b' =>
      let k := if indexed && Ascii.eqb x y then S diag else 0%nat in
      let best' := if (size best <? k)%nat then (i + 1 - k, j + 1 - k, k)%nat else best in
      let '(r, bst) := row indexed x i (S j) (hd 0%nat old) b' (tl old) best' in
      (k :: r, bst)
  end.

Fixpoint rows (pop : ascii -> bool) (i : nat) (a b : list ascii)
    (old : list nat) (best : block) : block :=
  match a with
  | [] => best
  | x :: a' =>
      let '(new, best') := row (negb (pop x)) x i 0 0 b old best in
      rows pop (S i) a' b new best'
  end.

(** Length of the longest common prefix. *)
Fixpoint lcp (a b : list ascii) : nat :=
  match a, b with
  | x :: a', y :: b' => if Ascii.eqb x y then S (lcp a' b') else 0%nat
  | _, _ => 0%nat
  end.

(** The two loops that extend the match over equal (popular) elements on
    each side; the loops over junk never run, [bjunk] being empty. *)
Definition extend (a b : list ascii) (m : block) : block :=
  let '(i, j, k) := m in
  let n := lcp (rev (take i a)) (rev (take j b)) in
  let '(i, j, k) := (i - n, j - n, k + n)%nat in
  (i, j, k + lcp (drop (i + k) a) (drop (j + k) b))%nat.

Definition find_longest_match (pop : ascii -> bool) (a b : list ascii) : block :=
  extend a b (rows pop 0 a b [] (0, 0, 0)%nat).

(** [sum(triple[-1] for triple in get_matching_blocks())]: the queue of
    [get_matching_blocks] is a traversal of this recursion. *)
Fixpoint matches (fuel : nat) (pop : ascii -> bool) (a b : list ascii) : nat :=
  match fuel with
  | O => 0
  | S fuel' =>
      let '(i, j, k) := find_longest_match pop a b in
      if (k =? 0)%nat then 0%nat
      else
        (k
         + (if (0 <? i) && (0 <? j)
            then matches fuel' pop (take i a) (take j b) else 0)
         + (if (i + k <? length a) && (j + k <? length b)
            then matches fuel' pop (drop (i + k) a) (drop (j + k) b) else 0))%nat
  end.

Definition matching (a b : list ascii) : nat :=
  matches (S (length a)) (popular b) a b.

(** [_calculate_ratio(matches, length)] *)
Definition calculate_ratio (m len : nat) : Q :=
  match len with
  | O => 1%Q
  | S _ => Qmake (2 * Z.of_nat m) (Pos.of_nat len)
  end.

Definition ratio (a b : string) : Q :=
  let a := list_ascii_of_string a in
  let b := list_ascii_of_string b in
  calculate_ratio (matching a b) (length a + length b).

End Difflib.

(** ** [datetime] arithmetic

    Times are microsecond counts.  A [datetime] is its wall-clock reading
    and, when it is aware, its UTC offset. *)

Module Datetime.
Local Open Scope Z_scope.

Record datetime : Type := { wall : Z; utcoffset : option Z }.

Definition day : Z := 86400000000.
Definition hour : Z := 3600000000.

(** The instant of a clock reading, and the offset of the local zone. *)
Record clock : Type := { utc : Z; local_offset : Z }.

(** [datetime.now()] *)
Definition now (c : clock) : datetime :=
  {| wall := utc c + local_offset c; utcoffset := None |}.

(** [datetime.now(pytz.UTC)] *)
Definition now_utc (c : clock) : datetime :=
  {| wall := utc c; utcoffset := Some 0 |}.

(** [pytz.UTC.localize(d)] *)
Definition localize_utc (d : datetime) : datetime :=
  {| wall := wall d; utcoffset := Some 0 |}.

(** [d.replace(tzinfo=None)] *)
Definition naive (d : datetime) : datetime :=
  {| wall := wall d; utcoffset := None |}.

(** [d1 - d2], both aware or both naive: a [timedelta]. *)
Definition sub (d1 d2 : datetime) : Z :=
  (wall d1 - default 0 (utcoffset d1)) - (wall d2 - default 0 (utcoffset d2)).

(** [timedelta.days] *)
Definition days (td : Z) : Z := td / day.

End Datetime.

(** ** Built-ins on collections *)

Module Builtins.

Fixpoint insert_sorted (x : string) (xs : list string) : list string :=
  match xs with
  | [] => [x]
  | y :: ys => if String.leb x y then x :: xs else y :: insert_sorted x ys
  end.

(** [sorted(xs)] on strings *)
Definition sorted (xs : list string) : list string :=
  foldr insert_sorted [] xs.

(** [set(xs)], as the list of its distinct elements; the source only ever
    sorts or counts such a set, so the order kept here is never seen. *)
Definition set_of (xs : list string) : list string := remove_dups xs.

Definition union (xs ys : list string) : list string := remove_dups (xs ++ ys).

End Builtins.

(** ** The row of the [articles] table, as far as the pipeline reads it *)

Record Article : Type := {
  id : Z;
  title : string;
  content : option string;
  created_at : option Datetime.datetime
}.

(** [article.content or ""] *)
Definition content_or_empty (a : Article) : string := default "" (content a).

(** ** class [VolumeReducer] *)

(** The attributes that change after [__init__]. *)
Record VolumeReducer : Type := {
  recent_hashes : gset string;
  last_cache_cleanup : Datetime.datetime
}.

Definition similarity_threshold : Q := 8 # 10.
Definition min_content_length : nat := 150.
Definition hash_cache_expiry : Z := (24 * Datetime.hour)%Z.

(** [VolumeReducer()] *)
Definition new_VolumeReducer (c : Datetime.clock) : VolumeReducer :=
  {| recent_hashes := ∅; last_cache_cleanup := Datetime.now c |}.

Definition _normalize_text (text : string) : string :=
  if String.eqb text "" then ""
  else
    let text := Re.sub false Patterns.whitespace_run " " text in
    let text := Re.sub false Patterns.punctuation "" text in
    let text := Re.sub false Patterns.stop_word "" (Str.lower text) in
    Str.strip text.

Definition md5_hex (s : string) : string := MD5.hexdigest (Str.encode s).

Definition create_content_signature (title content : string) : string :=
  let normalized_title := _normalize_text title in
  let normalized_content := _normalize_text (Str.prefix 1000 content) in
  let combined := normalized_title +:+ "|" +:+ normalized_content in
  md5_hex combined.

Definition create_fuzzy_signature (title content : string) : string :=
  let title_words :=
    Builtins.set_of (Re.findall false Patterns.key_word (Str.lower title)) in
  let content_words :=
    Builtins.set_of (Re.findall false Patterns.key_word (Str.lower (Str.prefix 500 content))) in
  let key_words := take 10 (Builtins.sorted (Builtins.union title_words content_words)) in
  let signature := Str.join "|" (Builtins.sorted key_words) in
  md5_hex signature.

(** [any(re.search(p, text, re.IGNORECASE) for p in patterns)] *)
Definition any_pattern (patterns : list Re.regex) (text : string) : bool :=
  existsb (fun p => Re.search true p text) patterns.

(** Of the two [re.findall] calls below only the number of matches is used
    (with its group, the first returns the group of each match). *)
Definition is_wire_service_content (title content : string) : bool :=
  let full_text := title +:+ " " +:+ content in
  if any_pattern Patterns.wire_service_patterns full_text then true
  else
    let byline_count := length (Re.findall false Patterns.byline full_text) in
    if (2 <? byline_count)%nat then true else false.

Definition is_pr_content (title content : string) : bool :=
  let full_text := title +:+ " " +:+ content in
  if any_pattern Patterns.pr_patterns full_text then true
  else
    let company_mentions := length (Re.findall false Patterns.company content) in
    if (5 <? company_mentions)%nat then true else false.

(** The last test is [len(set(words)) < len(words) * 0.3]; both counts are
    integers, so the floating-point comparison holds exactly when
    [10 * len(set(words)) < 3 * len(words)]. *)
Definition is_low_value_content (title content : string) : bool :=
  if (Str.len (Str.strip content) <? min_content_length)%nat then true
  else
    let full_text := title +:+ " " +:+ content in
    if any_pattern Patterns.low_value_patterns full_text then true
    else
      let words := Str.split content in
      if (10 * length (Builtins.set_of words) <? 3 * length words)%nat then true
      else false.

Definition calculate_similarity (text1 text2 : string) : Q :=
  Difflib.ratio text1 text2.

Definition _is_filtered_url (url : string) : bool :=
  any_pattern Patterns.filtered_patterns url.

(** The test that makes the loop of [is_duplicate] skip an article. *)
Definition too_old (c : Datetime.clock) (article : Article) : bool :=
  match created_at article with
  | Some t =>
      let article_time :=
        match Datetime.utcoffset t with
        | None => Datetime.localize_utc t
        | Some _ => t
        end in
      let current_time := Datetime.now_utc c in
      (7 <? Datetime.days (Datetime.sub current_time article_time))%Z
  | None => false
  end.

(** The [for] loop of [is_duplicate]: the reason it returns with, or [None]
    when it runs to the end.  The similarity is a quotient of two integers
    far below [2^50], so comparing its floating-point value with the
    constant [0.8] is comparing the quotient with [4/5]. *)
Fixpoint scan_existing (c : Datetime.clock) (fuzzy_hash current_normalized : string)
    (existing_articles : list Article) : option string :=
  match existing_articles with
  | [] => None
  | article :: rest =>
      if too_old c article then scan_existing c fuzzy_hash current_normalized rest
      else
        let existing_fuzzy :=
          create_fuzzy_signature (title article) (content_or_empty article) in
        if String.eqb fuzzy_hash existing_fuzzy then Some "fuzzy_duplicate"
        else
          let existing_normalized :=
            _normalize_text
              (title article +:+ " " +:+ Str.prefix 500 (content_or_empty article)) in
          let similarity := calculate_similarity current_normalized existing_normalized in
          if Qle_bool similarity_threshold similarity then Some "similar_content"
          else scan_existing c fuzzy_hash current_normalized rest
  end.

Definition is_duplicate (self : VolumeReducer) (c : Datetime.clock)
    (title content : string) (existing_articles : list Article)
    : (bool * option string) * VolumeReducer :=
  let content_hash := create_content_signature title content in
  if decide (content_hash ∈ recent_hashes self) then
    ((true, Some "exact_duplicate"), self)
  else
    let fuzzy_hash := create_fuzzy_signature title content in
    let current_normalized := _normalize_text (title +:+ " " +:+ Str.prefix 500 content) in
    match scan_existing c fuzzy_hash current_normalized existing_articles with
    | Some reason => ((true, Some reason), self)
    | None =>
        ((false, None),
         {| recent_hashes := {[content_hash]} ∪ recent_hashes self;
            last_cache_cleanup := last_cache_cleanup self |})
    end.

(** [f"duplicate_{dup_type}"] *)
Definition duplicate_reason (dup_type : option string) : string :=
  "duplicate_" +:+ default "None" dup_type.

(** [existing_articles] is [None] (the default), or a list; the test
    [if existing_articles:] passes for a list that is not empty. *)
Definition should_process_article (self : VolumeReducer) (c : Datetime.clock)
    (title content url : string) (existing_articles : option (list Article))
    : (bool * list string) * VolumeReducer :=
  let rejection_reasons := [] in
  let rejection_reasons :=
    if is_low_value_content title content
    then rejection_reasons ++ ["low_value_content"] else rejection_reasons in
  let rejection_reasons :=
    if is_wire_service_content title content
    then rejection_reasons ++ ["wire_service"] else rejection_reasons in
  let rejection_reasons :=
    if is_pr_content title content
    then rejection_reasons ++ ["pr_content"] else rejection_reasons in
  let '(rejection_reasons, self) :=
    match existing_articles with
    | Some ((_ :: _) as arts) =>
        let '((is_dup, dup_type), self') := is_duplicate self c title content arts in
        if is_dup
        then (rejection_reasons ++ [duplicate_reason dup_type], self')
        else (rejection_reasons, self')
    | _ => (rejection_reasons, self)
    end in
  let rejection_reasons :=
    if _is_filtered_url url
    then rejection_reasons ++ ["filtered_url"] else rejection_reasons in
  let should_process := (length rejection_reasons =? 0)%nat in
  ((should_process, rejection_reasons), self).

Definition cleanup_cache (self : VolumeReducer) (c : Datetime.clock) : VolumeReducer :=
  let current_time := Datetime.now c in
  if (hash_cache_expiry <? Datetime.sub current_time (last_cache_cleanup self))%Z
  then {| recent_hashes := ∅; last_cache_cleanup := current_time |}
  else self.

(** ** [filter_articles_batch] *)

(** An entry of the batch: a dictionary, of which the pipeline reads the
    keys [title], [content] and [url]. *)
Definition article_data : Type := gmap string string.

(** [d.get(key, '')] *)
Definition get (d : article_data) (key : string) : string := default "" (d !! key).

(** The session, as the answer of the one query made on it: the rows with
    [created_at >= cutoff_date]. *)
Definition Session : Type := Datetime.datetime -> list Article.

Definition initial_stats (total_input : Z) : gmap string Z :=
  <["total_input" := total_input]>
  (<["total_filtered" := 0%Z]>
  (<["low_value_content" := 0%Z]>
  (<["wire_service" := 0%Z]>
  (<["pr_content" := 0%Z]>
  (<["duplicate_exact_duplicate" := 0%Z]>
  (<["duplicate_fuzzy_duplicate" := 0%Z]>
  (<["duplicate_similar_content" := 0%Z]>
  (<["filtered_url" := 0%Z]>
  (<["processed" := 0%Z]> ∅))))))))).

(** [stats[key] += 1] for a key that is present, and
    [stats[key] = stats.get(key, 0) + 1]. *)
Definition bump (key : string) (stats : gmap string Z) : gmap string Z :=
  <[key := (default 0 (stats !! key) + 1)%Z]> stats.

(** The state of the [for] loop over the batch. *)
Record batch_state : Type := {
  reducer : VolumeReducer;
  filtered_articles : list article_data;
  rejection_stats : gmap string Z
}.

Definition batch_step (c : Datetime.clock) (recent_articles : list Article)
    (st : batch_state) (entry : article_data) : batch_state :=
  let title := get entry "title" in
  let content := get entry "content" in
  let url := get entry "url" in
  let '((should_process, reasons), reducer') :=
    should_process_article (reducer st) c title content url (Some recent_articles) in
  if should_process then
    {| reducer := reducer';
       filtered_articles := filtered_articles st ++ [entry];
       rejection_stats := bump "processed" (rejection_stats st) |}
  else
    {| reducer := reducer';
       filtered_articles := filtered_articles st;
       rejection_stats :=
         foldl (fun stats reason => bump reason stats)
               (bump "total_filtered" (rejection_stats st)) reasons |}.

(** [datetime.now(pytz.UTC) - timedelta(days=max_lookback_days)], then
    [.replace(tzinfo=None)] *)
Definition cutoff_date (c : Datetime.clock) (max_lookback_days : Z) : Datetime.datetime :=
  let cutoff_date :=
    {| Datetime.wall := (Datetime.wall (Datetime.now_utc c)
                         - max_lookback_days * Datetime.day)%Z;
       Datetime.utcoffset := Some 0%Z |} in
  Datetime.naive cutoff_date.

(** The global [volume_reducer] is passed in and handed back. *)
Definition filter_articles_batch (volume_reducer : VolumeReducer)
    (c : Datetime.clock) (articles : list article_data) (db : Session)
    (max_lookback_days : Z)
    : (list article_data * gmap string Z) * VolumeReducer :=
  let reducer0 := cleanup_cache volume_reducer c in
  let recent_articles := db (cutoff_date c max_lookback_days) in
  let st :=
    foldl (batch_step c recent_articles)
          {| reducer := reducer0;
             filtered_articles := [];
             rejection_stats := initial_stats (Z.of_nat (length articles)) |}
          articles in
  ((filtered_articles st, rejection_stats st), reducer st).

(** ** Vocabulary of the statements *)

(** The two components of a verdict. *)
Definition accept {S : Type} (r : (bool * list string) * S) : bool := fst (fst r).
Definition reasons {S : Type} (r : (bool * list string) * S) : list string := snd (fst r).

Definition duplicate_reasons : list string :=
  ["duplicate_exact_duplicate"; "duplicate_fuzzy_duplicate"; "duplicate_similar_content"].

Definition flag (b : bool) (reason : string) : list string :=
  if b then [reason] else [].

(** What step 4 of [should_process_article] adds to the reasons, and the
    state it leaves. *)
Definition duplicate_step (self : VolumeReducer) (c : Datetime.clock)
    (title content : string) (existing_articles : option (list Article))
    : list string * VolumeReducer :=
  match existing_articles with
  | Some ((_ :: _) as arts) =>
      let r := is_duplicate self c title content arts in
      (if fst (fst r) then [duplicate_reason (snd (fst r))] else [], snd r)
  | _ => ([], self)
  end.

(** The tests of the loop of [is_duplicate], for a candidate and a window
    item. *)
Definition fuzzy_matches (t body : string) (a : Article) : bool :=
  String.eqb (create_fuzzy_signature t body)
             (create_fuzzy_signature (title a) (content_or_empty a)).

Definition comparison_text (t body : string) : string :=
  _normalize_text (t +:+ " " +:+ Str.prefix 500 body).

Definition similar_enough (t body : string) (a : Article) : bool :=
  Qle_bool similarity_threshold
    (calculate_similarity (comparison_text t body)
       (comparison_text (title a) (content_or_empty a))).

(** A window item decides the scan: it is not skipped as too old, and one
    of the two tests passes. *)
Definition item_hits (c : Datetime.clock) (t body : string) (a : Article) : bool :=
  negb (too_old c a) && (fuzzy_matches t body a || similar_enough t body a).

(** The age of an article at a clock reading, creation times without a zone
    being read as UTC. *)
Definition age (c : Datetime.clock) (created : Datetime.datetime) : Z :=
  (Datetime.utc c - (Datetime.wall created - default 0 (Datetime.utcoffset created)))%Z.

(** A matching block lies inside two sequences of these lengths. *)
Definition fits (la lb : nat) (m : Difflib.block) : Prop :=
  (fst (fst m) + snd m ≤ la ∧ snd (fst m) + snd m ≤ lb)%nat.

(** The entries of a row of the table of [find_longest_match], from column
    [j] on, for matches that end with one of the first [i] elements of [a]. *)
Definition row_bounded (i j : nat) (r : list nat) : Prop :=
  ∀ n, (nth n r 0 ≤ i ∧ nth n r 0 ≤ j + n + 1)%nat.

Definition known_reasons : list string :=
  ["low_value_content"; "wire_service"; "pr_content"; "duplicate_exact_duplicate";
   "duplicate_fuzzy_duplicate"; "duplicate_similar_content"; "filtered_url"].

(** ** Direct descriptions of the substitutions of [_normalize_text] *)

Module Text.

(** How many leading characters satisfy [p]. *)
Fixpoint lead (p : ascii -> bool) (s : list ascii) : nat :=
  match s with
  | c :: s' => if p c then S (lead p s') else 0%nat
  | [] => 0%nat
  end.

(** Every run of spaces becomes one blank; [in_run] says that the
    character before was a space. *)
Fixpoint collapse (in_run : bool) (s : list ascii) : list ascii :=
  match s with
  | [] => []
  | c :: s' =>
      if Chars.is_space c
      then if in_run then collapse true s' else " "%char :: collapse true s'
      else c :: collapse false s'
  end.

(** A text cut into its maximal runs of word characters and the single
    characters between them. *)
Inductive token : Type :=
| Word (w : list ascii)
| Sep (c : ascii).

Fixpoint tokens (s : list ascii) : list token :=
  match s with
  | [] => []
  | c :: s' =>
      if Chars.is_word c
      then match tokens s' with
           | Word w :: ts => Word (c :: w) :: ts
           | ts => Word [c] :: ts
           end
      else Sep c :: tokens s'
  end.

Definition text_of (t : token) : list ascii :=
  match t with Word w => w | Sep c => [c] end.

Definition untok (ts : list token) : list ascii := flat_map text_of ts.

(** The text left after the prefix [w], when [s] starts with [w]. *)
Fixpoint after (w s : list ascii) : option (list ascii) :=
  match w, s with
  | [], _ => Some s
  | c :: w', t :: s' => if Ascii.eqb t c then after w' s' else None
  | _ :: _, [] => None
  end.

(** The ways a literal can match at a position. *)
Definition candidate (prev : option ascii) (s w : list ascii) : list Re.pos :=
  match w with
  | [] => [(prev, s)]
  | c :: w' =>
      match after w s with
      | Some rest => [(Some (List.last w' c), rest)]
      | None => []
      end
  end.

Definition stop_list : list (list ascii) := map list_ascii_of_string Patterns.stop_words.

Definition keep (t : token) : bool :=
  match t with Word w => bool_decide (w ∉ stop_list) | Sep _ => true end.

Definition word_of (t : token) : option (list ascii) :=
  match t with Word w => Some w | Sep _ => None end.

(** The word a token list starts with, and all its words. *)
Definition head_word (ts : list token) : option (list ascii) := head ts ≫= word_of.
Definition words_of (ts : list token) : list (list ascii) := omap word_of ts.

(** Token lists that are the tokens of a text. *)
Fixpoint well_formed (ts : list token) : Prop :=
  match ts with
  | [] => True
  | Sep c :: ts' => Chars.is_word c = false ∧ well_formed ts'
  | Word w :: ts' =>
      w ≠ [] ∧ forallb Chars.is_word w = true ∧ head_word ts' = None ∧ well_formed ts'
  end.

(** The text does not start with a space. *)
Definition no_lead (s : list ascii) : Prop :=
  match s with c :: _ => Chars.is_space c = false | [] => True end.

(** A lower-case word character or a blank. *)
Definition plain (c : ascii) : Prop :=
  (Chars.is_word c = true ∨ c = " "%char) ∧ Chars.lower c = c.

(** The stop words taken out, as a text again. *)
Definition drop_stop_words (s : list ascii) : list ascii :=
  untok (filter (λ t, keep t = true) (tokens s)).

(** The list of characters that [_normalize_text] computes. *)
Definition normalize (s : list ascii) : list ascii :=
  match s with
  | [] => []
  | _ =>
      let s := Re.sub_go false Patterns.whitespace_run [" "%char] 0 None s in
      let s := Re.sub_go false Patterns.punctuation [] 0 None s in
      let s := Re.sub_go false Patterns.stop_word [] 0 None (Str.lower_chars s) in
      Str.strip_chars s
  end.

(** The texts that [normalize] returns. *)
Record normal (r : list ascii) : Prop := {
  normal_plain : Forall plain r;
  normal_words : Forall (λ t, keep t = true) (tokens r);
  normal_head : no_lead r;
  normal_last : no_lead (rev r)
}.

End Text.

(** ** Sample data *)

Module Sample.
Local Open Scope Z_scope.

Definition noon : Datetime.clock :=
  {| Datetime.utc := 1700000000000000; Datetime.local_offset := 0 |}.

(** An aware creation time so many days and hours before [noon]. *)
Definition ago (days hours : Z) : Datetime.datetime :=
  {| Datetime.wall := Datetime.utc noon - days * Datetime.day - hours * Datetime.hour;
     Datetime.utcoffset := Some 0 |}.

Definition fresh : VolumeReducer := new_VolumeReducer noon.

(** An engine whose cache holds one digest, of some other text. *)
Definition other_cache : VolumeReducer :=
  {| recent_hashes := {["d41d8cd98f00b204e9800998ecf8427e"]};
     last_cache_cleanup := last_cache_cleanup fresh |}.

Definition story_title : string := "Manufacturing output climbs".
Definition story_body : string :=
  "Quarterly growth figures surprised analysts as manufacturing output climbed steadily across several regions, while exporters reported stronger demand from overseas buyers and improving logistics conditions nationwide.".
Definition story_url : string := "https://example.com/economy/manufacturing-output".

Definition story : article_data :=
  <["title" := story_title]> (<["content" := story_body]> (<["url" := story_url]> ∅)).

Definition library_story : Article :=
  {| id := 1;
     title := "Council approves new library budget";
     content := Some "The city council voted on Tuesday to approve funding for a new public library.";
     created_at := Some (ago 2 0) |}.

Definition highway_title : string := "Storm closes coastal highway".

(** Close to [highway_title] letter by letter, with another key-word set. *)
Definition highways_story : Article :=
  {| id := 2; title := "Storm closes coastal highways"; content := None;
     created_at := Some (ago 1 0) |}.

(** The key words of [highway_title] in another order. *)
Definition reworded_story (created : option Datetime.datetime) : Article :=
  {| id := 3; title := "Coastal highway: storm closes"; content := Some "";
     created_at := created |}.

(** Twenty-five hours after [noon]. *)
Definition next_day : Datetime.clock :=
  {| Datetime.utc := Datetime.utc noon + 25 * Datetime.hour;
     Datetime.local_offset := 0 |}.

(** A title made of one stop word, which is also a key word. *)
Definition with_story : Article :=
  {| id := 5; title := "With"; content := None; created_at := None |}.


Definition library_db : Session := fun _ => [library_story].

End Sample.

(** ** Further vocabulary: texts *)

(** Substrings. *)
Module Substring.
(** [w in s] *)
Fixpoint contains_chars (w s : list ascii) : bool :=
  match Text.after w s with
  | Some _ => true
  | None => match s with [] => false | _ :: s' => contains_chars w s' end
  end.
Definition contains (w s : string) : bool :=
  contains_chars (Str.chars w) (Str.chars s).
End Substring.

(** The path segments of [_is_filtered_url], as plain texts. *)
Definition url_segments : list string :=
  ["/press-release/"; "/pr/"; "/advertisement/"; "/sponsored/"; "/jobs/";
   "/careers/"; "/obituary/"; "/weather/"; "/sports-scores/"; "/stock-prices/"].

(** The phrases that the tables hold as plain text. *)
Definition wire_phrases : list string :=
  ["(Reuters)"; "(AP)"; "(AFP)"; "(Bloomberg)"; "Press Trust of India"; "(IANS)";
   "(PTI)"; "News agencies"; "Wire services"].

Definition pr_phrases : list string :=
  ["press release"; "FOR IMMEDIATE RELEASE"; "Business Wire"; "PR Newswire"; "PRWeb";
   "Media Contact:"; "This is a sponsored"; "Paid advertisement"].

Definition low_value_phrases : list string :=
  ["More details to follow"; "This is a developing story"; "Story will be updated";
   "No additional details"; "Developing..."].

(** [phrase.lower() in text.lower()] *)
Definition mentions (text phrase : string) : bool :=
  Substring.contains (Str.lower phrase) (Str.lower text).

(** A piece of a pattern with gaps. *)
Inductive piece : Type :=
| Phrase (w : string)         (* the text [w], letter case ignored *)
| SameLine                    (* [.*]: any characters but a line feed *)
| Blanks                      (* [\s*] *)
| Blank.                      (* [\s] *)

Definition piece_regex (p : piece) : Re.regex :=
  match p with
  | Phrase w => Re.lit w
  | SameLine => Patterns.dot_star
  | Blanks => Patterns.spaces0
  | Blank => Re.One Re.CSpace
  end.

Definition gapped (ps : list piece) : Re.regex := Re.seqs (piece_regex <$> ps).

(** The patterns of the tables that have gaps, and no anchor. *)
Definition wire_gapped : list (list piece) :=
  [ [Phrase "PTI"; Blanks; Phrase "-"];
    [Phrase "ANI"; Blanks; Phrase "-"];
    [Phrase "IANS"; Blanks; Phrase "-"];
    [Phrase "UNI"; Blanks; Phrase "-"];
    [Phrase "Courtesy:"; SameLine; Phrase "Reuters"];
    [Phrase "Source:"; SameLine; Phrase "AP"; Blank] ].

Definition pr_gapped : list (list piece) :=
  [ [Phrase "Contact:"; SameLine; Phrase "@"; SameLine; Phrase "."];
    [Phrase "For more information"; SameLine; Phrase "visit"];
    [Phrase "Disclaimer:"; SameLine; Phrase "investment"] ].

(** The text [x] is an instance of the piece. *)
Definition instance (p : piece) (x : list ascii) : Prop :=
  match p with
  | Phrase w => Str.lower_chars x = Str.lower_chars (Str.chars w)
  | SameLine => Chars.newline ∉ x
  | Blanks => Forall (λ c, Chars.is_space c = true) x
  | Blank => ∃ c, x = [c] ∧ Chars.is_space c = true
  end.

(** The text [m] is made of an instance of each piece, in this order. *)
Fixpoint spells (ps : list piece) (m : list ascii) : Prop :=
  match ps with
  | [] => m = []
  | p :: ps' => ∃ x rest, m = x ++ rest ∧ instance p x ∧ spells ps' rest
  end.

(** The key words that [create_fuzzy_signature] finds in the title and in the
    first 500 characters of the content, in the order of the text. *)
Definition key_words (t body : string) : list string :=
  Re.findall false Patterns.key_word (Str.lower t)
  ++ Re.findall false Patterns.key_word (Str.lower (Str.prefix 500 body)).

(** The order of [sorted] on strings. *)
Definition str_le (x y : string) : Prop := String.leb x y = true.

Module KeyWords.
Import Text.

(** An unaccented letter, the class [[A-Za-z]]. *)
Definition is_letter (c : ascii) : bool :=
  Chars.between 65 90 c || Chars.between 97 122 c.

(** A word that counts as a key word: four letters or more, letters only. *)
Definition is_key_word (w : list ascii) : bool :=
  (4 <=? length w)%nat && forallb is_letter w.

(** The key words of a text, in the order of the text. *)
Definition key_words_of (s : list ascii) : list (list ascii) :=
  filter (λ w, is_key_word w = true) (words_of (tokens s)).

End KeyWords.

(** ** Further vocabulary: verdicts and batches *)

(** The exact signature of a batch entry. *)
Definition entry_signature (e : article_data) : string :=
  create_content_signature (get e "title") (get e "content").

(** The four tests of [should_process_article] that read nothing but the
    item: all of them pass. *)
Definition passes_filters (t body url : string) : bool :=
  negb (is_low_value_content t body) && negb (is_wire_service_content t body)
  && negb (is_pr_content t body) && negb (_is_filtered_url url).

Definition entry_passes_filters (e : article_data) : bool :=
  passes_filters (get e "title") (get e "content") (get e "url").

(** No item of the window decides the scan for this entry. *)
Definition no_window_hit (c : Datetime.clock) (w : list Article) (e : article_data) : Prop :=
  Forall (λ a, item_hits c (get e "title") (get e "content") a = false) w.

(** The reasons that do not depend on the window or on the cache. *)
Definition own_reasons (t body url : string) : list string :=
  flag (is_low_value_content t body) "low_value_content"
  ++ flag (is_wire_service_content t body) "wire_service"
  ++ flag (is_pr_content t body) "pr_content"
  ++ flag (_is_filtered_url url) "filtered_url".

(** The keys of [rejection_stats], in the order of the dictionary. *)
Definition stat_keys : list string :=
  ["total_input"; "total_filtered"; "low_value_content"; "wire_service"; "pr_content";
   "duplicate_exact_duplicate"; "duplicate_fuzzy_duplicate"; "duplicate_similar_content";
   "filtered_url"; "processed"].

(** [sum(stats.get(k, 0) for k in keys)] *)
Definition sum_over (keys : list string) (stats : gmap string Z) : Z :=
  foldr (λ k acc, default 0 (stats !! k) + acc)%Z 0%Z keys.

(** The invariant of the statistics: the ten keys; no reason counted more
    often than an item was filtered; every filtered item counted under one
    reason at least, and under five at most. *)
Definition breakdown_ok (stats : gmap string Z) : Prop :=
  dom stats = list_to_set stat_keys
  ∧ ∃ total_filtered,
      stats !! "total_filtered" = Some total_filtered
      ∧ (0 <= total_filtered)%Z
      ∧ Forall (λ k, (0 <= default 0 (stats !! k) <= total_filtered)%Z) known_reasons
      ∧ (total_filtered <= sum_over known_reasons stats <= 5 * total_filtered)%Z.

(** ** [VolumeReducer.get_filtering_stats] *)

(** A value of the dictionary that [get_filtering_stats] returns. *)
Inductive number : Type :=
| Int (n : Z)
| Float (q : Q).

Definition get_filtering_stats (self : VolumeReducer) : gmap string number :=
  <["cache_size" := Int (Z.of_nat (size (recent_hashes self)))]>
  (<["similarity_threshold" := Float similarity_threshold]>
  (<["min_content_length" := Int (Z.of_nat min_content_length)]>
  (<["wire_patterns" := Int (Z.of_nat (length Patterns.wire_service_patterns))]>
  (<["pr_patterns" := Int (Z.of_nat (length Patterns.pr_patterns))]>
  (<["low_value_patterns" := Int (Z.of_nat (length Patterns.low_value_patterns))]> ∅))))).

(** ** [app/filtered_pipeline.py]: the handlers that run the filter

    The handlers are modelled from the validated entries on, and as far as
    they read or write the two module-level objects, the dictionary
    [filtering_stats] and the engine; storing the accepted articles and
    queueing their analysis are outside the model. *)

Module Pipeline.

(** A validated entry of a webhook, as far as the handlers read it; [url]
    is the text [str(entry.url)]. *)
Record MinifluxEntry : Type := {
  entry_id : Z;
  entry_title : string;
  entry_url : string;
  entry_content : option string
}.

(** An entry of [recent_batches]. *)
Record batch_stats : Type := {
  timestamp : string;
  input : Z;
  filtered : Z;
  processed : Z;
  reduction_pct : Q
}.

(** The module-level dictionary [filtering_stats]. *)
Record filtering_stats : Type := {
  session_total : Z;
  session_filtered : Z;
  session_processed : Z;
  recent_batches : list batch_stats
}.

Definition initial_filtering_stats : filtering_stats :=
  {| session_total := 0; session_filtered := 0; session_processed := 0;
     recent_batches := [] |}.

(** The two module-level objects that the handlers update. *)
Record service : Type := {
  stats : filtering_stats;
  engine : VolumeReducer
}.

(** [xs[-n:]] for a positive [n] *)
Definition last_n {A : Type} (n : nat) (xs : list A) : list A :=
  drop (length xs - n) xs.

(** [{k: v for k, v in filter_stats.items()
      if k not in ["total_input", "total_filtered", "processed"] and v > 0}] *)
Definition filter_breakdown (filter_stats : gmap string Z) : gmap string Z :=
  filter (λ kv, (kv.1 ∉ ["total_input"; "total_filtered"; "processed"]) ∧ (0 < kv.2)%Z)
         filter_stats.

(** Of the dictionary that [filtered_webhook_handler] builds for an entry,
    the three keys that [filter_articles_batch] reads. *)
Definition webhook_article_data (entry : MinifluxEntry) : article_data :=
  <["title" := entry_title entry]>
  (<["content" := default "" (entry_content entry)]>
  (<["url" := entry_url entry]> ∅)).

(** A value of the dictionaries of [test_filter_endpoint]. *)
Inductive value : Type :=
| VInt (n : Z)
| VStr (s : string).

(** The dictionary that [test_filter_endpoint] builds for an entry. *)
Definition test_article_data (entry : MinifluxEntry) : gmap string value :=
  <["id" := VInt (entry_id entry)]>
  (<["title" := VStr (entry_title entry)]>
  (<["content" := VStr (default "" (entry_content entry))]>
  (<["url" := VStr (entry_url entry)]> ∅))).

(** The texts of such a dictionary: what [d.get(key, '')] finds in it for
    a key that holds a text. *)
Definition texts (d : gmap string value) : article_data :=
  omap (λ v, match v with VStr s => Some s | VInt _ => None end) d.

(** [d[key]], a text; [None] stands for an exception. *)
Definition text_at (d : gmap string value) (key : string) : option string :=
  match d !! key with
  | Some (VStr s) => Some s
  | _ => None
  end.

(** An entry of [test_results]. *)
Record test_result : Type := {
  result_id : value;
  result_title : string;
  will_process : bool;
  filter_reasons : list string
}.

(** One turn of the second loop of [test_filter_endpoint]. *)
Definition test_one (reducer : VolumeReducer) (c : Datetime.clock)
    (article_data : gmap string value) : option (test_result * VolumeReducer) :=
  title ← text_at article_data "title";
  content ← text_at article_data "content";
  url ← text_at article_data "url";
  let '((should_process, reasons), reducer') :=
    should_process_article reducer c title content url None in
  id ← article_data !! "id";
  Some ({| result_id := id;
           result_title := Str.prefix 60 title +:+ "...";
           will_process := should_process;
           filter_reasons := if should_process then [] else reasons |},
        reducer').

Fixpoint test_all (reducer : VolumeReducer) (c : Datetime.clock)
    (dicts : list (gmap string value)) : option (list test_result * VolumeReducer) :=
  match dicts with
  | [] => Some ([], reducer)
  | article_data :: rest =>
      '(result, reducer') ← test_one reducer c article_data;
      '(results, reducer'') ← test_all reducer' c rest;
      Some (result :: results, reducer'')
  end.

(** The answer of [test_filter_endpoint]. *)
Record test_report : Type := {
  test_results : list test_result;
  total_articles : nat;
  would_filter : Z;
  would_process : Z;
  reduction_text : string;
  breakdown : gmap string Z
}.

Inductive test_answer : Type :=
| NoEntries
| Report (r : test_report).

(** The answer of [get_filtering_statistics]. *)
Record statistics : Type := {
  total_input : Z;
  total_filtered : Z;
  total_processed : Z;
  reduction_percentage : Q;
  filter_config : gmap string number;
  shown_batches : list batch_stats
}.

(** A request to one of the two handlers that run the filter, with the
    clock reading, the validated entries and the state of the database it
    finds. *)
Inductive request : Type :=
| Webhook (c : Datetime.clock) (entries : list MinifluxEntry) (db : Session)
| TestFilter (c : Datetime.clock) (entries : list MinifluxEntry) (db : Session).

Section Handlers.

(** Three library computations are parameters: the text of a timestamp,
    [datetime.isoformat()]; the floating-point value
    [round((a / b) * 100, 1)] for integers [a] and [b > 0]; and the text of a
    floating-point number in an f-string. *)
Variable isoformat : Datetime.datetime → string.
Variable round_percent : Z → Z → Q.
Variable format_float : Q → string.

(** [round((filter_stats["total_filtered"] / filter_stats["total_input"]) * 100, 1)
     if filter_stats["total_input"] > 0 else 0]; the result says whether
    it is the integer of the second branch. *)
Definition reduction (filter_stats : gmap string Z) : option (option Q) :=
  total_input ← filter_stats !! "total_input";
  if (0 <? total_input)%Z
  then total_filtered ← filter_stats !! "total_filtered";
       Some (Some (round_percent total_filtered total_input))
  else Some None.

(** The statements of [filtered_webhook_handler] that update
    [filtering_stats] from the statistics of the batch. *)
Definition record_batch (fs : filtering_stats) (c : Datetime.clock)
    (filter_stats : gmap string Z) : option filtering_stats :=
  total_input ← filter_stats !! "total_input";
  total_filtered ← filter_stats !! "total_filtered";
  total_processed ← filter_stats !! "processed";
  pct ← reduction filter_stats;
  let batch :=
    {| timestamp := isoformat (Datetime.now c);
       input := total_input;
       filtered := total_filtered;
       processed := total_processed;
       reduction_pct := default 0%Q pct |} in
  let batches := recent_batches fs ++ [batch] in
  Some {| session_total := (session_total fs + total_input)%Z;
          session_filtered := (session_filtered fs + total_filtered)%Z;
          session_processed := (session_processed fs + total_processed)%Z;
          recent_batches :=
            if (20 <? length batches)%nat then last_n 20 batches else batches |}.

(** What [filtered_webhook_handler] does to the two module-level objects;
    without entries it returns at once. *)
Definition filtered_webhook_handler (s : service) (c : Datetime.clock)
    (entries : list MinifluxEntry) (db : Session) : option service :=
  match entries with
  | [] => Some s
  | _ =>
      let article_data := webhook_article_data <$> entries in
      let '((_, filter_stats), engine') :=
        filter_articles_batch (engine s) c article_data db 7 in
      fs ← record_batch (stats s) c filter_stats;
      Some {| stats := fs; engine := engine' |}
  end.

(** [test_filter_endpoint]: its answer and the engine it leaves; without
    entries it returns at once.  The second loop, [for article_data in
    article_data], rebinds the name of the list: after it [article_data] is
    the last dictionary of the list, which is not empty here.  [None] stands
    for an exception. *)
Definition test_filter_endpoint (reducer : VolumeReducer) (c : Datetime.clock)
    (entries : list MinifluxEntry) (db : Session)
    : option (test_answer * VolumeReducer) :=
  match entries with
  | [] => Some (NoEntries, reducer)
  | _ =>
      let article_data := test_article_data <$> entries in
      let '((_, filter_stats), reducer) :=
        filter_articles_batch reducer c (texts <$> article_data) db 7 in
      '(results, reducer) ← test_all reducer c article_data;
      article_data ← last article_data;
      pct ← reduction filter_stats;
      total_filtered ← filter_stats !! "total_filtered";
      total_processed ← filter_stats !! "processed";
      Some (Report
              {| test_results := results;
                 total_articles := size article_data;
                 would_filter := total_filtered;
                 would_process := total_processed;
                 reduction_text :=
                   match pct with Some x => format_float x | None => "0" end +:+ "%";
                 breakdown := filter_stats |},
            reducer)
  end.

Definition get_filtering_statistics (s : service) : statistics :=
  let total_input := session_total (stats s) in
  let total_filtered := session_filtered (stats s) in
  {| total_input := total_input;
     total_filtered := total_filtered;
     total_processed := session_processed (stats s);
     reduction_percentage :=
       if (0 <? total_input)%Z then round_percent total_filtered total_input else 0%Q;
     filter_config := get_filtering_stats (engine s);
     shown_batches := last_n 10 (recent_batches (stats s)) |}.

Definition handle (s : service) (r : request) : option service :=
  match r with
  | Webhook c entries db => filtered_webhook_handler s c entries db
  | TestFilter c entries db =>
      '(_, reducer) ← test_filter_endpoint (engine s) c entries db;
      Some {| stats := stats s; engine := reducer |}
  end.

(** A sequence of requests. *)
Definition run (s : service) (requests : list request) : option service :=
  foldl (λ os r, s ← os; handle s r) (Some s) requests.

End Handlers.

(** The entries that the webhooks of a sequence of requests carry. *)
Definition webhook_entries (r : request) : list MinifluxEntry :=
  match r with
  | Webhook _ entries _ => entries
  | TestFilter _ _ _ => []
  end.

End Pipeline.

(** The invariant of the session counters, after [calls] batches with [n]
    entries in all. *)
Definition accounted (n : Z) (calls : nat) (fs : Pipeline.filtering_stats) : Prop :=
  Pipeline.session_total fs = n
  ∧ Pipeline.session_total fs
    = (Pipeline.session_filtered fs + Pipeline.session_processed fs)%Z
  ∧ length (Pipeline.recent_batches fs) = Nat.min 20 calls
  ∧ Forall (λ b, Pipeline.input b = (Pipeline.filtered b + Pipeline.processed b)%Z
                 ∧ (0 <= Pipeline.filtered b)%Z ∧ (0 <= Pipeline.processed b)%Z)
      (Pipeline.recent_batches fs).

(** The entry of [test_results] for an entry of the request. *)
Definition result_of (entry : Pipeline.MinifluxEntry) : Pipeline.test_result :=
  let content := default "" (Pipeline.entry_content entry) in
  let ok := passes_filters (Pipeline.entry_title entry) content (Pipeline.entry_url entry) in
  {| Pipeline.result_id := Pipeline.VInt (Pipeline.entry_id entry);
     Pipeline.result_title := Str.prefix 60 (Pipeline.entry_title entry) +:+ "...";
     Pipeline.will_process := ok;
     Pipeline.filter_reasons :=
       if ok then []
       else own_reasons (Pipeline.entry_title entry) content (Pipeline.entry_url entry) |}.

(** ** Further sample data *)

Module Cases.
Local Open Scope Z_scope.

(** [highway_title] in capitals. *)
Definition shouted_title : string := "STORM CLOSES COASTAL HIGHWAY".

(** A text of 1200 characters. *)
Definition long_body : string :=
  Str.of_chars (concat (replicate 25 (Str.chars "Regional planners reviewed forty two proposals. "))).

(** [story] with the last word of its body replaced; the first ten key
    words are those of [story]. *)
Definition story_variant : article_data :=
  <["title" := Sample.story_title]>
  (<["content" := "Quarterly growth figures surprised analysts as manufacturing output climbed steadily across several regions, while exporters reported stronger demand from overseas buyers and improving logistics conditions worldwide."]>
  (<["url" := Sample.story_url]> ∅)).

(** The row that [story] becomes once it is stored. *)
Definition stored_story : Article :=
  {| id := 7; title := Sample.story_title; content := Some Sample.story_body;
     created_at := Some (Sample.ago 0 1) |}.

Definition tractor_title : string := "Acme unveils new tractor".
Definition tractor_body : string :=
  "In a press release issued on Monday the company said the new tractor line would reach dealers across the region before the planting season, with prices to be announced later this quarter.".

(** An article without a word of four letters. *)
Definition oil_story : Article :=
  {| id := 8; title := "Oil up 5%"; content := None; created_at := None |}.

(** One hour after [noon]. *)
Definition an_hour_later : Datetime.clock :=
  {| Datetime.utc := Datetime.utc Sample.noon + Datetime.hour;
     Datetime.local_offset := 0 |}.

Definition story_entry : Pipeline.MinifluxEntry :=
  {| Pipeline.entry_id := 41; Pipeline.entry_title := Sample.story_title;
     Pipeline.entry_url := Sample.story_url;
     Pipeline.entry_content := Some Sample.story_body |}.

(** The percentage without the rounding, and a text for it. *)
Definition exact_percent (a b : Z) : Q := (inject_Z (100 * a) / inject_Z b)%Q.
Definition no_text (x : Q) : string := "".

End Cases.

(** * Properties *)

(** ** The duplicate detector *)

Lemma scan_existing_reason c fz cn arts r :
  scan_existing c fz cn arts = Some r →
  r = "fuzzy_duplicate" ∨ r = "similar_content".
Proof.
  induction arts as [|a arts IH]; simpl; [discriminate|].
  destruct (too_old c a); [exact IH|].
  destruct (String.eqb fz _); [intros [= E]; left; by rewrite E|].
  destruct (Qle_bool _ _); [intros [= E]; right; by rewrite E|exact IH].
Qed.

Lemma is_duplicate_verdict self c title content arts :
  fst (is_duplicate self c title content arts) =
  if decide (create_content_signature title content ∈ recent_hashes self)
  then (true, Some "exact_duplicate")
  else match scan_existing c (create_fuzzy_signature title content)
               (comparison_text title content) arts with
       | Some reason => (true, Some reason)
       | None => (false, None)
       end.
Proof.
  unfold is_duplicate, comparison_text. destruct (decide _); [done|].
  by destruct (scan_existing _ _ _ _).
Qed.

(** C9. [is_duplicate] changes the cache exactly when it answers "not a
    duplicate": then the new cache is the old one with the candidate's exact
    signature added, and that signature was not in it before; when it answers
    "duplicate" (exact, fuzzy or similar) the engine state is the one it was
    given. *)
Theorem is_duplicate_cache_effect self c title content arts :
  let r := is_duplicate self c title content arts in
  let sig := create_content_signature title content in
  (fst (fst r) = false ∧ snd (fst r) = None
   ∧ recent_hashes (snd r) = {[sig]} ∪ recent_hashes self
   ∧ recent_hashes (snd r) ≠ recent_hashes self
   ∧ last_cache_cleanup (snd r) = last_cache_cleanup self)
  ∨ (fst (fst r) = true
     ∧ snd (fst r) ∈ [Some "exact_duplicate"; Some "fuzzy_duplicate"; Some "similar_content"]
     ∧ snd r = self).
Proof.
  intros r sig. subst r sig. unfold is_duplicate.
  destruct (decide _) as [Hin|Hout].
  - right. simpl. split_and!; [done|set_solver|done].
  - destruct (scan_existing _ _ _ _) as [r|] eqn:Hscan.
    + right. simpl.
      destruct (scan_existing_reason _ _ _ _ _ Hscan) as [-> | ->];
        split_and!; try done; set_solver.
    + left. simpl. split_and!; try done.
      intros E. apply Hout. rewrite <- E. apply elem_of_union_l, elem_of_singleton_2.
      reflexivity.
Qed.

Lemma scan_existing_first c t body arts :
  scan_existing c (create_fuzzy_signature t body) (comparison_text t body) arts =
  match list_find (λ a, item_hits c t body a = true) arts with
  | Some (_, a) =>
      Some (if fuzzy_matches t body a then "fuzzy_duplicate" else "similar_content")
  | None => None
  end.
Proof.
  induction arts as [|a arts IH]; [done|].
  cbn [scan_existing list_find].
  fold (fuzzy_matches t body a). fold (comparison_text (title a) (content_or_empty a)).
  fold (similar_enough t body a).
  destruct (decide (item_hits c t body a = true)) as [Hh|Hh]; unfold item_hits in Hh.
  - destruct (too_old c a); [discriminate|].
    destruct (fuzzy_matches t body a); [done|]. cbn [negb andb orb] in Hh. by rewrite Hh.
  - destruct (too_old c a); cbn [negb andb orb] in Hh.
    + rewrite IH. by destruct (list_find _ arts) as [[? ?]|].
    + destruct (fuzzy_matches t body a); [done|].
      destruct (similar_enough t body a); [done|].
      rewrite IH. by destruct (list_find _ arts) as [[? ?]|].
Qed.

(** C3, as the code has it.  The exact-signature test comes first.  After
    it the window is scanned once, in its order, and the first item that is
    not skipped as too old and that matches by fuzzy signature or by
    similarity ends the scan: the reason is the fuzzy one when that item's
    fuzzy signature matches, the similar one otherwise.  In particular a
    fuzzy-matching item gives the fuzzy reason when no item before it in the
    window is hit. *)
Theorem is_duplicate_first_match self c t body arts :
  let verdict := fst (is_duplicate self c t body arts) in
  verdict =
    (if decide (create_content_signature t body ∈ recent_hashes self)
     then (true, Some "exact_duplicate")
     else match list_find (λ a, item_hits c t body a = true) arts with
          | Some (_, a) =>
              (true, Some (if fuzzy_matches t body a
                           then "fuzzy_duplicate" else "similar_content"))
          | None => (false, None)
          end)
  ∧ (∀ i a,
       create_content_signature t body ∉ recent_hashes self →
       arts !! i = Some a → too_old c a = false → fuzzy_matches t body a = true →
       (∀ j b, (j < i)%nat → arts !! j = Some b → item_hits c t body b = false) →
       verdict = (true, Some "fuzzy_duplicate")).
Proof.
  intros verdict. subst verdict. rewrite is_duplicate_verdict, scan_existing_first.
  split.
  - destruct (decide _); [done|]. by destruct (list_find _ arts) as [[? ?]|].
  - intros i a Hsig Hi Hold Hfz Hbefore.
    destruct (decide _); [done|].
    assert (Hfind : list_find (λ a, item_hits c t body a = true) arts = Some (i, a)).
    { apply list_find_Some. split_and!; [done| |].
      - unfold item_hits. by rewrite Hold, Hfz.
      - intros j b Hj Hlt. rewrite (Hbefore j b Hlt Hj). discriminate. }
    by rewrite Hfind, Hfz.
Qed.

(** C3, as stated, fails: the second item of this window matches the
    candidate's fuzzy signature and is within the lookback, yet the reason
    reported is the similar one, given by the first item. *)
Lemma similar_item_wins_over_later_fuzzy_match :
  let window := [Sample.highways_story; Sample.reworded_story (Some (Sample.ago 3 0))] in
  ((create_content_signature Sample.highway_title "" ∉ recent_hashes Sample.fresh)
   ∧ Forall (λ a, too_old Sample.noon a = false) window
   ∧ fuzzy_matches Sample.highway_title "" (Sample.reworded_story (Some (Sample.ago 3 0)))
     = true
   ∧ fst (is_duplicate Sample.fresh Sample.noon Sample.highway_title "" window)
     = (true, Some "similar_content")).
Proof.
  cbv zeta. split_and!.
  - apply not_elem_of_empty.
  - repeat constructor.
  - vm_compute; reflexivity.
  - vm_compute; reflexivity.
Qed.

(** X1. The loop of [is_duplicate] skips an article exactly when it has a
    creation time and its age has reached eight whole days. *)
Lemma too_old_spec c a :
  too_old c a = true
  ↔ ∃ t, created_at a = Some t ∧ (8 * Datetime.day ≤ age c t)%Z.
Proof.
  unfold too_old, age. destruct (created_at a) as [t|]; [|split; [discriminate|]].
  - assert (E : Datetime.sub (Datetime.now_utc c)
                  match Datetime.utcoffset t with
                  | Some _ => t
                  | None => Datetime.localize_utc t
                  end
                = (Datetime.utc c
                   - (Datetime.wall t - default 0 (Datetime.utcoffset t)))%Z).
    { unfold Datetime.sub.
      destruct (Datetime.utcoffset t) eqn:Ht; simpl; rewrite ?Ht; simpl; lia. }
    rewrite E. unfold Datetime.days, Datetime.day. rewrite Z.ltb_lt.
    set (x := (Datetime.utc c - _)%Z). split.
    + intros H. exists t. split; [done|].
      assert (8 <= x / 86400000000)%Z by lia.
      pose proof (Z.mul_div_le x 86400000000 eq_refl). lia.
    + intros (t' & [= <-] & H).
      assert (8 <= x / 86400000000)%Z by (apply Z.div_le_lower_bound; lia). lia.
  - intros (t & Ht & _). discriminate.
Qed.

(** C4, at a window item created seven days and twelve hours before the
    call: it is older than the seven-day lookback, the loop does not skip
    it, and it gets the candidate rejected as a fuzzy duplicate. *)
Lemma item_older_than_lookback_still_matches :
  let a := Sample.reworded_story (Some (Sample.ago 7 12)) in
  ((7 * Datetime.day < age Sample.noon (Sample.ago 7 12))%Z
   ∧ too_old Sample.noon a = false
   ∧ fst (is_duplicate Sample.fresh Sample.noon Sample.highway_title "" [a])
     = (true, Some "fuzzy_duplicate")).
Proof. cbv zeta. split_and!; [reflexivity | reflexivity | vm_compute; reflexivity]. Qed.

(** ** The aggregator *)

Lemma should_process_article_eq self c title content url ea :
  should_process_article self c title content url ea =
  let d := duplicate_step self c title content ea in
  let rs := flag (is_low_value_content title content) "low_value_content"
            ++ flag (is_wire_service_content title content) "wire_service"
            ++ flag (is_pr_content title content) "pr_content"
            ++ fst d
            ++ flag (_is_filtered_url url) "filtered_url" in
  (((length rs =? 0)%nat, rs), snd d).
Proof.
  unfold should_process_article, duplicate_step.
  destruct (is_low_value_content _ _), (is_wire_service_content _ _),
    (is_pr_content _ _), (_is_filtered_url _);
    destruct ea as [[|a arts]|]; simpl; try reflexivity;
    destruct (is_duplicate _ _ _ _ _) as [[[] ?] ?]; reflexivity.
Qed.

Lemma duplicate_step_reasons self c title content ea :
  fst (duplicate_step self c title content ea) = []
  ∨ ∃ d, d ∈ duplicate_reasons ∧ fst (duplicate_step self c title content ea) = [d].
Proof.
  unfold duplicate_step. destruct ea as [[|a arts]|]; [by left| |by left].
  cbv zeta. cbn [fst snd]. rewrite is_duplicate_verdict. destruct (decide _).
  - right. exists "duplicate_exact_duplicate".
    split; [apply list_elem_of_In; simpl; tauto|reflexivity].
  - destruct (scan_existing _ _ _ _) as [r|] eqn:Hr; [|by left].
    right. destruct (scan_existing_reason _ _ _ _ _ Hr) as [-> | ->].
    + exists "duplicate_fuzzy_duplicate".
      split; [apply list_elem_of_In; simpl; tauto|reflexivity].
    + exists "duplicate_similar_content".
      split; [apply list_elem_of_In; simpl; tauto|reflexivity].
Qed.

Ltac pick_sublist :=
  repeat first [apply sublist_nil | apply sublist_skip | apply sublist_cons].

Lemma reasons_sublist self c title content url ea :
  ∃ d, d ∈ duplicate_reasons
    ∧ reasons (should_process_article self c title content url ea) `sublist_of`
        ["low_value_content"; "wire_service"; "pr_content"; d; "filtered_url"].
Proof.
  rewrite should_process_article_eq. unfold reasons. simpl.
  destruct (duplicate_step_reasons self c title content ea) as [-> | (d & Hd & ->)].
  - exists "duplicate_exact_duplicate". split; [apply list_elem_of_In; simpl; tauto|].
    destruct (is_low_value_content _ _), (is_wire_service_content _ _),
      (is_pr_content _ _), (_is_filtered_url _); simpl; pick_sublist.
  - exists d. split; [done|].
    destruct (is_low_value_content _ _), (is_wire_service_content _ _),
      (is_pr_content _ _), (_is_filtered_url _); simpl; pick_sublist.
Qed.

Lemma reasons_known self c title content url ea r :
  r ∈ reasons (should_process_article self c title content url ea) → r ∈ known_reasons.
Proof.
  destruct (reasons_sublist self c title content url ea) as (d & Hd & Hsub).
  intros Hr. apply (elem_of_sublist _ _ _ Hr) in Hsub as Hr2.
  apply list_elem_of_In in Hd, Hr2. apply list_elem_of_In. simpl in *.
  intuition (subst; tauto).
Qed.

(** C6. In every verdict of [should_process_article] the list of reasons is
    empty exactly when the accept flag is true, and the reasons are a
    selection, in this order, of: low-value, wire-service, promotional, one
    duplicate reason, url. *)
Theorem verdict_reasons_shape self c title content url ea :
  let r := should_process_article self c title content url ea in
  (reasons r = [] ↔ accept r = true)
  ∧ ∃ d, d ∈ duplicate_reasons
      ∧ reasons r `sublist_of`
          ["low_value_content"; "wire_service"; "pr_content"; d; "filtered_url"].
Proof.
  intros r. subst r. split; [|apply reasons_sublist].
  rewrite should_process_article_eq. unfold accept, reasons. simpl.
  destruct (_ ++ _); simpl; split; congruence.
Qed.

Lemma duplicate_step_no_window self c title content ea :
  ea = None ∨ ea = Some [] → duplicate_step self c title content ea = ([], self).
Proof. by intros [-> | ->]. Qed.

(** C10. When [existing_articles] is [None] or the empty list, duplicate
    detection is skipped: the engine state comes back as it was given (so
    nothing is inserted in the cache), the reasons are among the four that
    are no duplicate reasons, and the verdict is the same whatever the cache
    holds (the cache is not consulted). *)
Theorem empty_window_skips_duplicate_detection self c title content url ea :
  ea = None ∨ ea = Some [] →
  let r := should_process_article self c title content url ea in
  snd r = self
  ∧ reasons r `sublist_of` ["low_value_content"; "wire_service"; "pr_content"; "filtered_url"]
  ∧ (∀ d, d ∈ duplicate_reasons → d ∉ reasons r)
  ∧ (∀ other, fst (should_process_article other c title content url ea) = fst r).
Proof.
  intros Hea r. subst r. unfold reasons.
  rewrite should_process_article_eq, (duplicate_step_no_window _ _ _ _ _ Hea). simpl.
  split_and!; [done| | |].
  - destruct (is_low_value_content _ _), (is_wire_service_content _ _),
      (is_pr_content _ _), (_is_filtered_url _); simpl; pick_sublist.
  - intros d Hd Hr. unfold duplicate_reasons in Hd.
    destruct (is_low_value_content _ _), (is_wire_service_content _ _),
      (is_pr_content _ _), (_is_filtered_url _); simpl in Hr;
      apply list_elem_of_In in Hd, Hr; simpl in Hd, Hr;
      destruct Hd as [<-|[<-|[<-|[]]]]; intuition discriminate.
  - intros other.
    by rewrite should_process_article_eq, (duplicate_step_no_window _ _ _ _ _ Hea).
Qed.

Lemma empty_window_skips_duplicate_detection_witness :
  (@None (list Article) = None ∨ @None (list Article) = Some [])
  ∧ let r := should_process_article Sample.fresh Sample.noon Sample.story_title
               Sample.story_body Sample.story_url None in
    snd r = Sample.fresh
    ∧ reasons r `sublist_of` ["low_value_content"; "wire_service"; "pr_content"; "filtered_url"]
    ∧ (∀ d, d ∈ duplicate_reasons → d ∉ reasons r)
    ∧ (∀ other, fst (should_process_article other Sample.noon Sample.story_title
                        Sample.story_body Sample.story_url None) = fst r).
Proof.
  split; [left; reflexivity|].
  apply (empty_window_skips_duplicate_detection Sample.fresh Sample.noon Sample.story_title
           Sample.story_body Sample.story_url None).
  left; reflexivity.
Defined.

Lemma duplicate_step_cache s1 s2 c title content ea :
  (create_content_signature title content ∈ recent_hashes s1
   ↔ create_content_signature title content ∈ recent_hashes s2) →
  fst (duplicate_step s1 c title content ea) = fst (duplicate_step s2 c title content ea).
Proof.
  intros H. unfold duplicate_step. destruct ea as [[|a arts]|]; [reflexivity| |reflexivity].
  cbv zeta. cbn [fst snd]. rewrite !is_duplicate_verdict.
  destruct (decide _) as [H1|H1], (decide _) as [H2|H2];
    [reflexivity|tauto|tauto|reflexivity].
Qed.

(** C1, as the code has it.  The verdict of [should_process_article] is
    fixed by its arguments, the clock reading, and whether the cache holds
    the item's exact signature: two calls with the same arguments at the same
    clock reading, on engine states that agree on that one membership, give
    the same accept flag and the same list of reasons. *)
Theorem verdict_fixed_by_signature_membership s1 s2 c title content url ea :
  (create_content_signature title content ∈ recent_hashes s1
   ↔ create_content_signature title content ∈ recent_hashes s2) →
  fst (should_process_article s1 c title content url ea)
  = fst (should_process_article s2 c title content url ea).
Proof.
  intros H. rewrite !should_process_article_eq. simpl.
  by rewrite (duplicate_step_cache s1 s2 c title content ea H).
Qed.

Lemma verdict_fixed_by_signature_membership_witness :
  (create_content_signature Sample.story_title Sample.story_body
     ∈ recent_hashes Sample.fresh
   ↔ create_content_signature Sample.story_title Sample.story_body
     ∈ recent_hashes Sample.other_cache)
  ∧ fst (should_process_article Sample.fresh Sample.noon Sample.story_title
           Sample.story_body Sample.story_url (Some [Sample.library_story]))
    = fst (should_process_article Sample.other_cache Sample.noon Sample.story_title
             Sample.story_body Sample.story_url (Some [Sample.library_story])).
Proof.
  assert (H : create_content_signature Sample.story_title Sample.story_body
              ∈ recent_hashes Sample.fresh
              ↔ create_content_signature Sample.story_title Sample.story_body
                ∈ recent_hashes Sample.other_cache).
  { split; intros Hin.
    - exfalso. revert Hin. apply not_elem_of_empty.
    - unfold Sample.other_cache in Hin. cbn [recent_hashes] in Hin.
      apply elem_of_singleton in Hin. vm_compute in Hin. discriminate Hin. }
  split; [exact H|].
  exact (verdict_fixed_by_signature_membership Sample.fresh Sample.other_cache Sample.noon
           Sample.story_title Sample.story_body Sample.story_url
           (Some [Sample.library_story]) H).
Defined.

(** C1, as stated, fails: the same call made twice on one engine gives two
    verdicts, because the first call stores the item's signature. *)
Lemma repeated_call_changes_verdict :
  let call self :=
    should_process_article self Sample.noon Sample.story_title Sample.story_body
      Sample.story_url (Some [Sample.library_story]) in
  let first := call Sample.fresh in
  let second := call (snd first) in
  fst first = (true, []) ∧ fst second = (false, ["duplicate_exact_duplicate"])
  ∧ fst first ≠ fst second.
Proof.
  assert (E1 : fst (should_process_article Sample.fresh Sample.noon Sample.story_title
                      Sample.story_body Sample.story_url (Some [Sample.library_story]))
               = (true, [])) by (vm_compute; reflexivity).
  assert (E2 : fst (should_process_article
                      (snd (should_process_article Sample.fresh Sample.noon
                              Sample.story_title Sample.story_body Sample.story_url
                              (Some [Sample.library_story])))
                      Sample.noon Sample.story_title
                      Sample.story_body Sample.story_url (Some [Sample.library_story]))
               = (false, ["duplicate_exact_duplicate"])) by (vm_compute; reflexivity).
  cbv beta zeta. rewrite E1, E2. split_and!; [done|done|discriminate].
Qed.

(** ** The batch pipeline *)

Lemma bump_lookup_eq key stats :
  bump key stats !! key = Some (default 0 (stats !! key) + 1)%Z.
Proof. unfold bump. apply lookup_insert_eq. Qed.

Lemma bump_lookup_ne key k stats : key ≠ k → bump key stats !! k = stats !! k.
Proof. intros H. unfold bump. by apply lookup_insert_ne. Qed.

Lemma foldl_bump_lookup k rs stats :
  k ∉ rs → foldl (λ s r, bump r s) stats rs !! k = stats !! k.
Proof.
  revert stats. induction rs as [|r rs IH]; intros stats Hk; [done|].
  simpl. rewrite IH by (intros ?; apply Hk; by right).
  apply bump_lookup_ne. intros ->. apply Hk. by left.
Qed.

Lemma counter_not_reason k :
  k ∈ ["total_input"; "total_filtered"; "processed"] → k ∉ known_reasons.
Proof.
  intros Hk Hr. apply list_elem_of_In in Hk, Hr. simpl in Hk, Hr.
  intuition (subst; discriminate).
Qed.

(** One turn of the loop either appends the entry and counts it as
    processed, or leaves the accepted list alone and counts it as filtered;
    the reason counters it bumps are never one of the three totals. *)
Lemma batch_step_spec c recent st entry n p f :
  rejection_stats st !! "total_input" = Some n →
  rejection_stats st !! "processed" = Some p →
  rejection_stats st !! "total_filtered" = Some f →
  let st' := batch_step c recent st entry in
  rejection_stats st' !! "total_input" = Some n
  ∧ ((filtered_articles st' = filtered_articles st ++ [entry]
      ∧ rejection_stats st' !! "processed" = Some (p + 1)%Z
      ∧ rejection_stats st' !! "total_filtered" = Some f)
     ∨ (filtered_articles st' = filtered_articles st
        ∧ rejection_stats st' !! "processed" = Some p
        ∧ rejection_stats st' !! "total_filtered" = Some (f + 1)%Z)).
Proof.
  intros Hn Hp Hf st'. subst st'. unfold batch_step.
  pose proof (reasons_known (reducer st) c (get entry "title") (get entry "content")
                (get entry "url") (Some recent)) as Hknown.
  destruct (should_process_article _ _ _ _ _ _) as [[ok rs] red].
  unfold reasons in Hknown. simpl in Hknown. destruct ok; simpl.
  - rewrite (bump_lookup_ne "processed" "total_input"),
      (bump_lookup_ne "processed" "total_filtered"), bump_lookup_eq, Hp by discriminate.
    split; [done|]. by left.
  - assert (Hnot : ∀ k, k ∈ ["total_input"; "total_filtered"; "processed"] → k ∉ rs).
    { intros k Hk Hr. by apply (counter_not_reason k Hk), Hknown. }
    rewrite !foldl_bump_lookup by (apply Hnot, list_elem_of_In; simpl; tauto).
    rewrite (bump_lookup_ne "total_filtered" "total_input"),
      (bump_lookup_ne "total_filtered" "processed"), bump_lookup_eq, Hf by discriminate.
    split; [done|]. by right.
Qed.

Lemma batch_loop_spec c recent arts st n p f :
  rejection_stats st !! "total_input" = Some n →
  rejection_stats st !! "processed" = Some p →
  rejection_stats st !! "total_filtered" = Some f →
  let st' := foldl (batch_step c recent) st arts in
  ∃ acc,
    filtered_articles st' = filtered_articles st ++ acc
    ∧ acc `sublist_of` arts
    ∧ rejection_stats st' !! "total_input" = Some n
    ∧ rejection_stats st' !! "processed" = Some (p + Z.of_nat (length acc))%Z
    ∧ rejection_stats st' !! "total_filtered"
      = Some (f + (Z.of_nat (length arts) - Z.of_nat (length acc)))%Z.
Proof.
  revert st p f. induction arts as [|e arts IH]; intros st p f Hn Hp Hf; simpl.
  - exists []. rewrite app_nil_r, Hn, Hp, Hf. split_and!; try done; f_equal; simpl; lia.
  - destruct (batch_step_spec c recent st e n p f Hn Hp Hf)
      as (Hn' & [(Hacc & Hp' & Hf') | (Hacc & Hp' & Hf')]).
    + destruct (IH _ _ _ Hn' Hp' Hf') as (acc & E & Hsub & En & Ep & Ef).
      exists (e :: acc). rewrite E, Hacc, <- app_assoc. simpl.
      split_and!; [done|by constructor|done| |].
      * rewrite Ep. f_equal. lia.
      * rewrite Ef. f_equal. lia.
    + destruct (IH _ _ _ Hn' Hp' Hf') as (acc & E & Hsub & En & Ep & Ef).
      exists acc. rewrite E, Hacc.
      split_and!; [done|by constructor|done|done|].
      rewrite Ef. f_equal. lia.
Qed.

(** C7. The statistics of [filter_articles_batch] satisfy
    [total_input = len(accepted) + total_filtered],
    [total_filtered = len(items) - len(accepted)] and
    [processed = len(accepted)], and the accepted entries are a selection of
    the input entries in the input order. *)
Theorem batch_statistics_invariant vr c articles db days :
  let r := filter_articles_batch vr c articles db days in
  let accepted := fst (fst r) in
  let stats := snd (fst r) in
  ∃ total_filtered : Z,
    stats !! "total_input" = Some (Z.of_nat (length articles))
    ∧ stats !! "total_filtered" = Some total_filtered
    ∧ stats !! "processed" = Some (Z.of_nat (length accepted))
    ∧ Z.of_nat (length articles) = (Z.of_nat (length accepted) + total_filtered)%Z
    ∧ total_filtered = (Z.of_nat (length articles) - Z.of_nat (length accepted))%Z
    ∧ accepted `sublist_of` articles.
Proof.
  intros r accepted stats. subst r accepted stats. unfold filter_articles_batch.
  cbn [fst snd].
  match goal with |- context [foldl (batch_step c ?w) ?s articles] =>
    destruct (batch_loop_spec c w articles s (Z.of_nat (length articles)) 0 0)
      as (acc & E & Hsub & En & Ep & Ef); [done..|] end.
  rewrite E. cbn [filtered_articles app].
  exists (Z.of_nat (length articles) - Z.of_nat (length acc))%Z.
  split_and!; [done| |done|lia|done|done].
  rewrite Ef. f_equal.
Qed.



Lemma is_duplicate_seen self c t body arts :
  create_content_signature t body ∈ recent_hashes self →
  is_duplicate self c t body arts = ((true, Some "exact_duplicate"), self).
Proof. intros Hsig. unfold is_duplicate. by destruct (decide _). Qed.

Lemma duplicate_step_window self c t body arts :
  arts ≠ [] →
  duplicate_step self c t body (Some arts)
  = (if fst (fst (is_duplicate self c t body arts))
     then [duplicate_reason (snd (fst (is_duplicate self c t body arts)))] else [],
     snd (is_duplicate self c t body arts)).
Proof. intros H. destruct arts; [done|]. unfold duplicate_step. reflexivity. Qed.






(** ** The similarity ratio *)

Section Matching.
Import Difflib.

Lemma row_bounded_nil i j : row_bounded i j [].
Proof. intros [|n]; simpl; lia. Qed.

Lemma row_bounded_tl i j r : row_bounded i j r → row_bounded i (S j) (tl r).
Proof.
  intros H n. destruct r as [|x r]; [destruct n; simpl; lia|].
  specialize (H (S n)). simpl in *. lia.
Qed.

Lemma row_bounded_hd i j r : row_bounded i j r → (hd 0 r ≤ i ∧ hd 0 r ≤ j + 1)%nat.
Proof. intros H. specialize (H 0%nat). destruct r; simpl in *; lia. Qed.

(** One pass over [b] keeps the best block inside the sequences and the
    new row within its bounds. *)
Lemma row_spec indexed x i la lb b :
  (i < la)%nat →
  ∀ j diag old best,
    (j + length b ≤ lb)%nat → (diag ≤ i)%nat → (diag ≤ j)%nat →
    row_bounded i j old → fits la lb best →
    fits la lb (snd (row indexed x i j diag b old best))
    ∧ row_bounded (S i) j (fst (row indexed x i j diag b old best)).
Proof.
  intros Hi. induction b as [|y b IH]; intros j diag old best Hj Hd1 Hd2 Hold Hbest.
  - simpl. split; [done|apply row_bounded_nil].
  - cbn [row]. set (k := if indexed && Ascii.eqb x y then S diag else 0%nat).
    set (best' := if (size best <? k)%nat then (i + 1 - k, j + 1 - k, k)%nat else best).
    assert (Hk : (k ≤ S diag)%nat) by (subst k; destruct (_ && _); lia).
    assert (Hbest' : fits la lb best').
    { subst best'. destruct (size best <? k)%nat; [|done].
      simpl in Hj. unfold fits. simpl. lia. }
    destruct (row_bounded_hd _ _ _ Hold) as [Hh1 Hh2].
    simpl in Hj.
    destruct (IH (S j) (hd 0%nat old) (tl old) best') as [IH1 IH2];
      [lia|lia|lia|by apply row_bounded_tl|done|].
    destruct (row indexed x i (S j) (hd 0%nat old) b (tl old) best') as [r bst].
    simpl in *. split; [done|].
    intros [|n]; simpl; [lia|].
    specialize (IH2 n). lia.
Qed.

Lemma rows_spec pop b la a :
  ∀ i old best,
    (i + length a ≤ la)%nat → row_bounded i 0 old → fits la (length b) best →
    fits la (length b) (rows pop i a b old best).
Proof.
  induction a as [|x a IH]; intros i old best Hi Hold Hbest; [done|].
  cbn [rows]. simpl in Hi.
  destruct (row_spec (negb (pop x)) x i la (length b) b) with
    (j := 0%nat) (diag := 0%nat) (old := old) (best := best) as [H1 H2];
    [lia|lia|lia|lia|done|done|].
  destruct (row (negb (pop x)) x i 0 0 b old best) as [new best'].
  simpl in *. apply IH; [lia|done|done].
Qed.

Lemma lcp_le a b : (lcp a b ≤ length a ∧ lcp a b ≤ length b)%nat.
Proof.
  revert b. induction a as [|x a IH]; intros [|y b]; simpl; try lia.
  destruct (Ascii.eqb x y); [|lia]. specialize (IH b). lia.
Qed.

Lemma extend_spec a b m :
  fits (length a) (length b) m → fits (length a) (length b) (extend a b m).
Proof.
  destruct m as [[i j] k]. unfold fits, extend. simpl. intros [Hi Hj].
  set (n := lcp (rev (take i a)) (rev (take j b))).
  assert (Hn : (n ≤ i ∧ n ≤ j)%nat).
  { pose proof (lcp_le (rev (take i a)) (rev (take j b))) as H.
    rewrite !length_rev, !length_take in H. subst n. lia. }
  set (e := lcp _ _).
  assert (He : (e ≤ length a - (i - n + (k + n))
                ∧ e ≤ length b - (j - n + (k + n)))%nat).
  { pose proof (lcp_le (drop (i - n + (k + n)) a) (drop (j - n + (k + n)) b)) as H.
    rewrite !length_drop in H. subst e. exact H. }
  simpl. lia.
Qed.

Lemma find_longest_match_fits pop a b :
  fits (length a) (length b) (find_longest_match pop a b).
Proof.
  apply extend_spec, rows_spec; [lia|apply row_bounded_nil|].
  unfold fits. simpl. lia.
Qed.

Lemma matches_le fuel pop :
  ∀ a b, (matches fuel pop a b ≤ length a ∧ matches fuel pop a b ≤ length b)%nat.
Proof.
  induction fuel as [|fuel IH]; intros a b; [simpl; lia|].
  cbn [matches]. pose proof (find_longest_match_fits pop a b) as Hfit.
  destruct (find_longest_match pop a b) as [[i j] k]. unfold fits in Hfit. simpl in Hfit.
  destruct (k =? 0)%nat; [lia|].
  pose proof (IH (take i a) (take j b)) as H1.
  pose proof (IH (drop (i + k) a) (drop (j + k) b)) as H2.
  rewrite !length_take in H1. rewrite !length_drop in H2.
  destruct (_ && _), (_ && _); lia.
Qed.

(** The recursion of [matching] never runs out of fuel: any amount above
    the length of [a] gives the same count. *)
Lemma matches_fuel pop :
  ∀ fuel fuel' a b,
    (length a < fuel)%nat → (length a < fuel')%nat →
    matches fuel pop a b = matches fuel' pop a b.
Proof.
  induction fuel as [|fuel IH]; intros fuel' a b H1 H2; [lia|].
  destruct fuel' as [|fuel']; [lia|].
  cbn [matches]. pose proof (find_longest_match_fits pop a b) as Hfit.
  destruct (find_longest_match pop a b) as [[i j] k]. unfold fits in Hfit. simpl in Hfit.
  destruct (k =? 0)%nat eqn:Hk; [done|]. apply Nat.eqb_neq in Hk.
  rewrite (IH fuel' (take i a) (take j b)) by (rewrite length_take; lia).
  rewrite (IH fuel' (drop (i + k) a) (drop (j + k) b)) by (rewrite length_drop; lia).
  done.
Qed.

Lemma matching_le a b : (2 * matching a b ≤ length a + length b)%nat.
Proof. unfold matching. pose proof (matches_le (S (length a)) (popular b) a b). lia. Qed.

Lemma calculate_ratio_bounds m len :
  (2 * m ≤ len)%nat → (0 <= calculate_ratio m len)%Q ∧ (calculate_ratio m len <= 1)%Q.
Proof.
  intros H. unfold calculate_ratio. destruct len as [|len]; [split; discriminate|].
  unfold Qle. cbn [Qnum Qden].
  rewrite <- Pos.of_nat_succ, Zpos_P_of_succ_nat. split; lia.
Qed.

End Matching.

Lemma calculate_similarity_bounds a b :
  (0 <= calculate_similarity a b)%Q ∧ (calculate_similarity a b <= 1)%Q.
Proof.
  unfold calculate_similarity, Difflib.ratio.
  apply calculate_ratio_bounds, matching_le.
Qed.

Lemma empty_texts_similar t body art :
  comparison_text t body = "" →
  comparison_text (title art) (content_or_empty art) = "" →
  similar_enough t body art = true.
Proof. intros H1 H2. unfold similar_enough. rewrite H1, H2. reflexivity. Qed.

(** C5, as the code has it.  [calculate_similarity] returns a ratio between
    0 and 1 for every pair of strings (the count of matching characters is
    reached with the fuel given, whatever larger amount is supplied), and 1
    for two empty strings.  So when the comparison texts of the candidate and
    of a window item are both empty the similarity test passes: if that item
    is first in the window and not skipped as too old, and the exact test did
    not fire, the candidate is reported a duplicate, with the similar reason
    unless the fuzzy signatures match as well. *)
Theorem similarity_range_and_empty_texts :
  (∀ a b, (0 <= calculate_similarity a b)%Q ∧ (calculate_similarity a b <= 1)%Q)
  ∧ (∀ a b fuel, (length a < fuel)%nat →
       Difflib.matches fuel (Difflib.popular b) a b = Difflib.matching a b)
  ∧ calculate_similarity "" "" = 1%Q
  ∧ (∀ self c t body art rest,
       comparison_text t body = "" →
       comparison_text (title art) (content_or_empty art) = "" →
       create_content_signature t body ∉ recent_hashes self →
       too_old c art = false →
       fst (is_duplicate self c t body (art :: rest))
       = (true, Some (if fuzzy_matches t body art
                      then "fuzzy_duplicate" else "similar_content"))).
Proof.
  split_and!; [apply calculate_similarity_bounds| |reflexivity|].
  { intros a b fuel Hfuel. unfold Difflib.matching. apply matches_fuel; lia. }
  intros self c t body art rest H1 H2 Hsig Hold.
  rewrite is_duplicate_verdict, scan_existing_first. destruct (decide _); [done|].
  assert (Hhit : item_hits c t body art = true).
  { unfold item_hits. rewrite Hold, (empty_texts_similar t body art H1 H2).
    by destruct (fuzzy_matches t body art). }
  cbn [list_find]. destruct (decide (item_hits c t body art = true)); [done|done].
Qed.

(** C5, as stated, fails: the ratio of two empty strings is 1, not 0, and a
    candidate and a window item whose comparison texts are both empty (and
    whose fuzzy signatures differ) are reported as similar content. *)
Lemma empty_texts_have_ratio_one :
  calculate_similarity "" "" = 1%Q
  ∧ ¬ (calculate_similarity "" "" == 0)%Q
  ∧ comparison_text "The" "" = ""
  ∧ comparison_text (title Sample.with_story) (content_or_empty Sample.with_story) = ""
  ∧ fuzzy_matches "The" "" Sample.with_story = false
  ∧ fst (is_duplicate Sample.fresh Sample.noon "The" "" [Sample.with_story])
    = (true, Some "similar_content").
Proof. split_and!; try (vm_compute; reflexivity). vm_compute. discriminate. Qed.

(** ** The text normalizer *)

Section Substitutions.
Import Text.

Lemma sub_length_cons {A} (x : A) (l : list A) : (length (x :: l) - length l = 1)%nat.
Proof. simpl. lia. Qed.

(** *** [[^\w\s]] *)

Lemma match_here_punctuation prev s :
  Re.match_here false Patterns.punctuation prev s =
  match s with
  | c :: _ => if negb (Chars.is_word c || Chars.is_space c) then Some 1%nat else None
  | [] => None
  end.
Proof.
  unfold Re.match_here. destruct s as [|c s]; [done|].
  cbn [Patterns.punctuation Re.run Re.cset_match].
  destruct (negb _); [|done]. cbn [snd]. by rewrite sub_length_cons.
Qed.

Lemma sub_punctuation s :
  ∀ prev, Re.sub_go false Patterns.punctuation [] 0 prev s
          = filter (λ c, Chars.is_word c || Chars.is_space c = true) s.
Proof.
  induction s as [|c s IH]; intros prev.
  - cbn [Re.sub_go]. rewrite match_here_punctuation. done.
  - cbn [Re.sub_go]. rewrite match_here_punctuation, filter_cons.
    destruct (Chars.is_word c || Chars.is_space c) eqn:E; cbn [negb].
    + rewrite decide_True by done. by rewrite IH.
    + rewrite decide_False by (by intros ?). cbn [app]. apply IH.
Qed.

(** *** [\s+] *)

Lemma many_head ic cs s :
  ∀ min prev,
    snd <$> head (Re.many ic cs min prev s) =
    if (min <=? lead (Re.cset_match ic cs) s)%nat
    then Some (drop (lead (Re.cset_match ic cs) s) s) else None.
Proof.
  induction s as [|t s IH]; intros min prev.
  - cbn [Re.many lead]. by destruct min.
  - cbn [Re.many lead]. destruct (Re.cset_match ic cs t) eqn:E.
    + specialize (IH (Nat.pred min) (Some t)).
      destruct (Re.many ic cs (Nat.pred min) (Some t) s) as [|p l] eqn:El.
      * cbn [head fmap option_fmap option_map] in IH.
        destruct (Nat.pred min <=? lead (Re.cset_match ic cs) s)%nat eqn:Hle; [done|].
        apply Nat.leb_gt in Hle. cbn [app].
        destruct min as [|min]; [simpl in Hle; lia|].
        simpl in Hle. cbn [Nat.eqb head]. 
        destruct (S min <=? S _)%nat eqn:Hle2; [apply Nat.leb_le in Hle2; lia|done].
      * cbn [app head fmap option_fmap option_map] in *.
        destruct (Nat.pred min <=? lead (Re.cset_match ic cs) s)%nat eqn:Hle; [|done].
        apply Nat.leb_le in Hle.
        destruct (min <=? S _)%nat eqn:Hle2; [done|]. apply Nat.leb_gt in Hle2. lia.
    + destruct min; done.
Qed.

Lemma lead_le p s : (lead p s ≤ length s)%nat.
Proof. induction s as [|c s IH]; simpl; [lia|]. destruct (p c); simpl; lia. Qed.

Lemma match_here_whitespace prev s :
  Re.match_here false Patterns.whitespace_run prev s =
  match lead Chars.is_space s with
  | O => None
  | S n => Some (S n)
  end.
Proof.
  unfold Re.match_here, Patterns.whitespace_run, Patterns.spaces1. cbn [Re.run].
  pose proof (many_head false Re.CSpace s 1 prev) as H. cbn [Re.cset_match] in H.
  change (Re.cset_match false Re.CSpace) with Chars.is_space in H.
  pose proof (lead_le Chars.is_space s) as Hle.
  destruct (Re.many false Re.CSpace 1 prev s) as [|p l];
    cbn [head fmap option_fmap option_map] in H.
  - destruct (lead Chars.is_space s); [done|discriminate].
  - destruct (lead Chars.is_space s) as [|n] eqn:En; [discriminate|].
    cbn [Nat.leb] in H. injection H as ->. rewrite length_drop. f_equal. lia.
Qed.

Lemma collapse_true_skip s :
  lead Chars.is_space s = 0%nat → collapse true s = collapse false s.
Proof. destruct s as [|c s]; [done|]. simpl. by destruct (Chars.is_space c). Qed.

Lemma sub_whitespace s :
  (∀ prev, Re.sub_go false Patterns.whitespace_run [" "%char] 0 prev s = collapse false s)
  ∧ (∀ prev, Re.sub_go false Patterns.whitespace_run [" "%char]
              (lead Chars.is_space s) prev s = collapse true s).
Proof.
  induction s as [|c s [IHa IHb]].
  - split; intros prev; cbn [Re.sub_go lead]; by rewrite match_here_whitespace.
  - assert (Ha : ∀ prev, Re.sub_go false Patterns.whitespace_run [" "%char] 0 prev (c :: s)
                         = collapse false (c :: s)).
    { intros prev. cbn [Re.sub_go]. rewrite match_here_whitespace. cbn [lead collapse].
      destruct (Chars.is_space c).
      - cbn [app]. by rewrite IHb.
      - by rewrite IHa. }
    split; [exact Ha|]. intros prev.
    destruct (Chars.is_space c) eqn:E.
    + cbn [lead]. rewrite E. cbn [Re.sub_go collapse]. rewrite E. apply IHb.
    + assert (E0 : lead Chars.is_space (c :: s) = 0%nat) by (cbn [lead]; by rewrite E).
      rewrite E0, Ha. symmetry. by apply collapse_true_skip.
Qed.

End Substitutions.

Section StopWords.
Import Text.

Lemma after_Some w : ∀ s rest, after w s = Some rest ↔ s = w ++ rest.
Proof.
  induction w as [|c w IH]; intros s rest; simpl.
  - split; [by intros [= ->]|by intros ->].
  - destruct s as [|t s]; [split; discriminate|].
    destruct (Ascii.eqb_spec t c) as [->|Hne].
    + rewrite IH. split; [by intros ->|by intros [= ->]].
    + split; [discriminate|]. intros [= E _]. done.
Qed.

Lemma last_cons (c c' : ascii) w : List.last (c' :: w) c = List.last w c'.
Proof.
  revert c c'. induction w as [|x w IH]; intros c c'; [done|].
  change (List.last (c' :: x :: w) c) with (List.last (x :: w) c).
  rewrite (IH c x). change (List.last (x :: w) c') with (List.last (x :: w) c').
  symmetry. destruct w as [|y w]; [done|].
  change (List.last (x :: y :: w) c') with (List.last (y :: w) c').
  change (List.last (y :: w) x) with (List.last (y :: w) x).
  rewrite <- (IH c' x). done.
Qed.

Lemma run_lit w :
  ∀ prev s, Re.run false (Re.lit w) prev s = candidate prev s (list_ascii_of_string w).
Proof.
  induction w as [|c w IH]; intros prev s; [done|].
  destruct w as [|c' w].
  - cbn [Re.lit Re.run Re.cset_match list_ascii_of_string candidate after List.last].
    destruct s as [|t s]; [done|].
    destruct (Ascii.eqb_spec t c) as [->|Hne]; done.
  - change (Re.lit (String c (String c' w)))
      with (Re.Seq (Re.One (Re.CLit c)) (Re.lit (String c' w))).
    cbn [Re.run Re.cset_match].
    change (list_ascii_of_string (String c (String c' w)))
      with (c :: list_ascii_of_string (String c' w)).
    destruct s as [|t s]; [done|].
    destruct (Ascii.eqb_spec t c) as [->|Hne].
    2:{ cbn [candidate after]. apply Ascii.eqb_neq in Hne. by rewrite Hne. }
    cbn [flat_map fst snd]. rewrite app_nil_r, IH.
    change (list_ascii_of_string (String c' w)) with (c' :: list_ascii_of_string w).
    cbn [candidate]. change (after (c :: c' :: list_ascii_of_string w) (c :: s))
      with (if Ascii.eqb c c then after (c' :: list_ascii_of_string w) s else None).
    rewrite Ascii.eqb_refl.
    destruct (after _ s); [|done]. by rewrite last_cons.
Qed.

Lemma run_alts ic rs :
  rs ≠ [] → ∀ prev s, Re.run ic (Re.alts rs) prev s = flat_map (λ r, Re.run ic r prev s) rs.
Proof.
  induction rs as [|r rs IH]; [done|]. intros _ prev s.
  destruct rs as [|r' rs].
  - cbn [Re.alts flat_map]. by rewrite app_nil_r.
  - change (Re.alts (r :: r' :: rs)) with (Re.Alt r (Re.alts (r' :: rs))).
    cbn [Re.run]. rewrite IH by done. done.
Qed.

Lemma run_stop_word prev s :
  Re.run false Patterns.stop_word prev s =
  if Re.at_boundary prev s
  then flat_map (λ p, if Re.at_boundary (fst p) (snd p) then [(fst p, snd p)] else [])
         (flat_map (candidate prev s) stop_list)
  else [].
Proof.
  unfold Patterns.stop_word.
  change (Re.seqs [Re.Wb; Re.alts (map Re.lit Patterns.stop_words); Re.Wb])
    with (Re.Seq Re.Wb (Re.Seq (Re.alts (map Re.lit Patterns.stop_words)) Re.Wb)).
  cbn [Re.run]. destruct (Re.at_boundary prev s); [|done].
  cbn [flat_map fst snd]. rewrite app_nil_r, run_alts by discriminate.
  f_equal. unfold stop_list. generalize Patterns.stop_words. intros ws.
  induction ws as [|w ws IH]; [done|]. cbn [map flat_map]. by rewrite run_lit, IH.
Qed.

Lemma stop_list_words :
  Forall (λ w, w ≠ [] ∧ forallb Chars.is_word w = true) stop_list.
Proof. repeat constructor; discriminate. Qed.

Lemma lead_app_word w rest :
  forallb Chars.is_word w = true → Re.word_at (head rest) = false →
  lead Chars.is_word (w ++ rest) = length w.
Proof.
  intros Hw Hr. induction w as [|c w IH]; simpl.
  - destruct rest as [|c rest]; [done|]. simpl in *. by rewrite Hr.
  - simpl in Hw. apply andb_true_iff in Hw as [-> Hw]. by rewrite IH.
Qed.

Lemma lead_take_drop p s : take (lead p s) s ++ drop (lead p s) s = s.
Proof. apply take_drop. Qed.

Lemma lead_drop_head s :
  Re.word_at (head (drop (lead Chars.is_word s) s)) = false.
Proof.
  induction s as [|c s IH]; [done|]. simpl.
  destruct (Chars.is_word c) eqn:E; [exact IH|]. simpl. exact E.
Qed.

Lemma last_word w c :
  forallb Chars.is_word (c :: w) = true → Chars.is_word (List.last w c) = true.
Proof.
  revert c. induction w as [|c' w IH]; intros c H.
  - cbn [forallb] in H. apply andb_true_iff in H as [H _]. exact H.
  - rewrite last_cons. apply IH. cbn [forallb] in H.
    by apply andb_true_iff in H as [_ H].
Qed.

(** What a member of the list of matches of the stop-word pattern says. *)
Lemma run_stop_word_elem prev s p :
  p ∈ Re.run false Patterns.stop_word prev s →
  Re.word_at prev = false
  ∧ take (lead Chars.is_word s) s ∈ stop_list
  ∧ (length s - length (snd p) = lead Chars.is_word s)%nat.
Proof.
  rewrite run_stop_word. destruct (Re.at_boundary prev s) eqn:Hb; [|by intros ?%elem_of_nil].
  intros Hp. apply list_elem_of_In, in_flat_map in Hp as (q & Hq & Hp).
  apply in_flat_map in Hq as (w & Hw & Hq).
  destruct (Re.at_boundary (fst q) (snd q)) eqn:Hb2; [|destruct Hp].
  destruct Hp as [<-|[]]. cbn [snd].
  pose proof stop_list_words as Hall. rewrite Forall_forall in Hall.
  destruct (Hall w (proj2 (list_elem_of_In _ _) Hw)) as [Hne Hword].
  destruct w as [|c w]; [done|]. cbn [candidate] in Hq.
  destruct (after (c :: w) s) as [rest|] eqn:Ha; [|destruct Hq].
  destruct Hq as [<-|[]]. cbn [fst snd] in *.
  apply after_Some in Ha. subst s.
  unfold Re.at_boundary in Hb2. cbn [Re.word_at] in Hb2.
  rewrite (last_word w c Hword) in Hb2.
  assert (Hrest : Re.word_at (head rest) = false) by (by destruct (Re.word_at (head rest))).
  rewrite (lead_app_word _ _ Hword Hrest), take_app_length.
  split_and!.
  - unfold Re.at_boundary in Hb. cbn [head app Re.word_at] in Hb.
    simpl in Hword. apply andb_true_iff in Hword as [Hc _]. rewrite Hc in Hb.
    by destruct (Re.word_at prev).
  - by apply list_elem_of_In.
  - rewrite length_app. lia.
Qed.

Lemma run_stop_word_nonempty prev s :
  Re.word_at prev = false → take (lead Chars.is_word s) s ∈ stop_list →
  Re.run false Patterns.stop_word prev s ≠ [].
Proof.
  intros Hprev Hin. set (n := lead Chars.is_word s) in *.
  pose proof stop_list_words as Hall. rewrite Forall_forall in Hall.
  destruct (Hall _ Hin) as [Hne Hword].
  destruct (take n s) as [|c w] eqn:Hw; [done|].
  assert (Hs : s = (c :: w) ++ drop n s) by (rewrite <- Hw; symmetry; apply take_drop).
  assert (Hel : (Some (List.last w c), drop n s)
                ∈ Re.run false Patterns.stop_word prev s).
  { rewrite run_stop_word.
    assert (Hb : Re.at_boundary prev s = true).
    { rewrite Hs. unfold Re.at_boundary. cbn [app head Re.word_at]. rewrite Hprev.
      simpl in Hword. by apply andb_true_iff in Hword as [-> _]. }
    rewrite Hb. apply list_elem_of_In, in_flat_map.
    exists (Some (List.last w c), drop n s). split.
    - apply in_flat_map. exists (c :: w). split; [by apply list_elem_of_In|].
      cbn [candidate]. rewrite (proj2 (after_Some (c :: w) s (drop n s)) Hs). by left.
    - cbn [fst snd]. unfold Re.at_boundary. cbn [Re.word_at].
      rewrite (last_word w c Hword). subst n. rewrite lead_drop_head. by left. }
  intros E. rewrite E in Hel. by apply elem_of_nil in Hel.
Qed.

Lemma match_here_stop_word prev s :
  Re.match_here false Patterns.stop_word prev s =
  if negb (Re.word_at prev) && bool_decide (take (lead Chars.is_word s) s ∈ stop_list)
  then Some (lead Chars.is_word s) else None.
Proof.
  unfold Re.match_here.
  destruct (Re.run false Patterns.stop_word prev s) as [|p l] eqn:E.
  - destruct (Re.word_at prev) eqn:Hprev; [done|]. cbn [negb andb].
    case_bool_decide as Hin; [|done].
    by destruct (run_stop_word_nonempty prev s Hprev Hin).
  - destruct (run_stop_word_elem prev s p) as (Hprev & Hin & Hlen).
    { rewrite E. by left. }
    rewrite Hprev, bool_decide_eq_true_2 by done. cbn [negb andb]. by rewrite Hlen.
Qed.

Lemma tokens_word_run s :
  lead Chars.is_word s ≠ 0%nat →
  tokens s = Word (take (lead Chars.is_word s) s) :: tokens (drop (lead Chars.is_word s) s).
Proof.
  induction s as [|c s IH]; [done|]. simpl.
  destruct (Chars.is_word c) eqn:E; [|done]. intros _.
  destruct (lead Chars.is_word s) as [|n] eqn:En.
  - simpl. destruct s as [|c' s]; [done|].
    simpl in *. destruct (Chars.is_word c') eqn:E'; done.
  - rewrite IH by done. done.
Qed.

Lemma stop_list_nil : [] ∉ stop_list.
Proof. intros H. apply list_elem_of_In in H. simpl in H. intuition discriminate. Qed.

Lemma sub_stop_word s :
  (∀ prev, Re.word_at prev = false →
           Re.sub_go false Patterns.stop_word [] 0 prev s = drop_stop_words s)
  ∧ (∀ prev, Re.sub_go false Patterns.stop_word [] (lead Chars.is_word s) prev s
             = drop_stop_words (drop (lead Chars.is_word s) s))
  ∧ (∀ prev, Re.word_at prev = true →
             Re.sub_go false Patterns.stop_word [] 0 prev s
             = take (lead Chars.is_word s) s
               ++ drop_stop_words (drop (lead Chars.is_word s) s)).
Proof.
  induction s as [|c s (IHa & IHb & IHc)].
  - split_and!; intros prev; intros; cbn [Re.sub_go lead];
      by destruct (Re.match_here _ _ _ _).
  - destruct (Chars.is_word c) eqn:E.
    + assert (Hlead : lead Chars.is_word (c :: s) = S (lead Chars.is_word s))
        by (cbn [lead]; by rewrite E).
      assert (Htok : drop_stop_words (c :: s)
                     = (if bool_decide (take (S (lead Chars.is_word s)) (c :: s) ∈ stop_list)
                        then [] else take (S (lead Chars.is_word s)) (c :: s))
                       ++ drop_stop_words (drop (lead Chars.is_word s) s)).
      { unfold drop_stop_words. rewrite tokens_word_run by (rewrite Hlead; done).
        rewrite Hlead, filter_cons. cbn [keep drop].
        set (w := take (S (lead Chars.is_word s)) (c :: s)).
        destruct (decide (w ∈ stop_list)) as [Hin|Hin].
        - rewrite (bool_decide_eq_true_2 _ Hin),
            (bool_decide_eq_false_2 (w ∉ stop_list)) by tauto.
          rewrite decide_False by done. done.
        - rewrite (bool_decide_eq_false_2 _ Hin),
            (bool_decide_eq_true_2 (w ∉ stop_list)) by done.
          rewrite decide_True by done. done. }
      split_and!.
      * intros prev Hprev. cbn [Re.sub_go]. rewrite match_here_stop_word, Hprev, Hlead.
        cbn [negb andb]. rewrite Htok. case_bool_decide as Hin.
        -- cbn [app]. apply IHb.
        -- rewrite IHc by done. done.
      * intros prev. rewrite Hlead. cbn [Re.sub_go drop]. apply IHb.
      * intros prev Hprev. cbn [Re.sub_go]. rewrite match_here_stop_word, Hprev, Hlead.
        cbn [negb andb]. rewrite IHc by done. done.
    + assert (Hlead : lead Chars.is_word (c :: s) = 0%nat) by (cbn [lead]; by rewrite E).
      assert (Hgo : ∀ prev, Re.sub_go false Patterns.stop_word [] 0 prev (c :: s)
                            = drop_stop_words (c :: s)).
      { intros prev. cbn [Re.sub_go]. rewrite match_here_stop_word, Hlead.
        cbn [take]. rewrite (bool_decide_eq_false_2 _ stop_list_nil), andb_false_r.
        rewrite IHa by (cbn [Re.word_at]; done).
        unfold drop_stop_words. cbn [tokens]. rewrite E, filter_cons.
        cbn [keep]. rewrite decide_True by done. done. }
      rewrite Hlead. split_and!; intros; cbn [take drop app]; apply Hgo.
Qed.

End StopWords.

Section NormalForm.
Import Text.

(** *** Characters *)

Lemma word_not_space c : Chars.is_word c = true → Chars.is_space c = false.
Proof. destruct c as [[] [] [] [] [] [] [] []]; vm_compute; congruence. Qed.

Lemma lower_word c : Chars.is_word (Chars.lower c) = Chars.is_word c.
Proof. destruct c as [[] [] [] [] [] [] [] []]; reflexivity. Qed.

Lemma lower_lower c : Chars.lower (Chars.lower c) = Chars.lower c.
Proof. destruct c as [[] [] [] [] [] [] [] []]; reflexivity. Qed.

Lemma plain_blank : plain " ".
Proof. split; [by right|reflexivity]. Qed.

Lemma plain_lower c :
  Chars.is_word c = true ∨ c = " "%char → plain (Chars.lower c).
Proof.
  intros [H | ->]; [|exact plain_blank].
  split; [left; by rewrite lower_word|apply lower_lower].
Qed.

Lemma plain_word_or_space c : plain c → Chars.is_word c || Chars.is_space c = true.
Proof. intros [[-> | ->] _]; [done|reflexivity]. Qed.

(** *** Tokens *)

Lemma untok_tokens s : untok (tokens s) = s.
Proof.
  induction s as [|c s IH]; [done|]. simpl.
  destruct (Chars.is_word c); [|simpl; by rewrite IH].
  unfold untok in *. destruct (tokens s) as [|[w|c'] ts]; simpl in *; by rewrite <- IH.
Qed.

Lemma well_formed_tokens s : well_formed (tokens s).
Proof.
  induction s as [|c s IH]; [done|]. simpl.
  destruct (Chars.is_word c) eqn:E; [|done].
  destruct (tokens s) as [|[w|c'] ts]; simpl in *.
  - by rewrite E.
  - destruct IH as (? & ? & ? & ?). by rewrite E.
  - by rewrite E.
Qed.

Lemma tokens_word_app w u :
  w ≠ [] → forallb Chars.is_word w = true → head_word (tokens u) = None →
  tokens (w ++ u) = Word w :: tokens u.
Proof.
  intros Hne Hw Hu. induction w as [|c w IH]; [done|].
  simpl in Hw. apply andb_true_iff in Hw as [Hc Hw]. simpl. rewrite Hc.
  destruct w as [|c' w].
  - simpl. destruct (tokens u) as [|[w|c'] ts]; done.
  - by rewrite IH.
Qed.

Lemma tokens_untok ts : well_formed ts → tokens (untok ts) = ts.
Proof.
  induction ts as [|[w|c] ts IH]; [done| |].
  - intros (Hne & Hw & Hh & Hwf). change (untok (Word w :: ts)) with (w ++ untok ts).
    rewrite tokens_word_app; rewrite ?IH; done.
  - intros [Hc Hwf]. change (untok (Sep c :: ts)) with (c :: untok ts).
    simpl. by rewrite Hc, IH.
Qed.

Lemma head_word_filter ts :
  head_word ts = None → head_word (filter (λ t, keep t = true) ts) = None.
Proof.
  destruct ts as [|[w|c] ts]; [done|done|]. intros _.
  by rewrite filter_cons, decide_True.
Qed.

Lemma well_formed_filter ts :
  well_formed ts → well_formed (filter (λ t, keep t = true) ts).
Proof.
  induction ts as [|[w|c] ts IH]; [done| |].
  - intros (Hne & Hw & Hh & Hwf). rewrite filter_cons.
    destruct (decide _); [|by apply IH].
    simpl. split_and!; [done|done|by apply head_word_filter|by apply IH].
  - intros [Hc Hwf]. rewrite filter_cons, decide_True by done. simpl. split; [done|by apply IH].
Qed.

Lemma Forall_filter_keep ts : Forall (λ t, keep t = true) (filter (λ t, keep t = true) ts).
Proof. apply Forall_forall. by intros t [? ?]%list_elem_of_filter. Qed.

Lemma filter_all {A} (P : A → Prop) `{∀ x, Decision (P x)} (l : list A) :
  Forall P l → filter P l = l.
Proof.
  induction 1 as [|x l Hx Hl IH]; [done|]. by rewrite filter_cons, decide_True, IH.
Qed.

Lemma tokens_drop_stop_words s :
  tokens (drop_stop_words s) = filter (λ t, keep t = true) (tokens s).
Proof. apply tokens_untok, well_formed_filter, well_formed_tokens. Qed.

Lemma drop_stop_words_fixed s :
  Forall (λ t, keep t = true) (tokens s) → drop_stop_words s = s.
Proof. intros H. unfold drop_stop_words. by rewrite filter_all, untok_tokens. Qed.

Lemma Forall_untok (P : ascii → Prop) ts :
  Forall P (untok ts) ↔ Forall (λ t, Forall P (text_of t)) ts.
Proof.
  induction ts as [|t ts IH]; [by split; constructor|].
  change (untok (t :: ts)) with (text_of t ++ untok ts).
  by rewrite Forall_app, Forall_cons, IH.
Qed.

Lemma Forall_drop_stop_words (P : ascii → Prop) s :
  Forall P s → Forall P (drop_stop_words s).
Proof.
  intros H. unfold drop_stop_words. apply Forall_untok.
  rewrite <- (untok_tokens s) in H. apply Forall_untok in H.
  apply Forall_forall. intros t [_ Ht]%list_elem_of_filter.
  by apply (proj1 (Forall_forall _ _) H).
Qed.

Lemma tokens_seps sp :
  Forall (λ c, Chars.is_space c = true) sp → tokens sp = map Sep sp.
Proof.
  induction 1 as [|c sp Hc _ IH]; [done|]. simpl.
  destruct (Chars.is_word c) eqn:E; [|by rewrite IH].
  apply word_not_space in E. congruence.
Qed.

Lemma tokens_app_seps u sp :
  Forall (λ c, Chars.is_space c = true) sp → tokens (u ++ sp) = tokens u ++ map Sep sp.
Proof.
  intros Hsp. induction u as [|c u IH]; [by apply tokens_seps|].
  simpl. rewrite IH. destruct (Chars.is_word c); [|done].
  destruct (tokens u) as [|[w|c'] ts]; [|done|done].
  simpl. by destruct sp.
Qed.

(** *** [strip] *)

Lemma lstrip_split s :
  ∃ sp, s = sp ++ Str.lstrip_chars s ∧ Forall (λ c, Chars.is_space c = true) sp.
Proof.
  induction s as [|c s (sp & E & Hsp)]; [by exists []|]. simpl.
  destruct (Chars.is_space c) eqn:Hc; [|by exists []].
  exists (c :: sp). split; [by rewrite <- app_comm_cons, <- E|by constructor].
Qed.

Lemma rstrip_split s :
  ∃ sp, s = Str.rstrip_chars s ++ sp ∧ Forall (λ c, Chars.is_space c = true) sp.
Proof.
  destruct (lstrip_split (rev s)) as (sp & E & Hsp). exists (rev sp). split.
  - unfold Str.rstrip_chars. rewrite <- rev_app_distr, <- E. by rewrite rev_involutive.
  - by apply Forall_rev.
Qed.

Lemma no_lead_lstrip s : no_lead (Str.lstrip_chars s).
Proof.
  induction s as [|c s IH]; [done|]. simpl.
  destruct (Chars.is_space c) eqn:E; [done|]. simpl. done.
Qed.

Lemma lstrip_fixed s : no_lead s → Str.lstrip_chars s = s.
Proof. destruct s as [|c s]; [done|]. simpl. by intros ->. Qed.

Lemma rstrip_fixed s : no_lead (rev s) → Str.rstrip_chars s = s.
Proof. intros H. unfold Str.rstrip_chars. by rewrite lstrip_fixed, rev_involutive. Qed.

Lemma strip_fixed s : no_lead s → no_lead (rev s) → Str.strip_chars s = s.
Proof. intros H1 H2. unfold Str.strip_chars. by rewrite (lstrip_fixed s H1), rstrip_fixed. Qed.

Lemma no_lead_rstrip s : no_lead s → no_lead (Str.rstrip_chars s).
Proof.
  intros H. destruct (rstrip_split s) as (sp & E & Hsp).
  destruct (Str.rstrip_chars s) as [|c u]; [done|].
  rewrite E in H. exact H.
Qed.

Lemma no_lead_strip s :
  no_lead (Str.strip_chars s) ∧ no_lead (rev (Str.strip_chars s)).
Proof.
  unfold Str.strip_chars. split.
  - apply no_lead_rstrip, no_lead_lstrip.
  - unfold Str.rstrip_chars. rewrite rev_involutive. apply no_lead_lstrip.
Qed.

Lemma Forall_strip (P : ascii → Prop) s : Forall P s → Forall P (Str.strip_chars s).
Proof.
  intros H. unfold Str.strip_chars.
  destruct (lstrip_split s) as (sp1 & E1 & _). rewrite E1 in H.
  apply Forall_app in H as [_ H].
  destruct (rstrip_split (Str.lstrip_chars s)) as (sp2 & E2 & _). rewrite E2 in H.
  by apply Forall_app in H as [H _].
Qed.

Lemma keep_lstrip s :
  Forall (λ t, keep t = true) (tokens s) →
  Forall (λ t, keep t = true) (tokens (Str.lstrip_chars s)).
Proof.
  destruct (lstrip_split s) as (sp & E & Hsp). intros H. rewrite E in H.
  clear E. induction Hsp as [|c sp Hc _ IH]; [done|]. apply IH.
  simpl in H. destruct (Chars.is_word c) eqn:Hw.
  - apply word_not_space in Hw. congruence.
  - by inversion H.
Qed.

Lemma keep_rstrip s :
  Forall (λ t, keep t = true) (tokens s) →
  Forall (λ t, keep t = true) (tokens (Str.rstrip_chars s)).
Proof.
  destruct (rstrip_split s) as (sp & E & Hsp). intros H. rewrite E in H.
  rewrite (tokens_app_seps _ _ Hsp) in H. by apply Forall_app in H as [H _].
Qed.

Lemma keep_strip s :
  Forall (λ t, keep t = true) (tokens s) →
  Forall (λ t, keep t = true) (tokens (Str.strip_chars s)).
Proof. intros H. by apply keep_rstrip, keep_lstrip. Qed.

End NormalForm.

Section Idempotence.
Import Text.

(** *** [collapse] *)

Lemma collapse_Forall (P : ascii → Prop) b s :
  P " "%char → Forall P s → Forall P (collapse b s).
Proof.
  intros Hb H. revert b. induction H as [|c s Hc _ IH]; intros b; [done|].
  simpl. destruct (Chars.is_space c); [destruct b|]; try constructor; auto.
Qed.

Lemma collapse_blank b s :
  Forall (λ c, Chars.is_space c = true → c = " "%char) (collapse b s).
Proof.
  revert b. induction s as [|c s IH]; intros b; [done|]. simpl.
  destruct (Chars.is_space c) eqn:E; [destruct b|]; try constructor; auto.
  intros H. congruence.
Qed.

Lemma collapse_idem s :
  collapse false (collapse false s) = collapse false s
  ∧ collapse true (collapse true s) = collapse true s.
Proof.
  induction s as [|c s [IHa IHb]]; [done|]. simpl.
  destruct (Chars.is_space c) eqn:E; simpl.
  - change (Chars.is_space " ") with true. cbn iota. by rewrite IHb.
  - by rewrite E, IHa.
Qed.

Lemma collapse_snoc b s c :
  Chars.is_space c = false → collapse b (s ++ [c]) = collapse b s ++ [c].
Proof.
  intros Hc. revert b. induction s as [|x s IH]; intros b; simpl.
  - by rewrite Hc.
  - destruct (Chars.is_space x); [destruct b|]; by rewrite IH.
Qed.

Lemma no_lead_collapse s : no_lead s → no_lead (collapse false s).
Proof. destruct s as [|c s]; [done|]. simpl. intros H. by rewrite H. Qed.

Lemma no_lead_rev_collapse s : no_lead (rev s) → no_lead (rev (collapse false s)).
Proof.
  intros H. rewrite <- (rev_involutive s). destruct (rev s) as [|c u]; [done|].
  simpl in *. by rewrite (collapse_snoc _ _ _ H), rev_unit.
Qed.

(** The words of a text are those of the collapsed text. *)
Lemma tokens_cons_word c s :
  Chars.is_word c = true →
  head_word (tokens (c :: s)) = Some (c :: default [] (head_word (tokens s)))
  ∧ words_of (tokens (c :: s))
    = (c :: default [] (head_word (tokens s)))
        :: match head_word (tokens s) with
           | Some _ => tail (words_of (tokens s))
           | None => words_of (tokens s)
           end.
Proof. intros Hc. simpl. rewrite Hc. by destruct (tokens s) as [|[w|c'] ts]. Qed.

Lemma tokens_cons_sep c s :
  Chars.is_word c = false →
  head_word (tokens (c :: s)) = None ∧ words_of (tokens (c :: s)) = words_of (tokens s).
Proof. intros Hc. simpl. by rewrite Hc. Qed.

Lemma space_not_word c : Chars.is_space c = true → Chars.is_word c = false.
Proof.
  intros H. destruct (Chars.is_word c) eqn:E; [|done].
  apply word_not_space in E. congruence.
Qed.

Lemma collapse_words s :
  (∀ b, words_of (tokens (collapse b s)) = words_of (tokens s))
  ∧ head_word (tokens (collapse false s)) = head_word (tokens s).
Proof.
  induction s as [|c s [IHw IHh]]; [done|].
  destruct (Chars.is_space c) eqn:E.
  - pose proof (space_not_word c E) as Hc.
    destruct (tokens_cons_sep c s Hc) as [H1 H2]. rewrite H1, H2.
    assert (Hb : ∀ X, head_word (tokens (" "%char :: X)) = None
                      ∧ words_of (tokens (" "%char :: X)) = words_of (tokens X))
      by (intros X; by apply tokens_cons_sep).
    split.
    + intros b. cbn [collapse]. rewrite E.
      destruct b; [apply IHw|]. rewrite (proj2 (Hb _)). apply IHw.
    + cbn [collapse]. rewrite E. apply Hb.
  - assert (Hcol : ∀ b, collapse b (c :: s) = c :: collapse false s)
      by (intros b; cbn [collapse]; by rewrite E).
    destruct (Chars.is_word c) eqn:Hc.
    + destruct (tokens_cons_word c s Hc) as [H1 H2].
      destruct (tokens_cons_word c (collapse false s) Hc) as [H3 H4].
      split.
      * intros b. by rewrite Hcol, H4, H2, IHh, (IHw false).
      * by rewrite Hcol, H3, H1, IHh.
    + destruct (tokens_cons_sep c s Hc) as [H1 H2].
      destruct (tokens_cons_sep c (collapse false s) Hc) as [H3 H4].
      split.
      * intros b. by rewrite Hcol, H4, H2, (IHw false).
      * by rewrite Hcol, H3, H1.
Qed.

Lemma keep_words ts :
  Forall (λ t, keep t = true) ts ↔ Forall (λ w, w ∉ stop_list) (words_of ts).
Proof.
  induction ts as [|[w|c] ts IH].
  - split; constructor.
  - change (words_of (Word w :: ts)) with (w :: words_of ts).
    rewrite !Forall_cons, IH. simpl. by rewrite bool_decide_eq_true.
  - change (words_of (Sep c :: ts)) with (words_of ts).
    rewrite Forall_cons, IH. simpl. tauto.
Qed.

Lemma keep_collapse b s :
  Forall (λ t, keep t = true) (tokens s) →
  Forall (λ t, keep t = true) (tokens (collapse b s)).
Proof. rewrite !keep_words. by rewrite (proj1 (collapse_words s) b). Qed.

(** *** The normal form *)

Lemma map_lower_fixed s : Forall plain s → Str.lower_chars s = s.
Proof.
  unfold Str.lower_chars. induction 1 as [|c s [_ Hc] _ IH]; [done|].
  simpl. by rewrite Hc, IH.
Qed.

Lemma normalize_cons c s :
  normalize (c :: s) =
  Str.strip_chars
    (drop_stop_words
       (Str.lower_chars
          (filter (λ c, Chars.is_word c || Chars.is_space c = true)
             (collapse false (c :: s))))).
Proof.
  unfold normalize. cbv zeta.
  rewrite (proj1 (sub_whitespace (c :: s))), sub_punctuation.
  by rewrite (proj1 (sub_stop_word _)).
Qed.

Lemma normal_nil : normal [].
Proof. by split. Qed.

Lemma normal_normalize s : normal (normalize s).
Proof.
  destruct s as [|c s]; [exact normal_nil|]. rewrite normalize_cons.
  set (y := Str.lower_chars _).
  assert (Hy : Forall plain y).
  { subst y. unfold Str.lower_chars. apply Forall_map.
    apply Forall_forall. intros x [Hx Hin]%list_elem_of_filter.
    apply plain_lower.
    pose proof (collapse_blank false (c :: s)) as Hb.
    rewrite Forall_forall in Hb. specialize (Hb x Hin).
    destruct (Chars.is_word x); [by left|]. right. by apply Hb. }
  split.
  - by apply Forall_strip, Forall_drop_stop_words.
  - apply keep_strip. rewrite tokens_drop_stop_words. apply Forall_filter_keep.
  - apply no_lead_strip.
  - apply no_lead_strip.
Qed.

Lemma normalize_normal r :
  normal r → normalize r = collapse false r ∧ normal (collapse false r).
Proof.
  intros [Hp Hw Hh Hl].
  assert (Hn : normal (collapse false r)).
  { split.
    - apply collapse_Forall; [exact plain_blank|done].
    - by apply keep_collapse.
    - by apply no_lead_collapse.
    - by apply no_lead_rev_collapse. }
  split; [|done]. destruct r as [|c r]; [done|]. rewrite normalize_cons.
  destruct Hn as [Hp' Hw' Hh' Hl'].
  rewrite filter_all.
  2:{ eapply Forall_impl; [exact Hp'|]. intros x Hx. by apply plain_word_or_space. }
  rewrite (map_lower_fixed _ Hp'), (drop_stop_words_fixed _ Hw').
  by apply strip_fixed.
Qed.

Lemma normalize_twice s : normalize (normalize s) = collapse false (normalize s).
Proof. apply normalize_normal, normal_normalize. Qed.

Lemma normalize_thrice s : normalize (normalize (normalize s)) = normalize (normalize s).
Proof. rewrite normalize_twice, normalize_twice. apply collapse_idem. Qed.

Lemma normalize_text_chars x :
  _normalize_text x = string_of_list_ascii (normalize (list_ascii_of_string x)).
Proof.
  unfold _normalize_text. destruct x as [|c x]; [done|].
  change (String.eqb (String c x) "") with false. cbv iota.
  unfold Re.sub, Str.lower, Str.strip, Str.chars, Str.of_chars.
  by rewrite !list_ascii_of_string_of_list_ascii.
Qed.

(** C2, as the code has it, for every text [x] of code points up to U+00FF.
    A second application of [_normalize_text] does no more than the first
    substitution of the function does, collapsing the runs of blanks that
    the removals of the first application left behind; from the second
    application on the text is a fixed point.  (The range is needed: above
    it [str.lower] can produce a character that the next application
    strips.) *)
Theorem normalize_text_stabilises x :
  let once := _normalize_text x in
  _normalize_text once = Re.sub false Patterns.whitespace_run " " once
  ∧ _normalize_text (_normalize_text once) = _normalize_text once.
Proof.
  cbv zeta. rewrite !normalize_text_chars, !list_ascii_of_string_of_list_ascii.
  split.
  - unfold Re.sub. rewrite list_ascii_of_string_of_list_ascii.
    change (list_ascii_of_string " ") with [" "%char].
    by rewrite (proj1 (sub_whitespace _)), normalize_twice.
  - by rewrite normalize_thrice.
Qed.

(** C2, as stated, fails: removing the stop word leaves two blanks side by
    side, which only the next application collapses. *)
Lemma normalize_text_not_idempotent :
  _normalize_text "x the y" = "x  y"
  ∧ _normalize_text (_normalize_text "x the y") = "x y"
  ∧ _normalize_text (_normalize_text "x the y") ≠ _normalize_text "x the y".
Proof. split_and!; [reflexivity|reflexivity|discriminate]. Qed.

End Idempotence.

(** ** Further properties of the filters *)

(** X3. Once more than 24 hours have passed since the last reset,
    [cleanup_cache] empties the whole cache and records the reset time, so
    that no signature stored before can give an exact-duplicate answer. *)
Theorem cache_reset_after_ttl self c :
  (hash_cache_expiry < Datetime.sub (Datetime.now c) (last_cache_cleanup self))%Z →
  recent_hashes (cleanup_cache self c) = ∅
  ∧ last_cache_cleanup (cleanup_cache self c) = Datetime.now c
  ∧ ∀ t body arts,
      fst (is_duplicate (cleanup_cache self c) c t body arts)
      ≠ (true, Some "exact_duplicate").
Proof.
  intros H. unfold cleanup_cache. rewrite (proj2 (Z.ltb_lt _ _) H).
  cbn [recent_hashes last_cache_cleanup].
  split_and!; [done|done|]. intros t body arts. rewrite is_duplicate_verdict.
  cbn [recent_hashes]. destruct (decide _) as [Hin|_].
  - by apply not_elem_of_empty in Hin.
  - destruct (scan_existing _ _ _ _) as [r|] eqn:Hr; [|discriminate].
    destruct (scan_existing_reason _ _ _ _ _ Hr) as [-> | ->]; discriminate.
Qed.

Lemma cache_reset_after_ttl_witness :
  recent_hashes (cleanup_cache Sample.other_cache Sample.next_day) = ∅
  ∧ last_cache_cleanup (cleanup_cache Sample.other_cache Sample.next_day)
    = Datetime.now Sample.next_day
  ∧ ∀ t body arts,
      fst (is_duplicate (cleanup_cache Sample.other_cache Sample.next_day)
             Sample.next_day t body arts)
      ≠ (true, Some "exact_duplicate").
Proof.
  apply (cache_reset_after_ttl Sample.other_cache Sample.next_day). reflexivity.
Defined.

(** ** Strings *)

Section Strings.

Lemma chars_of_chars s : Str.chars (Str.of_chars s) = s.
Proof. apply list_ascii_of_string_of_list_ascii. Qed.

Lemma of_chars_chars s : Str.of_chars (Str.chars s) = s.
Proof. apply string_of_list_ascii_of_string. Qed.

Lemma chars_app s1 s2 : Str.chars (s1 +:+ s2) = Str.chars s1 ++ Str.chars s2.
Proof.
  unfold Str.chars. induction s1 as [|c s1 IH]; [done|].
  change (String c s1 +:+ s2) with (String c (s1 +:+ s2)).
  cbn [list_ascii_of_string app]. by f_equal.
Qed.

Lemma of_chars_app l1 l2 : Str.of_chars (l1 ++ l2) = Str.of_chars l1 +:+ Str.of_chars l2.
Proof.
  unfold Str.of_chars. induction l1 as [|c l1 IH]; [done|].
  cbn [string_of_list_ascii app]. rewrite IH. reflexivity.
Qed.

Lemma prefix_app n s more :
  (n ≤ Str.len s)%nat → Str.prefix n (s +:+ more) = Str.prefix n s.
Proof.
  intros H. unfold Str.prefix. rewrite chars_app. f_equal.
  unfold Str.len in H. by rewrite take_app_le.
Qed.

Lemma lower_app s1 s2 : Str.lower (s1 +:+ s2) = Str.lower s1 +:+ Str.lower s2.
Proof.
  unfold Str.lower, Str.lower_chars. by rewrite chars_app, map_app, of_chars_app.
Qed.

Lemma lower_prefix n s : Str.lower (Str.prefix n s) = Str.prefix n (Str.lower s).
Proof.
  unfold Str.lower, Str.prefix, Str.lower_chars. rewrite !chars_of_chars.
  f_equal. apply (fmap_take Chars.lower).
Qed.

Lemma lower_chars_eq s1 s2 :
  Str.lower s1 = Str.lower s2 →
  Str.lower_chars (Str.chars s1) = Str.lower_chars (Str.chars s2).
Proof.
  unfold Str.lower. intros H. apply (f_equal Str.chars) in H.
  by rewrite !chars_of_chars in H.
Qed.

End Strings.

(** ** Literal patterns under [re.IGNORECASE] *)

Section Literals.
Import Text Re.

Lemma eqb_lower_lit (t c : ascii) :
  Re.cset_match true (CLit c) t = Ascii.eqb (Chars.lower t) (Chars.lower c).
Proof. reflexivity. Qed.

Lemma run_lit_ic w :
  ∀ prev s,
    match Re.run true (Re.lit w) prev s with [] => false | _ :: _ => true end
    = match after (Str.lower_chars (Str.chars w)) (Str.lower_chars s) with
      | Some _ => true | None => false end.
Proof.
  induction w as [|c w IH]; intros prev s; [reflexivity|].
  destruct w as [|c' w].
  - cbn [lit run Str.chars list_ascii_of_string Str.lower_chars map after].
    destruct s as [|t s]; [reflexivity|]. cbn [Str.lower_chars map after].
    rewrite eqb_lower_lit. by destruct (Ascii.eqb _ _).
  - change (lit (String c (String c' w))) with (Seq (One (CLit c)) (lit (String c' w))).
    cbn [run]. change (Str.chars (String c (String c' w))) with (c :: Str.chars (String c' w)).
    cbn [Str.lower_chars map]. fold (Str.lower_chars (Str.chars (String c' w))).
    destruct s as [|t s]; [reflexivity|]. cbn [Str.lower_chars map after].
    rewrite eqb_lower_lit.
    fold (Str.lower_chars s).
    destruct (Ascii.eqb _ _); [|reflexivity].
    cbn [flat_map fst snd]. rewrite app_nil_r. apply IH.
Qed.

Lemma search_from_lit w :
  ∀ prev s,
    Re.search_from true (Re.lit w) prev s
    = Substring.contains_chars (Str.lower_chars (Str.chars w)) (Str.lower_chars s).
Proof.
  intros prev s. revert prev. induction s as [|t s IH]; intros prev.
  - cbn [search_from Substring.contains_chars Str.lower_chars map]. unfold match_here.
    pose proof (run_lit_ic w prev []) as H. cbn [Str.lower_chars map] in H.
    destruct (run true (lit w) prev []); destruct (after _ []); done.
  - cbn [search_from Substring.contains_chars Str.lower_chars map]. unfold match_here.
    pose proof (run_lit_ic w prev (t :: s)) as H. cbn [Str.lower_chars map] in H.
    fold (Str.lower_chars s) in *.
    destruct (run true (lit w) prev (t :: s)); destruct (after _ (_ :: _)); done.
Qed.

Lemma search_lit w s :
  Re.search true (Re.lit w) s = Substring.contains (Str.lower w) (Str.lower s).
Proof.
  unfold search, Substring.contains, Str.lower. rewrite !chars_of_chars. apply search_from_lit.
Qed.

End Literals.

Lemma any_pattern_lits ws text :
  any_pattern (map Re.lit ws) text
  = existsb (λ w, Substring.contains (Str.lower w) (Str.lower text)) ws.
Proof.
  unfold any_pattern. induction ws as [|w ws IH]; [reflexivity|].
  cbn [map existsb]. by rewrite search_lit, IH.
Qed.

Lemma is_filtered_url_segments url :
  _is_filtered_url url = existsb (λ seg, Substring.contains seg (Str.lower url)) url_segments.
Proof.
  unfold _is_filtered_url.
  change Patterns.filtered_patterns with (map Re.lit url_segments).
  rewrite any_pattern_lits. reflexivity.
Qed.

(** ** The filters on phrases and on the url *)

Section Phrases.

Lemma any_pattern_lit patterns text phrase :
  Re.lit phrase ∈ patterns → mentions text phrase = true →
  any_pattern patterns text = true.
Proof.
  intros Hin Hm. unfold any_pattern. apply existsb_exists. exists (Re.lit phrase).
  split; [by apply list_elem_of_In|]. by rewrite search_lit.
Qed.

Lemma wire_phrases_in_table phrase :
  phrase ∈ wire_phrases → Re.lit phrase ∈ Patterns.wire_service_patterns.
Proof.
  intros H. apply list_elem_of_In in H. apply list_elem_of_In. simpl in H.
  repeat (destruct H as [<-|H]; [simpl; tauto|]). destruct H.
Qed.

Lemma pr_phrases_in_table phrase :
  phrase ∈ pr_phrases → Re.lit phrase ∈ Patterns.pr_patterns.
Proof.
  intros H. apply list_elem_of_In in H. apply list_elem_of_In. simpl in H.
  repeat (destruct H as [<-|H]; [simpl; tauto|]). destruct H.
Qed.

Lemma low_value_phrases_in_table phrase :
  phrase ∈ low_value_phrases → Re.lit phrase ∈ Patterns.low_value_patterns.
Proof.
  intros H. apply list_elem_of_In in H. apply list_elem_of_In. simpl in H.
  repeat (destruct H as [<-|H]; [simpl; tauto|]). destruct H.
Qed.

Lemma flag_reason (b : bool) r pre post : b = true → r ∈ pre ++ flag b r ++ post.
Proof. intros ->. rewrite !elem_of_app. right. left. by left. Qed.

End Phrases.

(** X13. When the text [title + " " + content] contains, letter case
    ignored, one of the phrases that the three tables hold as plain text,
    the verdict carries the reason of that table (wire service, promotional
    or low value) and the item is rejected.  The phrase is looked for in the
    concatenation, so it may start in the title and end in the content. *)
Theorem stock_phrase_rejects self c title content url ea phrase :
  let r := should_process_article self c title content url ea in
  mentions (title +:+ " " +:+ content) phrase = true →
  (phrase ∈ wire_phrases → "wire_service" ∈ reasons r ∧ accept r = false)
  ∧ (phrase ∈ pr_phrases → "pr_content" ∈ reasons r ∧ accept r = false)
  ∧ (phrase ∈ low_value_phrases → "low_value_content" ∈ reasons r ∧ accept r = false).
Proof.
  intros r Hm. subst r. rewrite should_process_article_eq. unfold reasons, accept.
  cbn [fst snd]. split_and!; intros Hp.
  - assert (E : is_wire_service_content title content = true).
    { unfold is_wire_service_content. cbv zeta.
      by rewrite (any_pattern_lit _ _ phrase (wire_phrases_in_table _ Hp) Hm). }
    rewrite E. split.
    + rewrite !elem_of_app. right. left. by left.
    + rewrite !length_app. cbn [flag length]. apply Nat.eqb_neq. lia.
  - assert (E : is_pr_content title content = true).
    { unfold is_pr_content. cbv zeta.
      by rewrite (any_pattern_lit _ _ phrase (pr_phrases_in_table _ Hp) Hm). }
    rewrite E. split.
    + rewrite !elem_of_app. right. right. left. by left.
    + rewrite !length_app. cbn [flag length]. apply Nat.eqb_neq. lia.
  - assert (E : is_low_value_content title content = true).
    { unfold is_low_value_content. cbv zeta.
      destruct (_ <? _)%nat; [done|].
      by rewrite (any_pattern_lit _ _ phrase (low_value_phrases_in_table _ Hp) Hm). }
    rewrite E. split.
    + rewrite !elem_of_app. left. by left.
    + rewrite !length_app. cbn [flag length]. apply Nat.eqb_neq. lia.
Qed.

Lemma stock_phrase_rejects_witness :
  let r := should_process_article Sample.fresh Sample.noon "Council issues press"
             "release on budget" Sample.story_url None in
  "pr_content" ∈ reasons r ∧ accept r = false.
Proof.
  apply (stock_phrase_rejects Sample.fresh Sample.noon "Council issues press"
           "release on budget" Sample.story_url None "press release").
  - vm_compute. reflexivity.
  - apply list_elem_of_In. simpl. tauto.
Defined.

(** X2. On a url of code points up to U+00FF (any ASCII url, for one),
    [_is_filtered_url] is a substring test: it answers [True] exactly when
    the lower-cased url contains one of the ten path segments.  The url
    reason is in the verdict of [should_process_article] exactly when
    [_is_filtered_url] answers [True], and the item is then rejected
    whatever its text, the window and the cache. *)
Theorem url_filter_is_a_substring_test self c title content url ea :
  let r := should_process_article self c title content url ea in
  _is_filtered_url url = existsb (λ seg, Substring.contains seg (Str.lower url)) url_segments
  ∧ ("filtered_url" ∈ reasons r ↔ _is_filtered_url url = true)
  ∧ (_is_filtered_url url = true → accept r = false).
Proof.
  intros r. subst r. split; [apply is_filtered_url_segments|].
  rewrite should_process_article_eq. unfold reasons, accept. cbn [fst snd].
  split.
  - destruct (_is_filtered_url url).
    + split; [done|]. intros _. rewrite !elem_of_app. right. right. right. right. by left.
    + split; [|done]. cbn [flag]. rewrite !app_nil_r. intros Hin. exfalso.
      destruct (duplicate_step_reasons self c title content ea) as [Hd|(d & Hd & Hd')].
      * rewrite Hd, app_nil_r in Hin.
        destruct (is_low_value_content _ _), (is_wire_service_content _ _),
          (is_pr_content _ _); cbn [flag app] in Hin;
          apply list_elem_of_In in Hin; simpl in Hin; intuition discriminate.
      * rewrite Hd' in Hin. apply list_elem_of_In in Hd. simpl in Hd.
        destruct Hd as [<-|[<-|[<-|[]]]];
        destruct (is_low_value_content _ _), (is_wire_service_content _ _),
          (is_pr_content _ _); cbn [flag app] in Hin;
          apply list_elem_of_In in Hin; simpl in Hin; intuition discriminate.
  - intros ->. rewrite !length_app. cbn [flag length]. apply Nat.eqb_neq. lia.
Qed.

(** *** Patterns with gaps *)

Section Gaps.
Import Re.

Lemma run_seqs_elem ic r rs prev s p :
  (∃ q, q ∈ run ic r prev s ∧ p ∈ run ic (seqs rs) (fst q) (snd q)) →
  p ∈ run ic (seqs (r :: rs)) prev s.
Proof.
  intros (q & Hq & Hp). destruct rs as [|r' rs].
  - cbn [seqs run] in *. apply list_elem_of_singleton in Hp as ->. by destruct q.
  - change (seqs (r :: r' :: rs)) with (Seq r (seqs (r' :: rs))). cbn [run].
    apply list_elem_of_In, in_flat_map. exists q. split; by apply list_elem_of_In.
Qed.

Lemma run_lit_elem w :
  ∀ x prev rest,
    Str.lower_chars x = Str.lower_chars (Str.chars w) →
    ∃ prev', (prev', rest) ∈ run true (lit w) prev (x ++ rest).
Proof.
  induction w as [|c w IH]; intros x prev rest Hx.
  - destruct x; [|discriminate]. exists prev. cbn [lit run app]. by left.
  - change (Str.chars (String c w)) with (c :: Str.chars w) in Hx.
    destruct x as [|t x]; [discriminate|]. cbn [Str.lower_chars map] in Hx.
    injection Hx as Ht Hx. fold (Str.lower_chars x) in Hx.
    fold (Str.lower_chars (Str.chars w)) in Hx.
    assert (Hm : cset_match true (CLit c) t = true).
    { rewrite eqb_lower_lit, Ht. apply Ascii.eqb_refl. }
    destruct w as [|c' w].
    + destruct x; [|discriminate]. exists (Some t). cbn [lit run app].
      rewrite Hm. by left.
    + destruct (IH x (Some t) rest Hx) as (prev' & Hp). exists prev'.
      change (lit (String c (String c' w))) with (Seq (One (CLit c)) (lit (String c' w))).
      cbn [run app]. rewrite Hm. cbn [flat_map fst snd]. by rewrite app_nil_r.
Qed.

Lemma many_elem_of ic cs x :
  ∀ prev rest,
    Forall (λ c, cset_match ic cs c = true) x →
    ∃ prev', (prev', rest) ∈ many ic cs 0 prev (x ++ rest).
Proof.
  induction x as [|t x IH]; intros prev rest Hx.
  - exists prev. cbn [app]. destruct rest as [|t rest]; cbn [many Nat.eqb]; [by left|].
    destruct (cset_match ic cs t); [|by left]. apply elem_of_app. right. by left.
  - apply Forall_cons in Hx as [Ht Hx]. destruct (IH (Some t) rest Hx) as (prev' & Hp).
    exists prev'. cbn [app many]. rewrite Ht. apply elem_of_app. by left.
Qed.

Lemma run_piece p x :
  instance p x →
  ∀ prev rest, ∃ prev', (prev', rest) ∈ run true (piece_regex p) prev (x ++ rest).
Proof.
  intros Hx prev rest. destruct p as [w| | |]; cbn [instance piece_regex] in *.
  - by apply run_lit_elem.
  - apply many_elem_of, Forall_forall. intros c Hc. cbn [cset_match].
    apply negb_true_iff, Ascii.eqb_neq. by intros ->.
  - by apply many_elem_of.
  - destruct Hx as (c & -> & Hc). exists (Some c). cbn [run app cset_match].
    rewrite Hc. by left.
Qed.

Lemma run_gapped ps :
  ∀ m prev rest,
    spells ps m → ∃ prev', (prev', rest) ∈ run true (gapped ps) prev (m ++ rest).
Proof.
  unfold gapped. induction ps as [|p ps IH]; intros m prev rest Hm; cbn [spells] in Hm.
  - subst m. exists prev. cbn. by left.
  - destruct Hm as (x & m' & -> & Hx & Hm').
    destruct (run_piece p x Hx prev (m' ++ rest)) as (prev1 & H1).
    destruct (IH m' prev1 rest Hm') as (prev' & H2).
    exists prev'. rewrite fmap_cons, <- app_assoc. apply run_seqs_elem.
    by exists (prev1, m' ++ rest).
Qed.

Lemma search_from_found ic r s :
  (∀ prev, run ic r prev s ≠ []) →
  ∀ pre prev, search_from ic r prev (pre ++ s) = true.
Proof.
  intros Hs pre. induction pre as [|t pre IH]; intros prev.
  - cbn [app]. specialize (Hs prev).
    destruct s; cbn [search_from]; unfold match_here; by destruct (run ic r prev _).
  - cbn [app search_from]. destruct (match_here _ _ _ _); [done|apply IH].
Qed.

Lemma search_gapped ps text pre m post :
  Str.chars text = pre ++ m ++ post → spells ps m →
  Re.search true (gapped ps) text = true.
Proof.
  intros Ht Hm. unfold search. change (list_ascii_of_string text) with (Str.chars text).
  rewrite Ht. apply search_from_found. intros prev.
  destruct (run_gapped ps m prev post Hm) as (prev' & Hp). intros E.
  rewrite E in Hp. by apply elem_of_nil in Hp.
Qed.

Lemma any_pattern_gapped patterns ps text pre m post :
  gapped ps ∈ patterns → Str.chars text = pre ++ m ++ post → spells ps m →
  any_pattern patterns text = true.
Proof.
  intros Hin Ht Hm. unfold any_pattern. apply existsb_exists. exists (gapped ps).
  split; [by apply list_elem_of_In|]. by apply (search_gapped ps text pre m post).
Qed.

Lemma wire_gapped_in_table ps :
  ps ∈ wire_gapped → gapped ps ∈ Patterns.wire_service_patterns.
Proof.
  intros H. apply list_elem_of_In in H. apply list_elem_of_In. simpl in H.
  repeat (destruct H as [<-|H]; [repeat first [left; reflexivity|right]|]). destruct H.
Qed.

Lemma pr_gapped_in_table ps :
  ps ∈ pr_gapped → gapped ps ∈ Patterns.pr_patterns.
Proof.
  intros H. apply list_elem_of_In in H. apply list_elem_of_In. simpl in H.
  repeat (destruct H as [<-|H]; [repeat first [left; reflexivity|right]|]). destruct H.
Qed.

End Gaps.

(** X22. The nine patterns of the wire-service and promotional tables
    that have gaps and no anchor reject every item whose text
    [title + " " + content] has, anywhere in it, an instance of each piece of
    the pattern in order: the phrases in any letter case, for [.*] any text
    without a line feed, for [\s*] any white space.  The phrases are not
    asked to be whole words: with [Source:.*AP\s], the letters [ap] at the
    end of any word that follows [source:] on the line are enough. *)
Theorem gapped_phrase_rejects self c title content url ea ps pre m post :
  let r := should_process_article self c title content url ea in
  Str.chars (title +:+ " " +:+ content) = pre ++ m ++ post →
  spells ps m →
  (ps ∈ wire_gapped → "wire_service" ∈ reasons r ∧ accept r = false)
  ∧ (ps ∈ pr_gapped → "pr_content" ∈ reasons r ∧ accept r = false).
Proof.
  intros r Ht Hm. subst r. rewrite should_process_article_eq. unfold reasons, accept.
  cbn [fst snd]. split; intros Hp.
  - assert (E : is_wire_service_content title content = true).
    { unfold is_wire_service_content. cbv zeta.
      by rewrite (any_pattern_gapped _ ps _ pre m post (wire_gapped_in_table _ Hp) Ht Hm). }
    rewrite E. split.
    + rewrite !elem_of_app. right. left. by left.
    + rewrite !length_app. cbn [flag length]. apply Nat.eqb_neq. lia.
  - assert (E : is_pr_content title content = true).
    { unfold is_pr_content. cbv zeta.
      by rewrite (any_pattern_gapped _ ps _ pre m post (pr_gapped_in_table _ Hp) Ht Hm). }
    rewrite E. split.
    + rewrite !elem_of_app. right. right. left. by left.
    + rewrite !length_app. cbn [flag length]. apply Nat.eqb_neq. lia.
Qed.

Lemma gapped_phrase_rejects_witness :
  let r := should_process_article Sample.fresh Sample.noon "Flood warning for the valley"
             "Source: a map of the river basin" Sample.story_url None in
  "wire_service" ∈ reasons r ∧ accept r = false.
Proof.
  apply (gapped_phrase_rejects Sample.fresh Sample.noon "Flood warning for the valley"
           "Source: a map of the river basin" Sample.story_url None
           [Phrase "Source:"; SameLine; Phrase "AP"; Blank]
           (Str.chars "Flood warning for the valley ") (Str.chars "Source: a map ")
           (Str.chars "of the river basin")).
  - reflexivity.
  - exists (Str.chars "Source:"), (Str.chars " a map "). split; [reflexivity|].
    split; [reflexivity|].
    exists (Str.chars " a m"), (Str.chars "ap "). split; [reflexivity|].
    split; [apply (bool_decide_unpack _); vm_compute; exact I|].
    exists (Str.chars "ap"), (Str.chars " "). split; [reflexivity|].
    split; [reflexivity|].
    exists (Str.chars " "), []. split; [reflexivity|].
    split; [|reflexivity]. exists " "%char. split; reflexivity.
  - apply list_elem_of_In. simpl. tauto.
Defined.

(** ** Letter case *)

Section LetterCase.
Import Text.

Lemma lower_space c : Chars.is_space (Chars.lower c) = Chars.is_space c.
Proof. destruct c as [[] [] [] [] [] [] [] []]; reflexivity. Qed.

Lemma collapse_lower b s :
  collapse b (Str.lower_chars s) = Str.lower_chars (collapse b s).
Proof.
  revert b. induction s as [|c s IH]; intros b; [done|].
  cbn [Str.lower_chars map collapse]. fold (Str.lower_chars s).
  rewrite lower_space. destruct (Chars.is_space c), b; cbn [Str.lower_chars map];
    fold (Str.lower_chars (collapse true s)); fold (Str.lower_chars (collapse false s));
    by rewrite IH.
Qed.

Lemma filter_lower s :
  filter (λ c, Chars.is_word c || Chars.is_space c = true) (Str.lower_chars s)
  = Str.lower_chars (filter (λ c, Chars.is_word c || Chars.is_space c = true) s).
Proof.
  induction s as [|c s IH]; [done|].
  cbn [Str.lower_chars map]. fold (Str.lower_chars s). rewrite !filter_cons.
  rewrite lower_word, lower_space.
  destruct (decide _); cbn [Str.lower_chars map]; by rewrite IH.
Qed.

Lemma lower_chars_idem s : Str.lower_chars (Str.lower_chars s) = Str.lower_chars s.
Proof.
  unfold Str.lower_chars. rewrite map_map. apply map_ext. intros c. apply lower_lower.
Qed.

(** The normal text of a text is that of its lower-case form. *)
Lemma normalize_lower s : normalize (Str.lower_chars s) = normalize s.
Proof.
  destruct s as [|c s]; [done|].
  change (Str.lower_chars (c :: s)) with (Chars.lower c :: Str.lower_chars s).
  rewrite !normalize_cons.
  change (Chars.lower c :: Str.lower_chars s) with (Str.lower_chars (c :: s)).
  by rewrite collapse_lower, filter_lower, lower_chars_idem.
Qed.

Lemma normalize_text_lower x : _normalize_text (Str.lower x) = _normalize_text x.
Proof.
  rewrite !normalize_text_chars. unfold Str.lower.
  change list_ascii_of_string with Str.chars. rewrite chars_of_chars.
  by rewrite normalize_lower.
Qed.

Lemma normalize_text_same_case x y :
  Str.lower x = Str.lower y → _normalize_text x = _normalize_text y.
Proof. intros H. by rewrite <- (normalize_text_lower x), H, normalize_text_lower. Qed.

End LetterCase.

Lemma lower_idem s : Str.lower (Str.lower s) = Str.lower s.
Proof. unfold Str.lower. by rewrite chars_of_chars, lower_chars_idem. Qed.

Lemma content_signature_same_case t1 b1 t2 b2 :
  Str.lower t1 = Str.lower t2 → Str.lower b1 = Str.lower b2 →
  create_content_signature t1 b1 = create_content_signature t2 b2.
Proof.
  intros Ht Hb. unfold create_content_signature. cbv zeta.
  rewrite (normalize_text_same_case t1 t2 Ht).
  rewrite (normalize_text_same_case (Str.prefix 1000 b1) (Str.prefix 1000 b2)); [done|].
  by rewrite !lower_prefix, Hb.
Qed.

Lemma fuzzy_signature_same_case t1 b1 t2 b2 :
  Str.lower t1 = Str.lower t2 → Str.lower b1 = Str.lower b2 →
  create_fuzzy_signature t1 b1 = create_fuzzy_signature t2 b2.
Proof.
  intros Ht Hb. unfold create_fuzzy_signature. cbv zeta.
  by rewrite Ht, !lower_prefix, Hb.
Qed.

Lemma comparison_text_same_case t1 b1 t2 b2 :
  Str.lower t1 = Str.lower t2 → Str.lower b1 = Str.lower b2 →
  comparison_text t1 b1 = comparison_text t2 b2.
Proof.
  intros Ht Hb. unfold comparison_text. apply normalize_text_same_case.
  by rewrite !lower_app, !lower_prefix, Ht, Hb.
Qed.

(** X14. Two items of code points up to U+00FF whose titles, and whose
    contents, have the same lower-case form have the same exact signature
    and the same fuzzy signature, and [is_duplicate] gives the same answer
    and engine state for both. *)
Theorem signatures_ignore_letter_case t1 b1 t2 b2 :
  Str.lower t1 = Str.lower t2 → Str.lower b1 = Str.lower b2 →
  create_content_signature t1 b1 = create_content_signature t2 b2
  ∧ create_fuzzy_signature t1 b1 = create_fuzzy_signature t2 b2
  ∧ ∀ self c arts, is_duplicate self c t1 b1 arts = is_duplicate self c t2 b2 arts.
Proof.
  intros Ht Hb. split_and!.
  - by apply content_signature_same_case.
  - by apply fuzzy_signature_same_case.
  - intros self c arts. unfold is_duplicate. cbv zeta.
    fold (comparison_text t1 b1). fold (comparison_text t2 b2).
    by rewrite (content_signature_same_case _ _ _ _ Ht Hb),
      (fuzzy_signature_same_case _ _ _ _ Ht Hb), (comparison_text_same_case _ _ _ _ Ht Hb).
Qed.

Lemma signatures_ignore_letter_case_witness :
  create_content_signature Cases.shouted_title "" = create_content_signature Sample.highway_title ""
  ∧ create_fuzzy_signature Cases.shouted_title ""
    = create_fuzzy_signature Sample.highway_title ""
  ∧ ∀ self c arts,
      is_duplicate self c Cases.shouted_title "" arts
      = is_duplicate self c Sample.highway_title "" arts.
Proof.
  apply (signatures_ignore_letter_case Cases.shouted_title "" Sample.highway_title "");
    vm_compute; reflexivity.
Defined.

(** X15. The exact signature reads the first 1000 characters of the
    content only: text added after them does not change it.  So once
    [is_duplicate] has answered "no duplicate" for an item, the same title
    with the longer content is an exact duplicate on the resulting engine. *)
Theorem content_past_1000_is_ignored self c c' t body more arts arts' :
  (1000 ≤ Str.len body)%nat →
  create_content_signature t (body +:+ more) = create_content_signature t body
  ∧ (fst (fst (is_duplicate self c t body arts)) = false →
     is_duplicate (snd (is_duplicate self c t body arts)) c' t (body +:+ more) arts'
     = ((true, Some "exact_duplicate"), snd (is_duplicate self c t body arts))).
Proof.
  intros H.
  assert (E : create_content_signature t (body +:+ more) = create_content_signature t body).
  { unfold create_content_signature. cbv zeta. by rewrite prefix_app. }
  split; [exact E|]. intros Hno.
  apply is_duplicate_seen. rewrite E.
  unfold is_duplicate in *. destruct (decide _) as [Hin|Hout]; [done|].
  destruct (scan_existing _ _ _ _); [done|]. cbn [snd recent_hashes].
  apply elem_of_union_l, elem_of_singleton_2. reflexivity.
Qed.

Lemma content_past_1000_is_ignored_witness :
  create_content_signature Sample.story_title (Cases.long_body +:+ "One more sentence.")
  = create_content_signature Sample.story_title Cases.long_body.
Proof.
  apply (content_past_1000_is_ignored Sample.fresh Sample.noon Sample.noon Sample.story_title
           Cases.long_body "One more sentence." [] []).
  vm_compute. lia.
Defined.

(** ** The key words of the fuzzy signature *)

Section Sorting.
Import Builtins.

Lemma ascii_compare_refl c : Ascii.compare c c = Eq.
Proof. unfold Ascii.compare. apply N.compare_refl. Qed.

Lemma ascii_compare_trans c1 c2 c3 o :
  Ascii.compare c1 c2 = o → Ascii.compare c2 c3 = o → Ascii.compare c1 c3 = o.
Proof.
  unfold Ascii.compare. destruct o; intros H1 H2.
  - apply N.compare_eq in H1, H2. rewrite H1, H2. apply N.compare_refl.
  - rewrite N.compare_lt_iff in *. lia.
  - rewrite N.compare_gt_iff in *. lia.
Qed.

Lemma string_compare_lt_trans s1 :
  ∀ s2 s3, String.compare s1 s2 = Lt → String.compare s2 s3 = Lt →
           String.compare s1 s3 = Lt.
Proof.
  induction s1 as [|c1 s1 IH]; intros [|c2 s2] [|c3 s3]; simpl; try done.
  destruct (Ascii.compare c1 c2) eqn:E12; [|intros _|done].
  - apply Ascii.compare_eq_iff in E12 as ->.
    destruct (Ascii.compare c2 c3); [apply IH|done|done].
  - destruct (Ascii.compare c2 c3) eqn:E23; [| |done].
    + apply Ascii.compare_eq_iff in E23 as <-. by rewrite E12.
    + by rewrite (ascii_compare_trans _ _ _ Lt E12 E23).
Qed.

#[local] Instance str_le_trans : Transitive str_le.
Proof.
  intros x y z. unfold str_le, String.leb.
  destruct (String.compare x y) eqn:Exy; [|intros _|done].
  - apply String.compare_eq_iff in Exy as ->. done.
  - destruct (String.compare y z) eqn:Eyz; [|intros _|done].
    + apply String.compare_eq_iff in Eyz as <-. by rewrite Exy.
    + by rewrite (string_compare_lt_trans _ _ _ Exy Eyz).
Qed.

#[local] Instance str_le_antisym : AntiSymm eq str_le.
Proof. intros x y. apply String.leb_antisym. Qed.

Lemma insert_sorted_perm x l : insert_sorted x l ≡ₚ x :: l.
Proof.
  induction l as [|y l IH]; [done|]. simpl. destruct (String.leb x y); [done|].
  rewrite IH. apply perm_swap.
Qed.

Lemma sorted_perm l : sorted l ≡ₚ l.
Proof.
  unfold sorted. induction l as [|x l IH]; [done|]. simpl.
  by rewrite insert_sorted_perm, IH.
Qed.

Lemma insert_sorted_Sorted x l : Sorted str_le l → Sorted str_le (insert_sorted x l).
Proof.
  induction 1 as [|y l Hl IH Hy]; simpl; [by repeat constructor|].
  destruct (String.leb x y) eqn:E.
  - constructor; [by constructor|]. by constructor.
  - assert (Hyx : str_le y x).
    { destruct (String.leb_total x y) as [H|H]; [congruence|exact H]. }
    constructor; [exact IH|].
    destruct l as [|z l]; simpl; [by constructor|].
    destruct (String.leb x z); constructor; [done|]. by apply HdRel_inv in Hy.
Qed.

Lemma sorted_Sorted l : Sorted str_le (sorted l).
Proof.
  unfold sorted. induction l as [|x l IH]; simpl; [constructor|].
  by apply insert_sorted_Sorted.
Qed.

(** Sorting a sorted list changes nothing. *)
Lemma sorted_fixed l : Sorted str_le l → sorted l = l.
Proof.
  unfold sorted. induction 1 as [|x l Hl IH Hx]; [done|]. simpl. rewrite IH.
  destruct Hx as [|y l Hxy]; simpl; [done|]. by rewrite Hxy.
Qed.

Lemma Sorted_take n l : Sorted str_le l → Sorted str_le (take n l).
Proof.
  intros H. revert n. induction H as [|x l Hl IH Hx]; intros n; [by destruct n|].
  destruct n as [|n]; simpl; [constructor|]. constructor; [apply IH|].
  destruct Hx as [|y l Hxy]; [destruct n; constructor|].
  destruct n; simpl; by constructor.
Qed.

(** The sorted list of a set is fixed by its members. *)
Lemma sorted_by_members l k :
  NoDup l → NoDup k → (∀ x, x ∈ l ↔ x ∈ k) → sorted l = sorted k.
Proof.
  intros Hl Hk H. apply (Sorted_unique str_le); [apply sorted_Sorted..|].
  rewrite !sorted_perm. by apply NoDup_Permutation.
Qed.

End Sorting.

Lemma fuzzy_signature_key_words t body :
  create_fuzzy_signature t body
  = md5_hex (Str.join "|" (take 10 (Builtins.sorted (remove_dups (key_words t body))))).
Proof.
  unfold create_fuzzy_signature, key_words. cbv zeta.
  set (A := Re.findall false Patterns.key_word (Str.lower t)).
  set (B := Re.findall false Patterns.key_word (Str.lower (Str.prefix 500 body))).
  rewrite sorted_fixed by apply Sorted_take, sorted_Sorted.
  do 3 f_equal. apply sorted_by_members; [apply NoDup_remove_dups..|].
  intros x. unfold Builtins.union, Builtins.set_of.
  rewrite !elem_of_remove_dups, !elem_of_app, !elem_of_remove_dups. done.
Qed.

Lemma fuzzy_signature_by_members t1 b1 t2 b2 :
  (∀ w, w ∈ key_words t1 b1 ↔ w ∈ key_words t2 b2) →
  create_fuzzy_signature t1 b1 = create_fuzzy_signature t2 b2.
Proof.
  intros H. rewrite !fuzzy_signature_key_words. do 3 f_equal.
  apply sorted_by_members; [apply NoDup_remove_dups..|].
  intros x. by rewrite !elem_of_remove_dups.
Qed.

Lemma fuzzy_signature_no_key_words t body :
  key_words t body = [] →
  create_fuzzy_signature t body = "d41d8cd98f00b204e9800998ecf8427e".
Proof. intros H. rewrite fuzzy_signature_key_words, H. vm_compute. reflexivity. Qed.

(** X16. The fuzzy signature is the MD5 digest of the first ten, in
    alphabetical order, of the distinct key words of the title and of the
    first 500 characters of the content, joined by [|]; the second sort of
    the source changes nothing.  So two items with the same set of key words
    have the same fuzzy signature, whatever the order, the repetitions and
    the place (title or content) of the words. *)
Theorem fuzzy_signature_is_fixed_by_key_word_set t body :
  create_fuzzy_signature t body
  = md5_hex (Str.join "|" (take 10 (Builtins.sorted (remove_dups (key_words t body)))))
  ∧ ∀ t' body',
      (∀ w, w ∈ key_words t body ↔ w ∈ key_words t' body') →
      create_fuzzy_signature t body = create_fuzzy_signature t' body'.
Proof.
  split; [apply fuzzy_signature_key_words|].
  intros t' body' H. by apply fuzzy_signature_by_members.
Qed.

Section KeyWordPattern.
Import Text KeyWords.

Lemma letter_class t :
  Re.cset_match false (Re.CUnion Patterns.AZ Patterns.az) t = is_letter t.
Proof. reflexivity. Qed.

Lemma letter_word c : is_letter c = true → Chars.is_word c = true.
Proof. destruct c as [[] [] [] [] [] [] [] []]; vm_compute; congruence. Qed.

Lemma lead_lookup p s i :
  (i < lead p s)%nat → ∃ t, s !! i = Some t ∧ p t = true.
Proof.
  revert i. induction s as [|c s IH]; intros i; simpl; [lia|].
  destruct (p c) eqn:E; [|lia]. destruct i as [|i]; [by exists c|].
  intros H. apply IH. lia.
Qed.

Lemma lead_stop p s :
  match s !! lead p s with Some t => p t = false | None => True end.
Proof.
  induction s as [|c s IH]; simpl; [done|]. destruct (p c) eqn:E; [exact IH|exact E].
Qed.

(** Every continuation of a repetition lies after [k] characters of the
    class, [k] between the minimum and the length of the run. *)
Lemma many_elem ic cs s :
  ∀ min prev p,
    p ∈ Re.many ic cs min prev s →
    ∃ k, (min ≤ k ≤ lead (Re.cset_match ic cs) s)%nat
         ∧ snd p = drop k s
         ∧ fst p = match k with O => prev | S k' => s !! k' end.
Proof.
  induction s as [|t s IH]; intros min prev p Hp; cbn [Re.many lead] in *.
  - destruct min; [|by apply elem_of_nil in Hp]. apply list_elem_of_singleton in Hp as ->.
    exists 0%nat. split_and!; [lia|lia|done|done].
  - assert (Hstop : p ∈ (if (min =? 0)%nat then [(prev, t :: s)] else []) →
                    ∃ k, (min ≤ k ≤ (if Re.cset_match ic cs t
                                     then S (lead (Re.cset_match ic cs) s) else 0))%nat
                         ∧ snd p = drop k (t :: s)
                         ∧ fst p = match k with O => prev | S k' => (t :: s) !! k' end).
    { destruct min; [|by intros ?%elem_of_nil]. intros ->%list_elem_of_singleton.
      exists 0%nat. split_and!; [lia|lia|done|done]. }
    destruct (Re.cset_match ic cs t) eqn:E; [|by apply Hstop].
    apply elem_of_app in Hp as [Hp|Hp]; [|by apply Hstop].
    destruct (IH _ _ _ Hp) as (k & Hk & Hs & Hf).
    exists (S k). split_and!; [lia|lia|done|]. rewrite Hf. by destruct k.
Qed.

Lemma drop_length_inj {A} (s : list A) i j :
  (i ≤ length s)%nat → (j ≤ length s)%nat → drop i s = drop j s → i = j.
Proof.
  intros Hi Hj E. apply (f_equal length) in E. rewrite !length_drop in E. lia.
Qed.

Lemma run_key_word prev s :
  Re.run false Patterns.key_word prev s =
  if Re.at_boundary prev s
  then flat_map (λ p, if Re.at_boundary (fst p) (snd p) then [(fst p, snd p)] else [])
         (Re.many false (Re.CUnion Patterns.AZ Patterns.az) 4 prev s)
  else [].
Proof.
  unfold Patterns.key_word.
  change (Re.seqs [Re.Wb; Re.Many (Re.CUnion Patterns.AZ Patterns.az) 4; Re.Wb])
    with (Re.Seq Re.Wb (Re.Seq (Re.Many (Re.CUnion Patterns.AZ Patterns.az) 4) Re.Wb)).
  cbn [Re.run]. destruct (Re.at_boundary prev s); [|done].
  cbn [flat_map fst snd]. by rewrite app_nil_r.
Qed.

Lemma lead_letter_word s :
  (lead is_letter s ≤ lead Chars.is_word s)%nat.
Proof.
  induction s as [|c s IH]; simpl; [lia|].
  destruct (is_letter c) eqn:E; [|lia]. rewrite (letter_word c E). lia.
Qed.

Lemma forallb_take_lead p s : forallb p (take (lead p s) s) = true.
Proof. induction s as [|c s IH]; simpl; [done|]. destruct (p c) eqn:E; simpl; [by rewrite E|done]. Qed.

Lemma lead_forallb p s n :
  (n ≤ length s)%nat → forallb p (take n s) = true → (n ≤ lead p s)%nat.
Proof.
  revert n. induction s as [|c s IH]; intros n Hn H; simpl in *; [lia|].
  destruct n as [|n]; [lia|]. simpl in H. apply andb_true_iff in H as [-> H].
  specialize (IH n ltac:(lia) H). lia.
Qed.

Lemma head_drop {A} (s : list A) n : head (drop n s) = s !! n.
Proof. revert n. induction s as [|c s IH]; intros [|n]; simpl; done. Qed.

(** What a member of the list of matches of the key-word pattern says. *)
Lemma run_key_word_elem prev s p :
  p ∈ Re.run false Patterns.key_word prev s →
  Re.word_at prev = false
  ∧ is_key_word (take (lead Chars.is_word s) s) = true
  ∧ snd p = drop (lead Chars.is_word s) s.
Proof.
  rewrite run_key_word. destruct (Re.at_boundary prev s) eqn:Hb; [|by intros ?%elem_of_nil].
  intros Hp. apply list_elem_of_In, in_flat_map in Hp as (q & Hq & Hp).
  destruct (Re.at_boundary (fst q) (snd q)) eqn:Hb2; [|destruct Hp].
  destruct Hp as [<-|[]]. cbn [snd].
  apply list_elem_of_In, many_elem in Hq as (k & [Hk4 HkL] & Hs & Hf).
  change (Re.cset_match false (Re.CUnion Patterns.AZ Patterns.az)) with is_letter in HkL.
  set (L := lead is_letter s) in *.
  destruct k as [|k]; [lia|].
  destruct (lead_lookup is_letter s k) as (t & Ht & Hlt); [fold L; lia|].
  rewrite Ht in Hf. unfold Re.at_boundary in Hb2. rewrite Hf, Hs, head_drop in Hb2.
  cbn [Re.word_at] in Hb2. rewrite (letter_word t Hlt) in Hb2.
  assert (HkL' : S k = L).
  { destruct (decide (S k = L)) as [|Hne]; [done|]. exfalso.
    destruct (lead_lookup is_letter s (S k)) as (t' & Ht' & Hlt'); [fold L; lia|].
    rewrite Ht' in Hb2. cbn [Re.word_at] in Hb2. by rewrite (letter_word t' Hlt') in Hb2. }
  assert (HLW : lead Chars.is_word s = L).
  { pose proof (lead_letter_word s) as Hle. fold L in Hle.
    destruct (decide (lead Chars.is_word s = L)) as [|Hne]; [done|]. exfalso.
    destruct (lead_lookup Chars.is_word s L) as (t' & Ht' & Hw'); [lia|].
    rewrite HkL', Ht' in Hb2. cbn [Re.word_at] in Hb2. by rewrite Hw' in Hb2. }
  rewrite HLW, <- HkL'. split_and!; [| |done].
  - unfold Re.at_boundary in Hb.
    destruct (lead_lookup is_letter s 0) as (t0 & Ht0 & Hl0); [fold L; lia|].
    destruct s as [|c s]; [done|]. injection Ht0 as ->. cbn [head Re.word_at] in Hb.
    rewrite (letter_word t0 Hl0) in Hb. by destruct (Re.word_at prev).
  - unfold is_key_word. rewrite HkL'. subst L. rewrite forallb_take_lead, andb_true_r.
    apply Nat.leb_le. rewrite length_take. pose proof (lead_le is_letter s). lia.
Qed.

Lemma run_key_word_nonempty prev s :
  Re.word_at prev = false → is_key_word (take (lead Chars.is_word s) s) = true →
  Re.run false Patterns.key_word prev s ≠ [].
Proof.
  intros Hprev Hkw. unfold is_key_word in Hkw. apply andb_true_iff in Hkw as [Hlen Hall].
  apply Nat.leb_le in Hlen. rewrite length_take in Hlen.
  pose proof (lead_le Chars.is_word s) as HleW.
  assert (HL : lead is_letter s = lead Chars.is_word s).
  { pose proof (lead_letter_word s).
    pose proof (lead_forallb is_letter s (lead Chars.is_word s) HleW Hall). lia. }
  pose proof (many_head false (Re.CUnion Patterns.AZ Patterns.az) s 4 prev) as Hh.
  change (Re.cset_match false (Re.CUnion Patterns.AZ Patterns.az)) with is_letter in Hh.
  rewrite HL in Hh. rewrite (proj2 (Nat.leb_le _ _)) in Hh by lia.
  destruct (Re.many false (Re.CUnion Patterns.AZ Patterns.az) 4 prev s) as [|p0 l] eqn:Em;
    [discriminate|].
  cbn [head fmap option_fmap option_map] in Hh. injection Hh as Hs0.
  destruct (many_elem false (Re.CUnion Patterns.AZ Patterns.az) s 4 prev p0)
    as (k & [Hk4 HkL] & Hs & Hf); [rewrite Em; by left|].
  change (Re.cset_match false (Re.CUnion Patterns.AZ Patterns.az)) with is_letter in HkL.
  assert (Hk : k = lead Chars.is_word s).
  { apply (drop_length_inj s); [lia|lia|]. by rewrite <- Hs. }
  destruct k as [|k]; [lia|].
  destruct (lead_lookup is_letter s k) as (t & Ht & Hlt); [lia|].
  assert (Hb : Re.at_boundary prev s = true).
  { destruct (lead_lookup is_letter s 0) as (t0 & Ht0 & Hl0); [lia|].
    destruct s as [|c s]; [done|]. injection Ht0 as ->.
    unfold Re.at_boundary. cbn [head Re.word_at]. by rewrite Hprev, (letter_word t0 Hl0). }
  rewrite run_key_word, Hb, Em. cbn [flat_map].
  assert (Hb0 : Re.at_boundary (fst p0) (snd p0) = true).
  { unfold Re.at_boundary. rewrite Hf, Ht, Hs0. cbn [Re.word_at].
    by rewrite (letter_word t Hlt), lead_drop_head. }
  rewrite Hb0. discriminate.
Qed.

Lemma match_here_key_word prev s :
  Re.match_here false Patterns.key_word prev s =
  if negb (Re.word_at prev) && is_key_word (take (lead Chars.is_word s) s)
  then Some (lead Chars.is_word s) else None.
Proof.
  unfold Re.match_here.
  destruct (Re.run false Patterns.key_word prev s) as [|p l] eqn:E.
  - destruct (Re.word_at prev) eqn:Hprev; [done|]. cbn [negb andb].
    destruct (is_key_word _) eqn:Hkw; [|done].
    by destruct (run_key_word_nonempty prev s Hprev Hkw).
  - destruct (run_key_word_elem prev s p) as (Hprev & Hkw & Hs).
    { rewrite E. by left. }
    rewrite Hprev, Hkw, Hs, length_drop. cbn [negb andb]. f_equal.
    pose proof (lead_le Chars.is_word s). lia.
Qed.

Lemma key_words_of_word_run s :
  lead Chars.is_word s ≠ 0%nat →
  key_words_of s
  = (if is_key_word (take (lead Chars.is_word s) s)
     then [take (lead Chars.is_word s) s] else [])
    ++ key_words_of (drop (lead Chars.is_word s) s).
Proof.
  intros H. unfold key_words_of. rewrite (tokens_word_run s H).
  cbn [words_of omap list_omap word_of]. rewrite filter_cons.
  destruct (is_key_word _) eqn:E.
  - by rewrite decide_True.
  - by rewrite decide_False by (by intros ?).
Qed.

Lemma key_words_of_sep c s :
  Chars.is_word c = false → key_words_of (c :: s) = key_words_of s.
Proof. intros E. unfold key_words_of. cbn [tokens]. by rewrite E. Qed.

Lemma findall_key_word s :
  (∀ prev, Re.word_at prev = false →
           Re.findall_go false Patterns.key_word 0 prev s = key_words_of s)
  ∧ (∀ prev, Re.findall_go false Patterns.key_word (lead Chars.is_word s) prev s
             = key_words_of (drop (lead Chars.is_word s) s))
  ∧ (∀ prev, Re.word_at prev = true →
             Re.findall_go false Patterns.key_word 0 prev s
             = key_words_of (drop (lead Chars.is_word s) s)).
Proof.
  induction s as [|c s (IHa & IHb & IHc)].
  - split_and!; intros prev; intros; cbn [Re.findall_go lead];
      rewrite match_here_key_word; cbn [lead take]; by rewrite andb_false_r.
  - destruct (Chars.is_word c) eqn:E.
    + assert (Hlead : lead Chars.is_word (c :: s) = S (lead Chars.is_word s))
        by (cbn [lead]; by rewrite E).
      split_and!.
      * intros prev Hprev. cbn [Re.findall_go].
        rewrite match_here_key_word, Hprev, key_words_of_word_run by (by rewrite Hlead).
        rewrite Hlead. cbn [negb andb]. destruct (is_key_word _).
        -- cbn [Nat.pred app drop]. by rewrite IHb.
        -- cbn [app drop]. by rewrite IHc.
      * intros prev. rewrite Hlead. cbn [Re.findall_go drop]. apply IHb.
      * intros prev Hprev. cbn [Re.findall_go]. rewrite match_here_key_word, Hprev, Hlead.
        cbn [negb andb drop]. by rewrite IHc.
    + assert (Hlead : lead Chars.is_word (c :: s) = 0%nat) by (cbn [lead]; by rewrite E).
      assert (Hgo : ∀ prev, Re.findall_go false Patterns.key_word 0 prev (c :: s)
                            = key_words_of (c :: s)).
      { intros prev. cbn [Re.findall_go]. rewrite match_here_key_word, Hlead.
        cbn [take]. change (is_key_word []) with false. rewrite andb_false_r.
        rewrite IHa by (cbn [Re.word_at]; done). by rewrite key_words_of_sep. }
      rewrite Hlead. split_and!; intros; cbn [drop]; apply Hgo.
Qed.

End KeyWordPattern.

(** X17. The key words that [re.findall] returns for the pattern of
    [create_fuzzy_signature] are the words of the text (its maximal runs of
    word characters) that are made of four unaccented letters or more and of
    nothing else, in the order of the text; a word with a digit, an
    underscore or an accented letter in it is no key word, nor is any part of
    it. *)
Theorem key_words_are_letter_words s :
  Re.findall false Patterns.key_word s
  = Str.of_chars <$> KeyWords.key_words_of (Str.chars s).
Proof.
  unfold Re.findall. f_equal. apply (proj1 (findall_key_word _)). reflexivity.
Qed.

(** ** More on the batch pipeline *)

Section Batch.

Lemma flag_nil b r : flag b r = [] ↔ b = false.
Proof. by destruct b. Qed.

Lemma duplicate_step_cases self c t body w :
  w ≠ [] →
  (fst (duplicate_step self c t body (Some w)) = []
   ∧ (create_content_signature t body ∉ recent_hashes self)
   ∧ Forall (λ a, item_hits c t body a = false) w
   ∧ recent_hashes (snd (duplicate_step self c t body (Some w)))
     = {[create_content_signature t body]} ∪ recent_hashes self
   ∧ last_cache_cleanup (snd (duplicate_step self c t body (Some w)))
     = last_cache_cleanup self)
  ∨ (∃ d, d ∈ duplicate_reasons
      ∧ fst (duplicate_step self c t body (Some w)) = [d]
      ∧ snd (duplicate_step self c t body (Some w)) = self
      ∧ (create_content_signature t body ∈ recent_hashes self
         ∨ ¬ Forall (λ a, item_hits c t body a = false) w)).
Proof.
  intros Hw. rewrite (duplicate_step_window _ _ _ _ _ Hw). unfold is_duplicate.
  fold (comparison_text t body). rewrite scan_existing_first.
  destruct (decide _) as [Hin|Hout].
  - right. exists "duplicate_exact_duplicate". cbn [fst snd].
    split_and!; [apply list_elem_of_In; simpl; tauto|done|done|by left].
  - destruct (list_find _ w) as [[i a]|] eqn:Hfind.
    + right. apply list_find_Some in Hfind as (Hi & Hhit & _).
      assert (Hno : ¬ Forall (λ a, item_hits c t body a = false) w).
      { intros Hall. rewrite Forall_forall in Hall.
        rewrite (Hall a) in Hhit by (by eapply list_elem_of_lookup_2). discriminate. }
      destruct (fuzzy_matches t body a); cbn [fst snd].
      * exists "duplicate_fuzzy_duplicate".
        split_and!; [apply list_elem_of_In; simpl; tauto|done|done|by right].
      * exists "duplicate_similar_content".
        split_and!; [apply list_elem_of_In; simpl; tauto|done|done|by right].
    + left. cbn [fst snd recent_hashes last_cache_cleanup]. split_and!; try done.
      apply list_find_None in Hfind. eapply Forall_impl; [exact Hfind|].
      intros a Ha. simpl in Ha. by destruct (item_hits c t body a).
Qed.

(** What an accepting verdict says about the item. *)
Lemma accept_passes self c t body url ea :
  accept (should_process_article self c t body url ea) = true →
  passes_filters t body url = true
  ∧ fst (duplicate_step self c t body ea) = [].
Proof.
  rewrite should_process_article_eq. unfold accept, passes_filters. cbn [fst snd].
  intros H. apply Nat.eqb_eq, nil_length_inv in H.
  apply app_eq_nil in H as [H1 H]. apply app_eq_nil in H as [H2 H].
  apply app_eq_nil in H as [H3 H]. apply app_eq_nil in H as [H4 H5].
  apply flag_nil in H1, H2, H3, H5. by rewrite H1, H2, H3, H5.
Qed.

Lemma passes_accept self c t body url ea :
  passes_filters t body url = true →
  fst (duplicate_step self c t body ea) = [] →
  fst (should_process_article self c t body url ea) = (true, []).
Proof.
  unfold passes_filters. intros H Hd. rewrite should_process_article_eq. cbn [fst snd].
  rewrite Hd. destruct (is_low_value_content _ _), (is_wire_service_content _ _),
    (is_pr_content _ _), (_is_filtered_url _); try discriminate. reflexivity.
Qed.

Lemma should_process_state self c t body url ea :
  snd (should_process_article self c t body url ea) = snd (duplicate_step self c t body ea).
Proof. by rewrite should_process_article_eq. Qed.

(** One turn of the loop, as a case distinction on the verdict. *)
Lemma batch_step_cases c w st e :
  let r := should_process_article (reducer st) c (get e "title") (get e "content")
             (get e "url") (Some w) in
  reducer (batch_step c w st e) = snd r
  ∧ ((accept r = true ∧ filtered_articles (batch_step c w st e) = filtered_articles st ++ [e])
     ∨ (accept r = false ∧ filtered_articles (batch_step c w st e) = filtered_articles st)).
Proof.
  intros r. subst r. unfold batch_step, accept.
  destruct (should_process_article _ _ _ _ _ _) as [[[] rs] s']; cbn [fst snd reducer
    filtered_articles]; (split; [done|]); [by left|by right].
Qed.

(** *** Accepted entries pass every filter *)

Lemma batch_loop_filters c w arts :
  ∀ st,
    Forall (λ e, entry_passes_filters e = true) (filtered_articles st) →
    Forall (λ e, entry_passes_filters e = true)
      (filtered_articles (foldl (batch_step c w) st arts)).
Proof.
  induction arts as [|e arts IH]; intros st Hst; [done|]. simpl. apply IH.
  destruct (batch_step_cases c w st e) as [_ [[Hacc ->]|[_ ->]]]; [|done].
  apply Forall_app. split; [done|]. constructor; [|constructor].
  by apply accept_passes in Hacc as [H _].
Qed.

Lemma short_content_low_value t body :
  is_low_value_content t body = false →
  (min_content_length ≤ Str.len (Str.strip body))%nat.
Proof.
  unfold is_low_value_content.
  destruct (Str.len (Str.strip body) <? min_content_length)%nat eqn:E; [done|].
  intros _. by apply Nat.ltb_ge in E.
Qed.

(** *** Accepted entries are new *)

Lemma batch_loop_new c w cache0 arts :
  w ≠ [] →
  ∀ st,
    NoDup (entry_signature <$> filtered_articles st) →
    Forall (λ e, entry_signature e ∈ recent_hashes (reducer st)
                 ∧ (entry_signature e ∉ cache0) ∧ no_window_hit c w e)
      (filtered_articles st) →
    cache0 ⊆ recent_hashes (reducer st) →
    let st' := foldl (batch_step c w) st arts in
    NoDup (entry_signature <$> filtered_articles st')
    ∧ Forall (λ e, entry_signature e ∈ recent_hashes (reducer st')
                   ∧ (entry_signature e ∉ cache0) ∧ no_window_hit c w e)
        (filtered_articles st')
    ∧ cache0 ⊆ recent_hashes (reducer st').
Proof.
  intros Hw. induction arts as [|e arts IH]; intros st Hnd Hall Hsub; [done|].
  cbn [foldl]. apply IH.
  - destruct (batch_step_cases c w st e) as [_ [[Hacc ->]|[_ ->]]]; [|done].
    apply accept_passes in Hacc as [_ Hd].
    destruct (duplicate_step_cases (reducer st) c (get e "title") (get e "content") w Hw)
      as [(_ & Hout & _)|(d & _ & Hd' & _)]; [|congruence].
    rewrite fmap_app. apply NoDup_app. split_and!; [done| |repeat constructor; set_solver].
    intros x Hx ->%list_elem_of_singleton. apply Hout.
    apply list_elem_of_fmap in Hx as (e' & He' & Hin).
    rewrite Forall_forall in Hall. fold (entry_signature e). rewrite He'.
    by apply Hall.
  - destruct (batch_step_cases c w st e) as [Hred Hcases]. rewrite Hred.
    rewrite should_process_state.
    destruct (duplicate_step_cases (reducer st) c (get e "title") (get e "content") w Hw)
      as [(Hd & Hout & Hno & Hcache & _)|(d & _ & Hd' & Hself & _)].
    + rewrite Hcache.
      assert (Hold : Forall (λ e0, entry_signature e0
                                   ∈ {[create_content_signature (get e "title")
                                         (get e "content")]} ∪ recent_hashes (reducer st)
                                 ∧ (entry_signature e0 ∉ cache0) ∧ no_window_hit c w e0)
                       (filtered_articles st)).
      { eapply Forall_impl; [exact Hall|]. intros e0 (H1 & H2 & H3).
        split_and!; [by apply elem_of_union_r|done|done]. }
      destruct Hcases as [[_ ->]|[_ ->]]; [|done].
      apply Forall_app. split; [done|]. constructor; [|constructor].
      split_and!; [by apply elem_of_union_l, elem_of_singleton_2| |done].
      intros Hin. apply Hout. by apply Hsub.
    + rewrite Hself. destruct Hcases as [[Hacc _]|[_ ->]]; [|done].
      apply accept_passes in Hacc as [_ Hd]. congruence.
  - destruct (batch_step_cases c w st e) as [-> _]. rewrite should_process_state.
    destruct (duplicate_step_cases (reducer st) c (get e "title") (get e "content") w Hw)
      as [(_ & _ & _ & -> & _)|(d & _ & _ & -> & _)]; [|done].
    intros x Hx. apply elem_of_union_r. by apply Hsub.
Qed.

(** *** A batch of clean, distinct, unseen entries is accepted whole *)

Lemma batch_loop_all c w arts :
  ∀ st,
    Forall (λ e, entry_passes_filters e = true) arts →
    NoDup (entry_signature <$> arts) →
    Forall (λ e, entry_signature e ∉ recent_hashes (reducer st)) arts →
    Forall (no_window_hit c w) arts →
    filtered_articles (foldl (batch_step c w) st arts) = filtered_articles st ++ arts.
Proof.
  induction arts as [|e arts IH]; intros st Hp Hnd Hc Hn; [by rewrite app_nil_r|].
  cbn [foldl]. apply Forall_cons in Hp as [Hpe Hp]. apply Forall_cons in Hc as [Hce Hc].
  apply Forall_cons in Hn as [Hne Hn]. rewrite fmap_cons in Hnd.
  apply NoDup_cons in Hnd as [Hnde Hnd].
  assert (Hd : fst (duplicate_step (reducer st) c (get e "title") (get e "content") (Some w))
               = []
               ∧ recent_hashes (snd (duplicate_step (reducer st) c (get e "title")
                                       (get e "content") (Some w)))
                 ⊆ {[entry_signature e]} ∪ recent_hashes (reducer st)).
  { destruct w as [|a w]; [split; [done|set_solver]|].
    destruct (duplicate_step_cases (reducer st) c (get e "title") (get e "content")
                (a :: w) ltac:(discriminate))
      as [(Hd & _ & _ & -> & _)|(d & _ & _ & _ & [Hin|Hhit])]; [done|done|done]. }
  destruct Hd as [Hd Hcache].
  pose proof (passes_accept (reducer st) c _ _ _ (Some w) Hpe Hd) as Hv.
  destruct (batch_step_cases c w st e) as [Hred [[_ Hacc]|[Hrej _]]].
  2:{ unfold accept in Hrej. rewrite Hv in Hrej. discriminate. }
  rewrite IH; [by rewrite Hacc, <- app_assoc|done|done| |done].
  rewrite Hred, should_process_state.
  rewrite Forall_forall in Hc |- *. intros e' He' Hin. apply Hcache in Hin.
  apply elem_of_union in Hin as [Hin|Hin]; [|by apply (Hc e')].
  apply elem_of_singleton in Hin. apply Hnde. rewrite <- Hin.
  by apply list_elem_of_fmap_2.
Qed.

End Batch.

(** X4. Every entry that [filter_articles_batch] returns is an entry of
    the batch that triggers none of the low-value, wire-service, promotional
    and url filters; in particular it has a [content] key, and its content,
    trimmed, has 150 characters at least. *)
Theorem accepted_entries_pass_every_filter vr c articles db days e :
  e ∈ fst (fst (filter_articles_batch vr c articles db days)) →
  e ∈ articles
  ∧ is_low_value_content (get e "title") (get e "content") = false
  ∧ is_wire_service_content (get e "title") (get e "content") = false
  ∧ is_pr_content (get e "title") (get e "content") = false
  ∧ _is_filtered_url (get e "url") = false
  ∧ (min_content_length ≤ Str.len (Str.strip (get e "content")))%nat
  ∧ is_Some (e !! "content").
Proof.
  intros He. unfold filter_articles_batch in He. cbn [fst snd] in He.
  assert (Hin : e ∈ articles).
  { match type of He with _ ∈ filtered_articles (foldl (batch_step c ?w) ?s articles) =>
      destruct (batch_loop_spec c w articles s (Z.of_nat (length articles)) 0 0)
        as (acc & E & Hsub & _); [done..|] end.
    rewrite E in He. cbn [filtered_articles app] in He. by eapply elem_of_sublist. }
  match type of He with _ ∈ filtered_articles (foldl (batch_step c ?w) ?s articles) =>
    pose proof (batch_loop_filters c w articles s ltac:(constructor)) as Hall end.
  rewrite Forall_forall in Hall. specialize (Hall e He).
  unfold entry_passes_filters, passes_filters in Hall.
  destruct (is_low_value_content _ _) eqn:Hlow; [done|].
  destruct (is_wire_service_content _ _); [done|].
  destruct (is_pr_content _ _); [done|]. destruct (_is_filtered_url _); [done|].
  pose proof (short_content_low_value _ _ Hlow) as Hlen.
  split_and!; try done.
  unfold get in Hlen. destruct (e !! "content"); [done|].
  exfalso. vm_compute in Hlen. lia.
Qed.

Lemma accepted_entries_pass_every_filter_witness :
  Sample.story ∈ [Sample.story; Sample.story]
  ∧ is_low_value_content (get Sample.story "title") (get Sample.story "content") = false
  ∧ is_wire_service_content (get Sample.story "title") (get Sample.story "content") = false
  ∧ is_pr_content (get Sample.story "title") (get Sample.story "content") = false
  ∧ _is_filtered_url (get Sample.story "url") = false
  ∧ (min_content_length ≤ Str.len (Str.strip (get Sample.story "content")))%nat
  ∧ is_Some (Sample.story !! "content").
Proof.
  apply (accepted_entries_pass_every_filter Sample.fresh Sample.noon
           [Sample.story; Sample.story] Sample.library_db 7 Sample.story).
  assert (E : fst (fst (filter_articles_batch Sample.fresh Sample.noon
                          [Sample.story; Sample.story] Sample.library_db 7))
              = [Sample.story]) by (vm_compute; reflexivity).
  rewrite E. apply list_elem_of_singleton. reflexivity.
Defined.

Lemma batch_new vr c articles db days :
  let out := filter_articles_batch vr c articles db days in
  let window := db (cutoff_date c days) in
  window ≠ [] →
  NoDup (entry_signature <$> fst (fst out))
  ∧ (∀ e, e ∈ fst (fst out) →
       (entry_signature e ∉ recent_hashes (cleanup_cache vr c))
       ∧ entry_signature e ∈ recent_hashes (snd out)
       ∧ no_window_hit c window e)
  ∧ recent_hashes (cleanup_cache vr c) ⊆ recent_hashes (snd out).
Proof.
  intros out window Hw. subst out. unfold filter_articles_batch. cbn [fst snd].
  fold window.
  match goal with |- context [foldl (batch_step c window) ?s articles] =>
    destruct (batch_loop_new c window (recent_hashes (cleanup_cache vr c)) articles Hw s)
      as (Hnd & Hall & Hsub) end; [constructor|constructor|done|].
  split_and!; [done| |done].
  intros e He. rewrite Forall_forall in Hall. destruct (Hall e He) as (H1 & H2 & H3). done.
Qed.

(** X5. When the window fetched for a batch is not empty, the entries that
    [filter_articles_batch] returns have pairwise different exact
    signatures; none of these signatures was in the cache after the TTL
    check, each is in the cache that the batch leaves, no window item hits an
    accepted entry, and the batch removes nothing from the cache. *)
Theorem accepted_entries_are_new vr c articles db days :
  let out := filter_articles_batch vr c articles db days in
  let window := db (cutoff_date c days) in
  window ≠ [] →
  NoDup (entry_signature <$> fst (fst out))
  ∧ (∀ e, e ∈ fst (fst out) →
       (entry_signature e ∉ recent_hashes (cleanup_cache vr c))
       ∧ entry_signature e ∈ recent_hashes (snd out)
       ∧ no_window_hit c window e)
  ∧ recent_hashes (cleanup_cache vr c) ⊆ recent_hashes (snd out).
Proof. exact (batch_new vr c articles db days). Qed.

Lemma accepted_entries_are_new_witness :
  let out := filter_articles_batch Sample.fresh Sample.noon [Sample.story; Sample.story]
               Sample.library_db 7 in
  NoDup (entry_signature <$> fst (fst out))
  ∧ (∀ e, e ∈ fst (fst out) →
       (entry_signature e ∉ recent_hashes (cleanup_cache Sample.fresh Sample.noon))
       ∧ entry_signature e ∈ recent_hashes (snd out)
       ∧ no_window_hit Sample.noon [Sample.library_story] e)
  ∧ recent_hashes (cleanup_cache Sample.fresh Sample.noon) ⊆ recent_hashes (snd out).
Proof.
  apply (accepted_entries_are_new Sample.fresh Sample.noon [Sample.story; Sample.story]
           Sample.library_db 7).
  discriminate.
Defined.

(** X6. A batch whose entries pass the four filters, have pairwise
    different exact signatures that the cache does not hold, and are hit by
    no window item, is returned whole.  Nothing is asked about how the
    entries relate to one another: the window is fetched once, before the
    loop, so two entries of one batch that are fuzzy or similar duplicates of
    each other are both accepted. *)
Theorem distinct_clean_entries_all_pass vr c articles db days :
  let window := db (cutoff_date c days) in
  Forall (λ e, entry_passes_filters e = true) articles →
  NoDup (entry_signature <$> articles) →
  Forall (λ e, entry_signature e ∉ recent_hashes (cleanup_cache vr c)) articles →
  Forall (no_window_hit c window) articles →
  fst (fst (filter_articles_batch vr c articles db days)) = articles.
Proof.
  intros window Hp Hnd Hc Hn. unfold filter_articles_batch. cbn [fst snd]. fold window.
  by rewrite batch_loop_all.
Qed.

Lemma distinct_clean_entries_all_pass_witness :
  fuzzy_matches (get Cases.story_variant "title") (get Cases.story_variant "content")
    Cases.stored_story = true
  ∧ fst (fst (filter_articles_batch Sample.fresh Sample.noon
                [Sample.story; Cases.story_variant] Sample.library_db 7))
    = [Sample.story; Cases.story_variant].
Proof.
  split; [vm_compute; reflexivity|].
  apply (distinct_clean_entries_all_pass Sample.fresh Sample.noon
           [Sample.story; Cases.story_variant] Sample.library_db 7).
  - repeat constructor; vm_compute; reflexivity.
  - apply (bool_decide_unpack _). vm_compute. exact I.
  - repeat constructor; apply not_elem_of_empty.
  - repeat constructor; vm_compute; reflexivity.
Defined.

Lemma cleanup_cache_kept self c :
  (Datetime.sub (Datetime.now c) (last_cache_cleanup self) <= hash_cache_expiry)%Z →
  cleanup_cache self c = self.
Proof.
  intros H. unfold cleanup_cache.
  by rewrite (proj2 (Z.ltb_ge _ _)) by lia.
Qed.

(** X7. An entry accepted by one call of [filter_articles_batch] is not
    accepted by the next call on the same engine, nor is any entry with the
    same exact signature, provided both windows are not empty and the second
    call does not reset the cache (no more than 24 hours since the last
    reset). *)
Theorem accepted_entry_is_rejected_by_the_next_batch
    vr c1 c2 batch1 batch2 db1 db2 days1 days2 e1 e2 :
  let out1 := filter_articles_batch vr c1 batch1 db1 days1 in
  let out2 := filter_articles_batch (snd out1) c2 batch2 db2 days2 in
  db1 (cutoff_date c1 days1) ≠ [] → db2 (cutoff_date c2 days2) ≠ [] →
  (Datetime.sub (Datetime.now c2) (last_cache_cleanup (snd out1)) <= hash_cache_expiry)%Z →
  e1 ∈ fst (fst out1) →
  entry_signature e2 = entry_signature e1 →
  e2 ∉ fst (fst out2).
Proof.
  intros out1 out2 Hw1 Hw2 Httl He1 Hsig He2.
  destruct (batch_new vr c1 batch1 db1 days1 Hw1) as (_ & H1 & _).
  destruct (H1 e1 He1) as (_ & Hin & _).
  destruct (batch_new (snd out1) c2 batch2 db2 days2 Hw2) as (_ & H2 & _).
  destruct (H2 e2 He2) as (Hout & _).
  apply Hout. rewrite (cleanup_cache_kept _ _ Httl), Hsig. exact Hin.
Qed.

Lemma accepted_entry_is_rejected_by_the_next_batch_witness :
  let out1 := filter_articles_batch Sample.fresh Sample.noon [Sample.story]
                Sample.library_db 7 in
  let out2 := filter_articles_batch (snd out1) Cases.an_hour_later [Sample.story]
                Sample.library_db 7 in
  Sample.story ∉ fst (fst out2).
Proof.
  apply (accepted_entry_is_rejected_by_the_next_batch Sample.fresh Sample.noon
           Cases.an_hour_later [Sample.story] [Sample.story] Sample.library_db
           Sample.library_db 7 7 Sample.story Sample.story).
  - discriminate.
  - discriminate.
  - vm_compute. discriminate.
  - assert (E : fst (fst (filter_articles_batch Sample.fresh Sample.noon [Sample.story]
                            Sample.library_db 7)) = [Sample.story])
      by (vm_compute; reflexivity).
    rewrite E. apply list_elem_of_singleton. reflexivity.
  - reflexivity.
Defined.

(** ** More on the duplicate detector *)

Section Detector.

Lemma scan_existing_filter c fz cn arts :
  scan_existing c fz cn (filter (λ a, too_old c a = false) arts)
  = scan_existing c fz cn arts.
Proof.
  induction arts as [|a arts IH]; [done|]. rewrite filter_cons.
  destruct (too_old c a) eqn:E.
  - rewrite decide_False by discriminate. cbn [scan_existing]. by rewrite E.
  - rewrite decide_True by done. cbn [scan_existing]. by rewrite E, IH.
Qed.

Lemma fuzzy_matches_self a : fuzzy_matches (title a) (content_or_empty a) a = true.
Proof. unfold fuzzy_matches. apply String.eqb_refl. Qed.

Lemma list_find_is_Some {A} (P : A → Prop) `{∀ x, Decision (P x)} (l : list A) x :
  x ∈ l → P x → is_Some (list_find P l).
Proof.
  intros Hin HP. destruct (list_find P l) eqn:E; [done|].
  apply list_find_None in E. rewrite Forall_forall in E. by destruct (E x Hin).
Qed.

Lemma is_duplicate_hit self c t body arts a :
  a ∈ arts → item_hits c t body a = true →
  fst (fst (is_duplicate self c t body arts)) = true.
Proof.
  intros Hin Hhit. rewrite is_duplicate_verdict, scan_existing_first.
  destruct (decide _); [done|].
  destruct (list_find_is_Some (λ a, item_hits c t body a = true) arts a Hin Hhit)
    as [[i b] ->]. done.
Qed.

Lemma duplicate_reason_in self c t body url w :
  w ≠ [] → fst (fst (is_duplicate self c t body w)) = true →
  accept (should_process_article self c t body url (Some w)) = false.
Proof.
  intros Hw Hd. rewrite should_process_article_eq, (duplicate_step_window _ _ _ _ _ Hw).
  unfold accept. cbn [fst snd]. rewrite Hd.
  rewrite !length_app. cbn [length]. apply Nat.eqb_neq. lia.
Qed.

End Detector.

(** X11. The window items that the age test skips take no part in
    [is_duplicate]: with them removed from the window, the answer and the
    engine state are the same. *)
Theorem items_past_eight_days_take_no_part self c t body arts :
  is_duplicate self c t body (filter (λ a, too_old c a = false) arts)
  = is_duplicate self c t body arts.
Proof. unfold is_duplicate. by rewrite scan_existing_filter. Qed.

(** X10. An article of the window that the age test does not skip is a
    duplicate of itself: [is_duplicate] on its title and content answers
    [True], and [should_process_article] rejects it, whatever the cache
    holds and whatever the url. *)
Theorem window_article_is_a_duplicate self c a arts url :
  a ∈ arts → too_old c a = false →
  fst (fst (is_duplicate self c (title a) (content_or_empty a) arts)) = true
  ∧ accept (should_process_article self c (title a) (content_or_empty a) url (Some arts))
    = false.
Proof.
  intros Hin Hold.
  assert (Hhit : item_hits c (title a) (content_or_empty a) a = true).
  { unfold item_hits. by rewrite Hold, fuzzy_matches_self. }
  pose proof (is_duplicate_hit self c _ _ arts a Hin Hhit) as Hd.
  split; [exact Hd|]. apply duplicate_reason_in; [|exact Hd].
  intros ->. by apply elem_of_nil in Hin.
Qed.

Lemma window_article_is_a_duplicate_witness :
  fst (fst (is_duplicate Sample.fresh Sample.noon (title Sample.library_story)
              (content_or_empty Sample.library_story) [Sample.library_story])) = true
  ∧ accept (should_process_article Sample.fresh Sample.noon (title Sample.library_story)
              (content_or_empty Sample.library_story) Sample.story_url
              (Some [Sample.library_story])) = false.
Proof.
  apply (window_article_is_a_duplicate Sample.fresh Sample.noon Sample.library_story
           [Sample.library_story] Sample.story_url).
  - apply list_elem_of_singleton. reflexivity.
  - reflexivity.
Defined.

(** X12. An item that [should_process_article] examines against a window
    that is not empty, without reporting a fuzzy or a similar duplicate, has
    its exact signature in the cache afterwards, also when it is rejected
    for another reason.  A second call for the same title and content on the
    resulting engine, at any time and for any url and window that is not
    empty, reports the exact duplicate, rejects the item and leaves the
    engine as it is. *)
Theorem seen_item_is_exact_duplicate_next self c c' t body url url' w w' :
  let r1 := should_process_article self c t body url (Some w) in
  let r2 := should_process_article (snd r1) c' t body url' (Some w') in
  w ≠ [] → w' ≠ [] →
  "duplicate_fuzzy_duplicate" ∉ reasons r1 →
  "duplicate_similar_content" ∉ reasons r1 →
  create_content_signature t body ∈ recent_hashes (snd r1)
  ∧ "duplicate_exact_duplicate" ∈ reasons r2
  ∧ accept r2 = false
  ∧ snd r2 = snd r1.
Proof.
  intros r1 r2 Hw Hw' Hfz Hsim.
  assert (Hin : create_content_signature t body ∈ recent_hashes (snd r1)).
  { subst r1. rewrite should_process_state.
    destruct (duplicate_step_cases self c t body w Hw)
      as [(_ & _ & _ & -> & _)|(d & Hd & Hfst & -> & Hwhy)].
    - apply elem_of_union_l, elem_of_singleton_2. reflexivity.
    - assert (Hd' : d ∈ reasons (should_process_article self c t body url (Some w))).
      { rewrite should_process_article_eq. unfold reasons. cbn [fst snd]. rewrite Hfst.
        rewrite !elem_of_app. right. right. right. left. by left. }
      apply list_elem_of_In in Hd. simpl in Hd.
      destruct Hd as [<-|[<-|[<-|[]]]];
        [|by destruct (Hfz Hd')|by destruct (Hsim Hd')].
      unfold duplicate_step in Hfst. destruct w as [|a w]; [done|]. cbv zeta in Hfst.
      cbn [fst snd] in Hfst. rewrite is_duplicate_verdict in Hfst.
      destruct (decide _) as [Hc|Hout]; [exact Hc|]. exfalso.
      rewrite scan_existing_first in Hfst.
      destruct (list_find _ _) as [[i b]|]; [|done]. cbn [fst snd] in Hfst.
      by destruct (fuzzy_matches t body b). }
  split; [exact Hin|].
  pose proof (is_duplicate_seen (snd r1) c' t body w' Hin) as Hseen.
  subst r2. rewrite should_process_article_eq, (duplicate_step_window _ _ _ _ _ Hw'), Hseen.
  unfold reasons, accept. cbn [fst snd]. split_and!.
  - rewrite !elem_of_app. right. right. right. left. by left.
  - rewrite !length_app. cbn [length]. apply Nat.eqb_neq. lia.
  - done.
Qed.

Lemma seen_item_is_exact_duplicate_next_witness :
  let r1 := should_process_article Sample.fresh Sample.noon Cases.tractor_title
              Cases.tractor_body Sample.story_url (Some [Sample.library_story]) in
  let r2 := should_process_article (snd r1) Cases.an_hour_later Cases.tractor_title
              Cases.tractor_body Sample.story_url (Some [Sample.library_story]) in
  reasons r1 = ["pr_content"]
  ∧ create_content_signature Cases.tractor_title Cases.tractor_body
    ∈ recent_hashes (snd r1)
  ∧ "duplicate_exact_duplicate" ∈ reasons r2
  ∧ accept r2 = false
  ∧ snd r2 = snd r1.
Proof.
  assert (E : reasons (should_process_article Sample.fresh Sample.noon Cases.tractor_title
                         Cases.tractor_body Sample.story_url
                         (Some [Sample.library_story])) = ["pr_content"])
    by (vm_compute; reflexivity).
  split; [exact E|].
  apply (seen_item_is_exact_duplicate_next Sample.fresh Sample.noon Cases.an_hour_later
           Cases.tractor_title Cases.tractor_body Sample.story_url Sample.story_url
           [Sample.library_story] [Sample.library_story]).
  - discriminate.
  - discriminate.
  - rewrite E. intros H. apply list_elem_of_singleton in H. discriminate.
  - rewrite E. intros H. apply list_elem_of_singleton in H. discriminate.
Defined.

(** X18. An item without any key word has the fuzzy signature of the
    empty text, the MD5 digest of the empty string.  Such an item is reported
    a fuzzy duplicate of the first window item when that item has no key word
    either and is not skipped as too old (and the exact test did not fire),
    whatever the two texts are. *)
Theorem texts_without_key_words_are_fuzzy_duplicates self c t body a rest :
  key_words t body = [] → key_words (title a) (content_or_empty a) = [] →
  create_content_signature t body ∉ recent_hashes self → too_old c a = false →
  create_fuzzy_signature t body = "d41d8cd98f00b204e9800998ecf8427e"
  ∧ fst (is_duplicate self c t body (a :: rest)) = (true, Some "fuzzy_duplicate").
Proof.
  intros Ht Ha Hout Hold.
  pose proof (fuzzy_signature_no_key_words _ _ Ht) as E1.
  pose proof (fuzzy_signature_no_key_words _ _ Ha) as E2.
  split; [exact E1|]. rewrite is_duplicate_verdict. destruct (decide _); [done|].
  cbn [scan_existing]. rewrite Hold, E1, E2. reflexivity.
Qed.

Lemma texts_without_key_words_are_fuzzy_duplicates_witness :
  create_fuzzy_signature "Fed up" "" = "d41d8cd98f00b204e9800998ecf8427e"
  ∧ fst (is_duplicate Sample.fresh Sample.noon "Fed up" "" [Cases.oil_story])
    = (true, Some "fuzzy_duplicate").
Proof.
  apply (texts_without_key_words_are_fuzzy_duplicates Sample.fresh Sample.noon "Fed up" ""
           Cases.oil_story []).
  - vm_compute. reflexivity.
  - vm_compute. reflexivity.
  - apply not_elem_of_empty.
  - reflexivity.
Defined.

(** *** The breakdown of the rejections *)

Section Breakdown.
Local Open Scope Z_scope.

Lemma bump_lookup key k stats :
  bump key stats !! k
  = if decide (key = k) then Some (default 0 (stats !! k) + 1) else stats !! k.
Proof.
  destruct (decide (key = k)) as [->|Hne]; [apply bump_lookup_eq|by apply bump_lookup_ne].
Qed.

Lemma bump_dom key stats : key ∈ dom stats → dom (bump key stats) = dom stats.
Proof.
  intros H. unfold bump. rewrite dom_insert_L. apply leibniz_equiv.
  apply subseteq_union_1. by apply singleton_subseteq_l.
Qed.

Lemma foldl_bump_dom rs stats :
  Forall (λ r, r ∈ dom stats) rs → dom (foldl (λ s r, bump r s) stats rs) = dom stats.
Proof.
  revert stats. induction rs as [|r rs IH]; intros stats H; [done|].
  apply Forall_cons in H as [Hr H]. cbn [foldl]. rewrite IH.
  - by apply bump_dom.
  - rewrite (bump_dom _ _ Hr). exact H.
Qed.

Lemma sum_over_bump ks r stats :
  NoDup ks →
  sum_over ks (bump r stats) = sum_over ks stats + (if bool_decide (r ∈ ks) then 1 else 0).
Proof.
  induction 1 as [|k ks Hk Hnd IH]; [done|].
  cbn [sum_over foldr]. fold (sum_over ks (bump r stats)). fold (sum_over ks stats).
  rewrite IH, bump_lookup. destruct (decide (r = k)) as [->|Hne].
  - rewrite (bool_decide_eq_false_2 _ Hk), bool_decide_eq_true_2 by (by left).
    change (default 0 (Some (default 0 (stats !! k) + 1))) with (default 0 (stats !! k) + 1).
    lia.
  - destruct (decide (r ∈ ks)) as [Hin|Hin].
    + rewrite !bool_decide_eq_true_2 by (done || by right). lia.
    + rewrite (bool_decide_eq_false_2 (r ∈ ks)) by done.
      rewrite (bool_decide_eq_false_2 (r ∈ k :: ks)) by (by intros [?|?]%elem_of_cons).
      lia.
Qed.

Lemma sum_over_foldl_bump ks rs stats :
  NoDup ks → Forall (λ r, r ∈ ks) rs →
  sum_over ks (foldl (λ s r, bump r s) stats rs) = sum_over ks stats + Z.of_nat (length rs).
Proof.
  intros Hks. revert stats. induction rs as [|r rs IH]; intros stats H.
  - cbn [foldl length]. lia.
  - apply Forall_cons in H as [Hr H]. cbn [foldl length]. rewrite IH by done.
    rewrite sum_over_bump, bool_decide_eq_true_2 by done. lia.
Qed.

Lemma foldl_bump_lookup_in k rs stats :
  NoDup rs → k ∈ rs →
  foldl (λ s r, bump r s) stats rs !! k = Some (default 0 (stats !! k) + 1).
Proof.
  intros Hnd. revert stats. induction Hnd as [|r rs Hr Hnd IH]; intros stats Hk.
  - by apply elem_of_nil in Hk.
  - cbn [foldl]. apply elem_of_cons in Hk as [->|Hk].
    + rewrite foldl_bump_lookup by done. apply bump_lookup_eq.
    + rewrite IH by done. rewrite bump_lookup_ne; [done|]. by intros ->.
Qed.

Lemma known_reasons_NoDup : NoDup known_reasons.
Proof. apply (bool_decide_unpack _). vm_compute. exact I. Qed.

End Breakdown.

Section Breakdown2.
Local Open Scope Z_scope.

(** The reasons of a verdict: no reason twice, five at most, known ones. *)
Lemma reasons_facts self c t body url ea :
  let rs := reasons (should_process_article self c t body url ea) in
  NoDup rs ∧ (length rs ≤ 5)%nat ∧ Forall (λ r, r ∈ known_reasons) rs.
Proof.
  intros rs. subst rs.
  destruct (reasons_sublist self c t body url ea) as (d & Hd & Hsub).
  split_and!.
  - eapply sublist_NoDup; [|exact Hsub].
    apply list_elem_of_In in Hd. simpl in Hd.
    destruct Hd as [<-|[<-|[<-|[]]]]; apply (bool_decide_unpack _); vm_compute; exact I.
  - apply sublist_length in Hsub. exact Hsub.
  - apply Forall_forall. intros r. apply reasons_known.
Qed.

Lemma stat_key_in_dom (stats : gmap string Z) k :
  dom stats = list_to_set stat_keys → k ∈ stat_keys → k ∈ dom stats.
Proof. intros -> Hk. by apply elem_of_list_to_set. Qed.

Lemma known_stat_key k : k ∈ known_reasons → k ∈ stat_keys.
Proof.
  intros Hk. apply list_elem_of_In in Hk. apply list_elem_of_In. simpl in *. tauto.
Qed.

Lemma sum_over_other key ks stats :
  key ∉ ks → sum_over ks (bump key stats) = sum_over ks stats.
Proof.
  induction ks as [|k ks IH]; intros Hk; [done|].
  cbn [sum_over foldr]. fold (sum_over ks (bump key stats)). fold (sum_over ks stats).
  rewrite IH by (intros ?; apply Hk; by right).
  rewrite bump_lookup_ne; [done|]. intros ->. apply Hk. by left.
Qed.

Lemma batch_step_breakdown c w st e :
  breakdown_ok (rejection_stats st) → breakdown_ok (rejection_stats (batch_step c w st e)).
Proof.
  intros (Hdom & F & HF & HF0 & Hall & Hsum). unfold batch_step.
  pose proof (reasons_facts (reducer st) c (get e "title") (get e "content") (get e "url")
                (Some w)) as (Hnd & Hlen & Hknown).
  pose proof (should_process_article_eq (reducer st) c (get e "title") (get e "content")
                (get e "url") (Some w)) as Heq.
  destruct (should_process_article _ _ _ _ _ _) as [[ok rs] s'].
  unfold reasons in *. cbn [fst snd] in *.
  destruct ok; cbn [rejection_stats].
  - split.
    + rewrite bump_dom; [done|]. apply stat_key_in_dom; [done|].
      apply list_elem_of_In. simpl. tauto.
    + exists F. rewrite bump_lookup_ne by discriminate.
      split; [done|]. split; [done|]. split.
      * rewrite Forall_forall in Hall |- *. intros k Hk.
        rewrite bump_lookup_ne; [by apply Hall|].
        intros <-. by apply (counter_not_reason "processed");
          [apply list_elem_of_In; simpl; tauto|].
      * rewrite sum_over_other; [done|].
        apply counter_not_reason, list_elem_of_In. simpl. tauto.
  - assert (Hne : rs ≠ []).
    { intros ->. cbv zeta in Heq. injection Heq as Hok Hrs _.
      rewrite <- Hrs in Hok. discriminate. }
    assert (Hlen1 : (1 ≤ length rs)%nat) by (destruct rs; [done|simpl; lia]).
    split.
    + rewrite foldl_bump_dom.
      * rewrite bump_dom; [done|]. apply stat_key_in_dom; [done|].
        apply list_elem_of_In. simpl. tauto.
      * eapply Forall_impl; [exact Hknown|]. intros r Hr. simpl.
        rewrite bump_dom by (apply stat_key_in_dom; [done|]; apply list_elem_of_In;
                             simpl; tauto).
        by apply stat_key_in_dom, known_stat_key.
    + exists (F + 1).
      rewrite foldl_bump_lookup, bump_lookup_eq, HF.
      2:{ intros Hin. rewrite Forall_forall in Hknown.
          by apply (counter_not_reason "total_filtered");
            [apply list_elem_of_In; simpl; tauto|apply Hknown]. }
      split; [done|]. split; [lia|]. split.
      * rewrite Forall_forall in Hall |- *. intros k Hk. specialize (Hall k Hk).
        assert (Hk' : "total_filtered" ≠ k).
        { intros <-. by apply (counter_not_reason "total_filtered");
            [apply list_elem_of_In; simpl; tauto|]. }
        destruct (decide (k ∈ rs)) as [Hin|Hin].
        -- rewrite foldl_bump_lookup_in, bump_lookup_ne by done.
           change (default 0 (Some (default 0 (rejection_stats st !! k) + 1)))
             with (default 0 (rejection_stats st !! k) + 1). lia.
        -- rewrite foldl_bump_lookup, bump_lookup_ne by done. lia.
      * rewrite sum_over_foldl_bump, sum_over_other; [lia| |apply known_reasons_NoDup|done].
        apply counter_not_reason, list_elem_of_In. simpl. tauto.
Qed.

Lemma initial_stats_breakdown n : breakdown_ok (initial_stats n).
Proof.
  split.
  - unfold initial_stats. rewrite !dom_insert_L, dom_empty_L. apply leibniz_equiv.
    intros k. rewrite elem_of_list_to_set. unfold stat_keys.
    rewrite !elem_of_union, !elem_of_singleton, elem_of_empty, !elem_of_cons, elem_of_nil.
    tauto.
  - exists 0. split; [done|]. split; [done|]. split; [|done].
    repeat constructor; done.
Qed.

Lemma batch_loop_breakdown c w arts :
  ∀ st, breakdown_ok (rejection_stats st) →
        breakdown_ok (rejection_stats (foldl (batch_step c w) st arts)).
Proof.
  induction arts as [|e arts IH]; intros st H; [done|].
  cbn [foldl]. by apply IH, batch_step_breakdown.
Qed.

End Breakdown2.

(** X8. The statistics of [filter_articles_batch] hold the ten keys of the
    initial dictionary and no other.  Each of the seven reason counters lies
    between 0 and [total_filtered], and their sum lies between
    [total_filtered] and five times [total_filtered]: a filtered entry is
    counted under one reason at least and under each reason once at most. *)
Theorem rejection_breakdown_is_consistent vr c articles db days :
  let stats := snd (fst (filter_articles_batch vr c articles db days)) in
  (∀ k, is_Some (stats !! k) ↔ k ∈ stat_keys)
  ∧ ∃ total_filtered : Z,
      stats !! "total_filtered" = Some total_filtered
      ∧ (∀ k, k ∈ known_reasons →
           ∃ n : Z, stats !! k = Some n ∧ (0 <= n <= total_filtered)%Z)
      ∧ (total_filtered <= sum_over known_reasons stats <= 5 * total_filtered)%Z.
Proof.
  intros stats. subst stats. unfold filter_articles_batch. cbn [fst snd].
  match goal with |- context [foldl (batch_step c ?w) ?s articles] =>
    destruct (batch_loop_breakdown c w articles s) as (Hdom & F & HF & HF0 & Hall & Hsum);
      [apply initial_stats_breakdown|];
    set (stats := rejection_stats (foldl (batch_step c w) s articles)) in * end.
  split.
  - intros k. rewrite <- elem_of_dom, Hdom. apply elem_of_list_to_set.
  - exists F. split; [done|]. split; [|done].
    intros k Hk. rewrite Forall_forall in Hall. specialize (Hall k Hk).
    assert (Hin : k ∈ dom stats) by (by apply stat_key_in_dom, known_stat_key).
    apply elem_of_dom in Hin as [n Hn]. exists n. rewrite Hn in Hall. done.
Qed.

(** *** The size of the cache *)

Section CacheSize.

Lemma duplicate_step_size self c t body ea :
  (size (recent_hashes self)
   ≤ size (recent_hashes (snd (duplicate_step self c t body ea)))
   ≤ size (recent_hashes self) + 1)%nat.
Proof.
  destruct ea as [[|a w]|]; [cbn; lia| |cbn; lia].
  destruct (duplicate_step_cases self c t body (a :: w) ltac:(discriminate))
    as [(_ & Hout & _ & -> & _)|(d & _ & _ & -> & _)]; [|lia].
  rewrite size_union by (by apply disjoint_singleton_l).
  rewrite size_singleton. lia.
Qed.

Lemma batch_loop_size c w arts :
  ∀ st,
    (size (recent_hashes (reducer st))
     ≤ size (recent_hashes (reducer (foldl (batch_step c w) st arts)))
     ≤ size (recent_hashes (reducer st)) + length arts)%nat.
Proof.
  induction arts as [|e arts IH]; intros st; [cbn [foldl length]; lia|].
  cbn [foldl length]. specialize (IH (batch_step c w st e)).
  destruct (batch_step_cases c w st e) as [Hred _]. rewrite Hred in IH.
  rewrite should_process_state in IH.
  pose proof (duplicate_step_size (reducer st) c (get e "title") (get e "content") (Some w)).
  lia.
Qed.

Lemma batch_loop_no_window c arts :
  ∀ st, reducer (foldl (batch_step c []) st arts) = reducer st.
Proof.
  induction arts as [|e arts IH]; intros st; [done|].
  cbn [foldl]. rewrite IH. destruct (batch_step_cases c [] st e) as [-> _].
  by rewrite should_process_state.
Qed.

End CacheSize.

(** X9. After [filter_articles_batch], [get_filtering_stats] reports a
    [cache_size] between the size of the cache after the TTL check and that
    size plus the number of entries of the batch; it is that size plus the
    number of accepted entries at least when the window is not empty, and
    exactly that size when the window is empty. *)
Theorem cache_size_after_batch vr c articles db days :
  let out := filter_articles_batch vr c articles db days in
  let window := db (cutoff_date c days) in
  let before := size (recent_hashes (cleanup_cache vr c)) in
  ∃ n : nat,
    get_filtering_stats (snd out) !! "cache_size" = Some (Int (Z.of_nat n))
    ∧ (before ≤ n ≤ before + length articles)%nat
    ∧ (window ≠ [] → before + length (fst (fst out)) ≤ n)%nat
    ∧ (window = [] → n = before).
Proof.
  intros out window before. exists (size (recent_hashes (snd out))).
  split; [reflexivity|]. split; [|split].
  - subst out before. unfold filter_articles_batch. cbn [fst snd].
    match goal with |- context [foldl (batch_step c ?w) ?s articles] =>
      pose proof (batch_loop_size c w articles s) as H end.
    cbn [reducer] in H. exact H.
  - intros Hw. destruct (batch_new vr c articles db days Hw) as (Hnd & Hall & Hsub).
    fold out in Hnd, Hall, Hsub. fold before.
    set (sigs := entry_signature <$> fst (fst out)) in *.
    assert (Hsigs : (list_to_set sigs : gset string) ⊆ recent_hashes (snd out)).
    { intros x Hx. apply elem_of_list_to_set in Hx.
      apply list_elem_of_fmap in Hx as (e & -> & He). by apply Hall. }
    assert (Hdisj : recent_hashes (cleanup_cache vr c) ## (list_to_set sigs : gset string)).
    { intros x Hx Hx'. apply elem_of_list_to_set in Hx'.
      apply list_elem_of_fmap in Hx' as (e & -> & He). by apply (Hall e He). }
    assert (Hle : (size (recent_hashes (cleanup_cache vr c) ∪ list_to_set sigs)
                   ≤ size (recent_hashes (snd out)))%nat).
    { apply subseteq_size. by apply union_least. }
    rewrite size_union, size_list_to_set in Hle by done.
    subst sigs before. by rewrite length_fmap in Hle.
  - intros Hw. subst out before. unfold filter_articles_batch. cbn [fst snd].
    fold window. rewrite Hw. by rewrite batch_loop_no_window.
Qed.

(** ** The handlers *)

Section Accounting.
Import Pipeline.
Local Open Scope Z_scope.

Variable isoformat : Datetime.datetime → string.
Variable round_percent : Z → Z → Q.
Variable format_float : Q → string.

Lemma batch_totals vr c articles db days :
  ∃ f, snd (fst (filter_articles_batch vr c articles db days)) !! "total_input"
       = Some (Z.of_nat (length articles))
    ∧ snd (fst (filter_articles_batch vr c articles db days)) !! "total_filtered" = Some f
    ∧ snd (fst (filter_articles_batch vr c articles db days)) !! "processed"
      = Some (Z.of_nat (length articles) - f)
    ∧ 0 <= f <= Z.of_nat (length articles).
Proof.
  unfold filter_articles_batch. cbn [fst snd].
  match goal with |- context [foldl (batch_step c ?w) ?s articles] =>
    destruct (batch_loop_spec c w articles s (Z.of_nat (length articles)) 0 0)
      as (acc & E & Hsub & En & Ep & Ef); [done..|] end.
  apply sublist_length in Hsub.
  exists (Z.of_nat (length articles) - Z.of_nat (length acc)).
  rewrite En, Ep, Ef. split_and!; [done|f_equal; lia|f_equal; lia|lia|lia].
Qed.

Lemma last_n_length {A} n (xs : list A) : length (last_n n xs) = Nat.min n (length xs).
Proof. unfold last_n. rewrite length_drop. lia. Qed.

Lemma Forall_last_n {A} (P : A → Prop) n xs : Forall P xs → Forall P (last_n n xs).
Proof. unfold last_n. apply Forall_drop. Qed.

Lemma record_batch_accounted fs c vr articles db days n calls :
  accounted n calls fs →
  ∃ fs', record_batch isoformat round_percent fs c
           (snd (fst (filter_articles_batch vr c articles db days))) = Some fs'
         ∧ accounted (n + Z.of_nat (length articles)) (S calls) fs'.
Proof.
  intros (Hn & Hsum & Hlen & Hall).
  destruct (batch_totals vr c articles db days) as (f & Ei & Ef & Ep & Hf).
  unfold record_batch, reduction. rewrite Ei, Ef, Ep. cbn [mbind option_bind].
  set (pct := if 0 <? Z.of_nat (length articles)
              then Some (round_percent f (Z.of_nat (length articles))) else None).
  assert (Epct : (if 0 <? Z.of_nat (length articles)
                  then Some (Some (round_percent f (Z.of_nat (length articles))))
                  else Some None) = Some pct).
  { subst pct. by destruct (0 <? _). }
  rewrite Epct. cbn [mbind option_bind].
  eexists. split; [reflexivity|].
  set (batch := {| timestamp := _ |}).
  assert (Hall' : Forall (λ b, input b = filtered b + processed b
                               ∧ 0 <= filtered b ∧ 0 <= processed b)
                    (recent_batches fs ++ [batch])).
  { apply Forall_app. split; [done|]. constructor; [cbn; lia|constructor]. }
  split_and!; cbn [session_total session_filtered session_processed recent_batches].
  - lia.
  - lia.
  - destruct (20 <? _)%nat eqn:E20; [apply Nat.ltb_lt in E20|apply Nat.ltb_ge in E20];
      rewrite ?last_n_length, ?length_app in *; cbn [length] in *; lia.
  - destruct (20 <? _)%nat; [by apply Forall_last_n|done].
Qed.

(** A verdict without a window. *)
Lemma verdict_without_window self c t body url :
  should_process_article self c t body url None
  = ((passes_filters t body url, own_reasons t body url), self).
Proof.
  rewrite should_process_article_eq. unfold passes_filters, own_reasons, duplicate_step.
  cbv zeta. cbn [fst snd].
  destruct (is_low_value_content t body), (is_wire_service_content t body),
    (is_pr_content t body), (_is_filtered_url url); reflexivity.
Qed.

Lemma test_one_result reducer c entry :
  test_one reducer c (test_article_data entry) = Some (result_of entry, reducer).
Proof.
  assert (Et : text_at (test_article_data entry) "title" = Some (entry_title entry))
    by reflexivity.
  assert (Ec : text_at (test_article_data entry) "content"
               = Some (default "" (entry_content entry))) by reflexivity.
  assert (Eu : text_at (test_article_data entry) "url" = Some (entry_url entry))
    by reflexivity.
  assert (Ei : test_article_data entry !! "id" = Some (VInt (entry_id entry)))
    by reflexivity.
  unfold test_one. rewrite Et, Ec, Eu. cbn [mbind option_bind].
  rewrite verdict_without_window, Ei. reflexivity.
Qed.

Lemma test_all_results reducer c entries :
  test_all reducer c (test_article_data <$> entries) = Some (result_of <$> entries, reducer).
Proof.
  induction entries as [|e entries IH]; [done|].
  cbn [fmap list_fmap test_all]. rewrite test_one_result. cbn [mbind option_bind].
  change (list_fmap _ _ test_article_data entries) with (test_article_data <$> entries).
  rewrite IH. reflexivity.
Qed.

Lemma test_article_data_size entry : size (test_article_data entry) = 4%nat.
Proof.
  unfold test_article_data.
  rewrite !map_size_insert_None, map_size_empty; [done|..];
    rewrite ?lookup_insert_ne by discriminate; apply lookup_empty.
Qed.

Lemma own_reasons_no_duplicate t body url d :
  d ∈ duplicate_reasons → d ∉ own_reasons t body url.
Proof.
  intros Hd Hin. unfold own_reasons in Hin. apply list_elem_of_In in Hd. simpl in Hd.
  destruct (is_low_value_content _ _), (is_wire_service_content _ _),
    (is_pr_content _ _), (_is_filtered_url _); cbn [flag app] in Hin;
    apply list_elem_of_In in Hin; simpl in Hin;
    destruct Hd as [<-|[<-|[<-|[]]]]; intuition discriminate.
Qed.

End Accounting.

Section Service.
Import Pipeline.
Local Open Scope Z_scope.

Variable isoformat : Datetime.datetime → string.
Variable round_percent : Z → Z → Q.
Variable format_float : Q → string.

Lemma texts_test_article_data entry :
  texts (test_article_data entry) = webhook_article_data entry.
Proof.
  apply map_eq. intros k.
  unfold texts, test_article_data, webhook_article_data, article_data.
  rewrite lookup_omap.
  destruct (decide (k = "id")) as [->|Hid]; [reflexivity|].
  rewrite (lookup_insert_ne _ "id" k) by done.
  destruct (decide (k = "title")) as [->|Ht]; [reflexivity|].
  rewrite !(lookup_insert_ne _ "title" k) by done.
  destruct (decide (k = "content")) as [->|Hc]; [reflexivity|].
  rewrite !(lookup_insert_ne _ "content" k) by done.
  destruct (decide (k = "url")) as [->|Hu]; [reflexivity|].
  rewrite !(lookup_insert_ne _ "url" k) by done.
  rewrite !lookup_empty. reflexivity.
Qed.

Lemma test_filter_endpoint_entries vr c e entries db :
  let out := filter_articles_batch vr c (webhook_article_data <$> e :: entries) db 7 in
  ∃ report,
    test_filter_endpoint round_percent format_float vr c (e :: entries) db
    = Some (Report report, snd out)
    ∧ test_results report = result_of <$> e :: entries
    ∧ total_articles report = 4%nat
    ∧ would_filter report + would_process report = Z.of_nat (length (e :: entries))
    ∧ breakdown report = snd (fst out).
Proof.
  intros out. unfold test_filter_endpoint.
  rewrite <- list_fmap_compose.
  rewrite (list_fmap_ext (texts ∘ test_article_data) webhook_article_data (e :: entries))
    by (intros; apply texts_test_article_data).
  fold out.
  destruct (batch_totals vr c (webhook_article_data <$> e :: entries) db 7)
    as (f & Ei & Ef & Ep & Hf). fold out in Ei, Ef, Ep.
  destruct out as [[acc fstats] eng] eqn:Eout. cbn [fst snd] in *.
  rewrite test_all_results. cbn [mbind option_bind].
  rewrite fmap_last.
  destruct (last (e :: entries)) as [e'|] eqn:El.
  2:{ apply last_None in El. discriminate. }
  cbn [fmap option_fmap option_map mbind option_bind].
  unfold reduction. rewrite Ei, Ef, Ep. cbn [mbind option_bind].
  destruct (0 <? _); cbn [mbind option_bind];
    (eexists; split; [reflexivity|];
     cbn [test_results total_articles would_filter would_process breakdown];
     split_and!; [done|apply test_article_data_size| |done]);
    rewrite length_fmap in *; lia.
Qed.

Lemma handle_accounted s r n calls :
  accounted n calls (stats s) →
  ∃ s', handle isoformat round_percent format_float s r = Some s'
        ∧ accounted (n + Z.of_nat (length (webhook_entries r)))
            (calls + (if decide (webhook_entries r ≠ []) then 1 else 0))%nat (stats s').
Proof.
  intros Hs. destruct r as [c entries db|c entries db]; cbn [handle webhook_entries].
  - unfold filtered_webhook_handler. destruct entries as [|e entries].
    + exists s. rewrite decide_False by (by intros ?). cbn [length].
      by rewrite Z.add_0_r, Nat.add_0_r.
    + rewrite decide_True by discriminate.
      destruct (record_batch_accounted isoformat round_percent (stats s) c (engine s)
                  (webhook_article_data <$> e :: entries) db 7 n calls Hs)
        as (fs' & Hrec & Hacc).
      destruct (filter_articles_batch _ _ _ _ _) as [[acc fstats] eng].
      cbn [fst snd] in Hrec. rewrite Hrec. cbn [mbind option_bind].
      eexists. split; [reflexivity|]. cbn [stats].
      rewrite length_fmap in Hacc. by rewrite Nat.add_1_r.
  - rewrite decide_False by (by intros ?). cbn [length]. rewrite Z.add_0_r, Nat.add_0_r.
    destruct entries as [|e entries].
    + exists s. split; [|done]. cbn. by destruct s.
    + destruct (test_filter_endpoint_entries (engine s) c e entries db)
        as (report & -> & _).
      cbn [mbind option_bind]. eexists. split; [reflexivity|]. exact Hs.
Qed.

Lemma run_accounted requests :
  ∀ s n calls,
    accounted n calls (stats s) →
    ∃ s', run isoformat round_percent format_float s requests = Some s'
          ∧ accounted
              (n + Z.of_nat (sum_list (map (λ r, length (webhook_entries r)) requests)))
              (calls + length (filter (λ r, webhook_entries r ≠ []) requests))%nat
              (stats s').
Proof.
  unfold run. induction requests as [|r requests IH]; intros s n calls Hs.
  - exists s. cbn [foldl map sum_list length filter list_filter].
    by rewrite Z.add_0_r, Nat.add_0_r.
  - cbn [foldl mbind option_bind].
    destruct (handle_accounted s r n calls Hs) as (s1 & -> & Hs1).
    destruct (IH s1 _ _ Hs1) as (s' & -> & Hs').
    exists s'. split; [done|]. cbn [map sum_list].
    rewrite Nat2Z.inj_add, Z.add_assoc, filter_cons.
    destruct (decide (webhook_entries r ≠ [])); cbn [length].
    + by rewrite <- Nat.add_succ_comm, <- Nat.add_1_r.
    + by rewrite Nat.add_0_r in Hs'.
Qed.

End Service.

(** X19. Over any sequence of requests to [filtered_webhook_handler] and
    [test_filter_endpoint], starting from the initial [filtering_stats], no
    lookup in the batch statistics fails, and [get_filtering_statistics]
    then reports: a total input equal to the number of entries the webhooks
    carried, equal also to the filtered plus the processed total; at most 20
    batch records are kept (one for each webhook with entries, the latest
    ones), of which the ten latest at most are shown; and in each record
    input = filtered + processed. *)
Theorem session_counters_add_up isoformat round_percent format_float engine0 requests :
  let s0 := {| Pipeline.stats := Pipeline.initial_filtering_stats;
               Pipeline.engine := engine0 |} in
  let batches := filter (λ r, Pipeline.webhook_entries r ≠ []) requests in
  ∃ s,
    Pipeline.run isoformat round_percent format_float s0 requests = Some s
    ∧ let report := Pipeline.get_filtering_statistics round_percent s in
      Pipeline.total_input report
      = Z.of_nat (sum_list (map (λ r, length (Pipeline.webhook_entries r)) requests))
      ∧ Pipeline.total_input report
        = (Pipeline.total_filtered report + Pipeline.total_processed report)%Z
      ∧ length (Pipeline.recent_batches (Pipeline.stats s)) = Nat.min 20 (length batches)
      ∧ length (Pipeline.shown_batches report) = Nat.min 10 (length batches)
      ∧ Forall (λ b, Pipeline.input b = (Pipeline.filtered b + Pipeline.processed b)%Z)
          (Pipeline.recent_batches (Pipeline.stats s)).
Proof.
  intros s0 batches.
  destruct (run_accounted isoformat round_percent format_float requests s0 0%Z 0%nat)
    as (s & Hrun & Hn & Hsum & Hlen & Hall).
  { subst s0. unfold accounted. cbn. split_and!; [reflexivity..|constructor]. }
  exists s. split; [exact Hrun|]. cbv zeta.
  cbn [Pipeline.get_filtering_statistics Pipeline.total_input Pipeline.total_filtered
       Pipeline.total_processed Pipeline.shown_batches].
  cbn [Nat.add] in Hlen. fold batches in Hlen.
  split_and!; [by rewrite Hn|done|done| |].
  - rewrite last_n_length, Hlen. lia.
  - eapply Forall_impl; [exact Hall|]. by intros b (H & _).
Qed.

(** X20. For a request with entries, [test_filter_endpoint] answers
    without raising.  Its [test_results] come from calls of
    [should_process_article] without a window, so they list for each entry
    the reasons of the four filters on the entry itself and never a duplicate
    reason, also for entries that the batch statistics of the same answer
    count as duplicates.  [total_articles] is 4 however many entries there
    are: it is the number of keys of the last dictionary.  The engine is left
    as the batch run leaves it, cache included. *)
Theorem test_filter_endpoint_report round_percent format_float vr c entries db :
  let out :=
    filter_articles_batch vr c (Pipeline.webhook_article_data <$> entries) db 7 in
  entries ≠ [] →
  ∃ report,
    Pipeline.test_filter_endpoint round_percent format_float vr c entries db
    = Some (Pipeline.Report report, snd out)
    ∧ Pipeline.test_results report = result_of <$> entries
    ∧ Pipeline.total_articles report = 4%nat
    ∧ (Pipeline.would_filter report + Pipeline.would_process report
       = Z.of_nat (length entries))%Z
    ∧ Pipeline.breakdown report = snd (fst out)
    ∧ Forall (λ r, ∀ d, d ∈ duplicate_reasons → d ∉ Pipeline.filter_reasons r)
        (Pipeline.test_results report).
Proof.
  intros out Hne. destruct entries as [|e entries]; [done|].
  destruct (test_filter_endpoint_entries round_percent format_float vr c e entries db)
    as (report & Hrun & Hres & Htot & Hsum & Hbr).
  exists report. split_and!; try done.
  rewrite Hres. apply Forall_fmap, Forall_forall. intros e' _ d Hd. cbn.
  destruct (passes_filters _ _ _); [by apply not_elem_of_nil|].
  by apply own_reasons_no_duplicate.
Qed.

Lemma test_filter_endpoint_report_witness :
  let out :=
    filter_articles_batch Sample.fresh Sample.noon
      (Pipeline.webhook_article_data <$> [Cases.story_entry; Cases.story_entry])
      Sample.library_db 7 in
  snd (fst out) !! "duplicate_exact_duplicate" = Some 1%Z
  ∧ Pipeline.will_process (result_of Cases.story_entry) = true
  ∧ ∃ report,
      Pipeline.test_filter_endpoint Cases.exact_percent Cases.no_text Sample.fresh
        Sample.noon [Cases.story_entry; Cases.story_entry] Sample.library_db
      = Some (Pipeline.Report report, snd out)
      ∧ Pipeline.test_results report = result_of <$> [Cases.story_entry; Cases.story_entry]
      ∧ Pipeline.total_articles report = 4%nat
      ∧ (Pipeline.would_filter report + Pipeline.would_process report
         = Z.of_nat (length [Cases.story_entry; Cases.story_entry]))%Z
      ∧ Pipeline.breakdown report = snd (fst out)
      ∧ Forall (λ r, ∀ d, d ∈ duplicate_reasons → d ∉ Pipeline.filter_reasons r)
          (Pipeline.test_results report).
Proof.
  split; [vm_compute; reflexivity|]. split; [vm_compute; reflexivity|].
  apply (test_filter_endpoint_report Cases.exact_percent Cases.no_text Sample.fresh
           Sample.noon [Cases.story_entry; Cases.story_entry] Sample.library_db).
  discriminate.
Defined.

Section Breakdown3.
Local Open Scope Z_scope.

Lemma sum_over_zero ks (stats : gmap string Z) :
  Forall (λ k, default 0 (stats !! k) = 0) ks → sum_over ks stats = 0.
Proof.
  induction 1 as [|k ks Hk _ IH]; [done|].
  cbn [sum_over foldr]. fold (sum_over ks stats). lia.
Qed.

End Breakdown3.

(** X21. The [filter_breakdown] of the webhook answer holds exactly the
    reason counters of the batch statistics that are positive, none of the
    three totals; it is empty exactly when no entry was filtered. *)
Theorem filter_breakdown_lists_reasons vr c articles db days :
  let stats := snd (fst (filter_articles_batch vr c articles db days)) in
  (∀ k v, Pipeline.filter_breakdown stats !! k = Some v
          ↔ k ∈ known_reasons ∧ stats !! k = Some v ∧ (0 < v)%Z)
  ∧ (Pipeline.filter_breakdown stats = ∅ ↔ stats !! "total_filtered" = Some 0%Z).
Proof.
  intros stats. subst stats. unfold filter_articles_batch. cbn [fst snd].
  match goal with |- context [foldl (batch_step c ?w) ?s articles] =>
    destruct (batch_loop_breakdown c w articles s) as (Hdom & F & HF & HF0 & Hall & Hsum);
      [apply initial_stats_breakdown|];
    set (stats := rejection_stats (foldl (batch_step c w) s articles)) in * end.
  assert (Hlook : ∀ k v, Pipeline.filter_breakdown stats !! k = Some v
                         ↔ k ∈ known_reasons ∧ stats !! k = Some v ∧ (0 < v)%Z).
  { intros k v. unfold Pipeline.filter_breakdown. rewrite map_lookup_filter_Some.
    cbn [fst snd]. split.
    - intros (Hk & Hnot & Hv). split_and!; [|done|done].
      assert (Hin : k ∈ stat_keys).
      { apply (elem_of_list_to_set (C := gset string)). rewrite <- Hdom.
        by apply elem_of_dom_2 in Hk. }
      apply list_elem_of_In in Hin. apply list_elem_of_In. simpl in Hin |- *.
      assert (Hn : ¬ In k ["total_input"; "total_filtered"; "processed"])
        by (intros ?; apply Hnot; by apply list_elem_of_In).
      simpl in Hn. tauto.
    - intros (Hk & Hv & Hpos). split_and!; [done| |done].
      intros Hin. by apply (counter_not_reason k Hin). }
  split; [exact Hlook|]. rewrite Forall_forall in Hall. split.
  - intros Hempty. rewrite HF. f_equal.
    assert (Hz : sum_over known_reasons stats = 0%Z).
    { apply sum_over_zero, Forall_forall. intros k Hk. specialize (Hall k Hk).
      destruct (stats !! k) as [v|] eqn:Hv; [|done]. cbn in Hall |- *.
      destruct (decide (0 < v)%Z) as [Hpos|]; [|lia].
      assert (Hin : Pipeline.filter_breakdown stats !! k = Some v) by (by apply Hlook).
      rewrite Hempty, lookup_empty in Hin. discriminate. }
    lia.
  - rewrite HF. intros [= ->]. apply map_empty. intros k.
    destruct (Pipeline.filter_breakdown stats !! k) as [v|] eqn:Hv; [|done].
    apply Hlook in Hv as (Hk & Hv & Hpos). specialize (Hall k Hk).
    rewrite Hv in Hall. cbn in Hall. lia.
Qed.
